(** * MovieLens two-tower demo: the loader, the indexer, the feature encoder,
      the training guard and the ranking engine, embedded from the JavaScript
      source and checked against the written specification.

    Part I embeds the program.  JavaScript built-ins that the program calls
    (string splitting, [parseInt], [parseFloat], [Map], [Set],
    [Array.prototype.sort]) are written out after ECMAScript; the tensor
    library is an interface whose operations stay abstract.  Part II
    defines what the theorems speak of, Part III holds the lemmas and the
    theorems, Part IV runs the program on small inputs. *)

From Stdlib Require Import ZArith QArith Lqa String Ascii List Sorted Permutation Lia.
From stdpp Require Import base decidable option list numbers strings.
From Stdlib Require Import Qround.

Local Open Scope string_scope.
Local Open Scope list_scope.

(* ===================================================================== *)
(** * Part I.  The embedding                                              *)
(* ===================================================================== *)

(** ** JavaScript numbers *)

(** A number that came out of [parseInt]: a mathematical integer or [NaN].
    The two kinds of identifiers and the timestamps are of this type, and
    they are the keys of the program's [Map]s: [Map] compares keys with
    SameValueZero, under which [NaN] equals itself, so Leibniz equality on
    this type is the key equality.  Binary64 rounding above 2^53 is not
    represented. *)
Inductive intnum : Type :=
  | INaN
  | Int (z : Z).

#[global] Instance intnum_eq_dec : EqDecision intnum.
Proof. solve_decision. Defined.

(** A number in general: [NaN], an infinity ([neg] tells which one) or a
    finite value, kept exact as a rational.  Rounding to binary64 and the
    sign of zero are not represented. *)
Inductive number : Type :=
  | NaN
  | Inf (neg : bool)
  | Fin (q : Q).

Definition of_int (i : intnum) : number :=
  match i with
  | INaN => NaN
  | Int z => Fin (inject_Z z)
  end.

Definition Qneg (q : Q) : bool := if Qlt_le_dec q 0 then true else false.
Definition Qzero (q : Q) : bool := Qeq_bool q 0.

(** [a - b] *)
Definition number_sub (a b : number) : number :=
  match a, b with
  | NaN, _ | _, NaN => NaN
  | Inf s, Inf t => if Bool.eqb s t then NaN else Inf s
  | Inf s, Fin _ => Inf s
  | Fin _, Inf t => Inf (negb t)
  | Fin x, Fin y => Fin (x - y)
  end.

(** [a + b] *)
Definition number_add (a b : number) : number :=
  match a, b with
  | NaN, _ | _, NaN => NaN
  | Inf s, Inf t => if Bool.eqb s t then Inf s else NaN
  | Inf s, Fin _ => Inf s
  | Fin _, Inf t => Inf t
  | Fin x, Fin y => Fin (x + y)
  end.

(** [a / b] *)
Definition number_div (a b : number) : number :=
  match a, b with
  | NaN, _ | _, NaN => NaN
  | Inf _, Inf _ => NaN
  | Inf s, Fin y => Inf (xorb s (Qneg y))
  | Fin _, Inf _ => Fin 0
  | Fin x, Fin y =>
      if Qzero y then (if Qzero x then NaN else Inf (Qneg x))
      else Fin (x / y)
  end.

(** ToBoolean on a number: [NaN] and zero are falsy. *)
Definition truthy (a : number) : bool :=
  match a with
  | NaN => false
  | Inf _ => true
  | Fin q => negb (Qzero q)
  end.

(** [a || b] on numbers. *)
Definition number_or (a b : number) : number := if truthy a then a else b.

(** [v > 0], the test a sort makes on what its comparator returned;
    [NaN] counts as [+0]. *)
Definition positive (v : number) : bool :=
  match v with
  | NaN => false
  | Inf neg => negb neg
  | Fin q => if Qlt_le_dec 0 q then true else false
  end.

(** ** JavaScript strings

    Strings are sequences of code units; the model has the code units below
    256, which is what [ascii] holds. *)

Definition chars (s : string) : list ascii := list_ascii_of_string s.
Definition of_chars (l : list ascii) : string := string_of_list_ascii l.

Definition code (c : ascii) : N := N_of_ascii c.

(** WhiteSpace and LineTerminator code units (below 256): TAB, LF, VT, FF,
    CR, SP, NBSP. *)
Definition is_white_space (c : ascii) : bool :=
  let n := code c in
  ((9 <=? n) && (n <=? 13) || (n =? 32) || (n =? 160))%N.

Fixpoint trim_start (l : list ascii) : list ascii :=
  match l with
  | c :: l' => if is_white_space c then trim_start l' else l
  | [] => []
  end.

Definition trim_end (l : list ascii) : list ascii := rev (trim_start (rev l)).

(** [s.trim()] *)
Definition trim (s : string) : string := of_chars (trim_end (trim_start (chars s))).

Fixpoint split_chars (sep : ascii) (cur : list ascii) (l : list ascii) : list string :=
  match l with
  | [] => [of_chars (rev cur)]
  | c :: l' =>
      if Ascii.eqb c sep then of_chars (rev cur) :: split_chars sep [] l'
      else split_chars sep (c :: cur) l'
  end.

(** [s.split(sep)] for a separator of one code unit. *)
Definition split (sep : ascii) (s : string) : list string := split_chars sep [] (chars s).

Definition LF : ascii := ascii_of_N 10.
Definition TAB : ascii := ascii_of_N 9.
Definition BAR : ascii := ascii_of_N 124.

(** A value that is a string or [undefined], as a destructured or indexed
    field of [split]'s result is. *)
Definition field := option string.

(** ToString on such a value. *)
Definition to_string (f : field) : string := default "undefined" f.

(** *** parseInt and parseFloat *)

Definition digit_value (radix : Z) (c : ascii) : option Z :=
  let n := Z.of_N (code c) in
  let v :=
    (if (48 <=? n) && (n <=? 57) then Some (n - 48)
     else if (97 <=? n) && (n <=? 122) then Some (n - 87)
     else if (65 <=? n) && (n <=? 90) then Some (n - 55)
     else None)%Z in
  match v with
  | Some d => if (d <? radix)%Z then Some d else None
  | None => None
  end.

(** The longest prefix of digits in [radix], most significant first, and
    what follows it. *)
Fixpoint span_digits (radix : Z) (l : list ascii) : list Z * list ascii :=
  match l with
  | c :: l' =>
      match digit_value radix c with
      | Some d => let '(ds, rest) := span_digits radix l' in (d :: ds, rest)
      | None => ([], l)
      end
  | [] => ([], [])
  end.

Definition digits_value (radix : Z) (ds : list Z) : Z :=
  fold_left (fun acc d => acc * radix + d)%Z ds 0%Z.

Definition strip_sign (l : list ascii) : bool * list ascii :=
  match l with
  | c :: l' =>
      if Ascii.eqb c "-" then (true, l')
      else if Ascii.eqb c "+" then (false, l')
      else (false, l)
  | [] => (false, [])
  end.

Definition strip_hex_prefix (l : list ascii) : Z * list ascii :=
  match l with
  | z :: x :: l' =>
      if Ascii.eqb z "0" && (Ascii.eqb x "x" || Ascii.eqb x "X") then (16%Z, l')
      else (10%Z, l)
  | _ => (10%Z, l)
  end.

(** [parseInt(f)], no radix given. *)
Definition parseInt (f : field) : intnum :=
  let '(neg, l) := strip_sign (trim_start (chars (to_string f))) in
  let '(radix, l) := strip_hex_prefix l in
  match span_digits radix l with
  | ([], _) => INaN
  | (ds, _) => Int (if neg then - digits_value radix ds else digits_value radix ds)
  end.

Fixpoint starts_with (p l : list ascii) : bool :=
  match p, l with
  | [], _ => true
  | a :: p', b :: l' => Ascii.eqb a b && starts_with p' l'
  | _ :: _, [] => false
  end.

(** The exponent part of a decimal literal: [e] or [E], an optional sign and
    at least one digit; 0 when there is none. *)
Definition exponent (l : list ascii) : Z :=
  match l with
  | e :: l' =>
      if Ascii.eqb e "e" || Ascii.eqb e "E" then
        let '(neg, l'') := strip_sign l' in
        match span_digits 10 l'' with
        | ([], _) => 0%Z
        | (ds, _) => if neg then (- digits_value 10 ds)%Z else digits_value 10 ds
        end
      else 0%Z
  | [] => 0%Z
  end.

Definition pow10 (e : Z) : Q :=
  if (0 <=? e)%Z then inject_Z (10 ^ e) else / inject_Z (10 ^ (- e)).

(** [parseFloat(f)]: the longest prefix that is a StrDecimalLiteral. *)
Definition parseFloat (f : field) : number :=
  let '(neg, l) := strip_sign (trim_start (chars (to_string f))) in
  if starts_with (chars "Infinity") l then Inf neg
  else
    let '(ip, l) := span_digits 10 l in
    let '(fp, l) :=
      match l with
      | c :: l' => if Ascii.eqb c "." then span_digits 10 l' else ([], l)
      | [] => ([], [])
      end in
    match ip ++ fp with
    | [] => NaN
    | ds =>
        let m := (inject_Z (digits_value 10 ds) * pow10 (- Z.of_nat (length fp))
                  * pow10 (exponent l))%Q in
        Fin (Qred (if neg then - m else m))
    end.

(** ** Map, Set and Array.prototype.sort *)

(** A [Map]: its entries in insertion order.  [set] on a key that is present
    replaces the value where the entry stands; on a new key it appends. *)
Module JsMap.
Section Ops.
Context {K V : Type} `{EqDecision K}.

Definition t : Type := list (K * V).

Definition empty : t := [].

Fixpoint get (k : K) (m : t) : option V :=
  match m with
  | [] => None
  | (k', v) :: m' => if decide (k' = k) then Some v else get k m'
  end.

Definition has (k : K) (m : t) : bool :=
  match get k m with Some _ => true | None => false end.

Fixpoint set (k : K) (v : V) (m : t) : t :=
  match m with
  | [] => [(k, v)]
  | (k', v') :: m' =>
      if decide (k' = k) then (k, v) :: m' else (k', v') :: set k v m'
  end.

Definition size (m : t) : nat := length m.
Definition keys (m : t) : list K := map fst m.
Definition values (m : t) : list V := map snd m.

(** [m.get(k)] where [k] may be [undefined], which is never a key here. *)
Definition get_opt (k : option K) (m : t) : option V :=
  match k with Some k => get k m | None => None end.
End Ops.
Arguments t : clear implicits.
End JsMap.

(** A [Set]: its elements in insertion order, each once. *)
Module JsSet.
Section Ops.
Context {A : Type} `{EqDecision A}.

Definition t : Type := list A.

Definition has (x : A) (s : t) : bool := bool_decide (x ∈ s).

Definition add (x : A) (s : t) : t := if has x s then s else s ++ [x].

(** [new Set(array)] *)
Definition from (l : list A) : t := foldl (fun s x => add x s) [] l.

(** [s.has(x)] where [x] may be [undefined], which is never an element
    here. *)
Definition has_opt (x : option A) (s : t) : bool :=
  match x with Some x => has x s | None => false end.
End Ops.
Arguments t : clear implicits.
End JsSet.

(** [array.sort(cmp)].  ECMAScript asks for a stable sort and, for a
    consistent comparator, fixes the result; this is the stable insertion
    sort.  An element moves behind a later one only when the comparator,
    called on the two in their order, returns a positive number. *)
Section Sort.
Context {A : Type} (cmp : A -> A -> number).

Fixpoint sort_insert (x : A) (l : list A) : list A :=
  match l with
  | [] => [x]
  | y :: l' => if positive (cmp x y) then y :: sort_insert x l' else x :: l
  end.

Definition sort_by (l : list A) : list A := foldr sort_insert [] l.
End Sort.

(** Code units compared lexicographically, [a < b]. *)
Fixpoint chars_lt (a b : list ascii) : bool :=
  match a, b with
  | _, [] => false
  | [], _ :: _ => true
  | x :: a', y :: b' =>
      if (code x <? code y)%N then true
      else if (code y <? code x)%N then false
      else chars_lt a' b'
  end.

(** The comparator of [array.sort()] without an argument: [undefined] last,
    the rest by their strings. *)
Definition default_compare (x y : field) : number :=
  match x, y with
  | None, None => Fin 0
  | None, Some _ => Fin 1
  | Some _, None => Fin (-1)
  | Some a, Some b =>
      if chars_lt (chars a) (chars b) then Fin (-1)
      else if chars_lt (chars b) (chars a) then Fin 1
      else Fin 0
  end.

(** [array[i] = v]: in range the slot is overwritten; past the end the array
    grows, and the slots in between are holes, read as [undefined]. *)
Definition array_set {A : Type} (l : list (option A)) (i : nat) (v : A) : list (option A) :=
  if decide (i < length l) then <[i := Some v]> l
  else l ++ replicate (i - length l) None ++ [Some v].

(** ** Exceptions *)

Record exn : Type := Exn { name : string; message : string }.

(** Reading property [prop] of [undefined] (the message is V8's). *)
Definition cannot_read (prop : string) : exn :=
  Exn "TypeError" ("Cannot read properties of undefined (reading '" ++ prop ++ "')").

Inductive result (A : Type) : Type :=
  | Ok (a : A)
  | Throw (e : exn).
Arguments Ok {A} a.
Arguments Throw {A} e.

(** ** The data model *)

Record Interaction : Type := {
  userId : intnum;
  itemId : intnum;
  rating : number;
  timestamp : intnum
}.

(** [year] is [None] for [null]. *)
Record Item : Type := {
  title : string;
  year : option intnum;
  genres : list intnum
}.

Record User : Type := {
  age : number;
  gender : number;
  occupation : field
}.

(** [this.config]; the program never writes it. *)
Module config.
Definition maxInteractions : nat := N.to_nat 80000.
Definition embeddingDim : nat := 32.
Definition batchSize : nat := 512.
Definition epochs : nat := 15.
Definition learningRate : Q := 1 # 1000.
End config.

(** What [updateStatus] writes into the page; numbers that the program
    formats into the text are kept as they are. *)
Inductive Status : Type :=
  | ClickLoadData
  | LoadingData
  | Loaded (interactions items users : nat)
  | ErrorLoadingData (message : string)
  | InitializingModels
  | StartingTraining
  | BatchDone (epoch batch numBatches : nat) (deepLoss : number)
  | EpochDone (epoch : nat) (avgSimpleLoss avgDeepLoss : number)
  | TrainingCompleted
  | ComputingVisualization.

(** The page elements the program writes: the status line and the [disabled]
    flags of the train and test buttons. *)
Record Dom : Type := {
  status : Status;
  trainDisabled : bool;
  testDisabled : bool
}.

(** ** The application object

    [MovieLensApp] holds every store in one mutable object.  The two model
    classes are parameters here: the loader, the indexer and the feature
    encoder never look inside a model. *)
Section App.
Variables SimpleTwoTowerModel DeepTwoTowerModel : Type.

Record App : Type := {
  interactions : list Interaction;
  items : JsMap.t intnum Item;
  users : JsMap.t intnum User;
  occupationVocab : JsMap.t field nat;
  userMap : JsMap.t intnum nat;
  itemMap : JsMap.t intnum nat;
  reverseUserMap : JsMap.t nat intnum;
  reverseItemMap : JsMap.t nat intnum;
  userTopRated : JsMap.t intnum (list Interaction);
  qualifiedUsers : list intnum;
  simpleModel : option SimpleTwoTowerModel;
  deepModel : option DeepTwoTowerModel;
  lossHistory : list number;
  isTraining : bool;
  dom : Dom
}.

(** Assignments to one field of [this]. *)
Definition set_interactions (v : list Interaction) (this : App) : App :=
  Build_App
    v (items this) (users this) (occupationVocab this) (userMap this)
    (itemMap this) (reverseUserMap this) (reverseItemMap this)
    (userTopRated this) (qualifiedUsers this) (simpleModel this)
    (deepModel this) (lossHistory this) (isTraining this) (dom this).
Definition set_items (v : JsMap.t intnum Item) (this : App) : App :=
  Build_App
    (interactions this) v (users this) (occupationVocab this) (userMap this)
    (itemMap this) (reverseUserMap this) (reverseItemMap this)
    (userTopRated this) (qualifiedUsers this) (simpleModel this)
    (deepModel this) (lossHistory this) (isTraining this) (dom this).
Definition set_users (v : JsMap.t intnum User) (this : App) : App :=
  Build_App
    (interactions this) (items this) v (occupationVocab this) (userMap this)
    (itemMap this) (reverseUserMap this) (reverseItemMap this)
    (userTopRated this) (qualifiedUsers this) (simpleModel this)
    (deepModel this) (lossHistory this) (isTraining this) (dom this).
Definition set_occupationVocab (v : JsMap.t field nat) (this : App) : App :=
  Build_App
    (interactions this) (items this) (users this) v (userMap this)
    (itemMap this) (reverseUserMap this) (reverseItemMap this)
    (userTopRated this) (qualifiedUsers this) (simpleModel this)
    (deepModel this) (lossHistory this) (isTraining this) (dom this).
Definition set_userMap (v : JsMap.t intnum nat) (this : App) : App :=
  Build_App
    (interactions this) (items this) (users this) (occupationVocab this) v
    (itemMap this) (reverseUserMap this) (reverseItemMap this)
    (userTopRated this) (qualifiedUsers this) (simpleModel this)
    (deepModel this) (lossHistory this) (isTraining this) (dom this).
Definition set_itemMap (v : JsMap.t intnum nat) (this : App) : App :=
  Build_App
    (interactions this) (items this) (users this) (occupationVocab this)
    (userMap this) v (reverseUserMap this) (reverseItemMap this)
    (userTopRated this) (qualifiedUsers this) (simpleModel this)
    (deepModel this) (lossHistory this) (isTraining this) (dom this).
Definition set_reverseUserMap (v : JsMap.t nat intnum) (this : App) : App :=
  Build_App
    (interactions this) (items this) (users this) (occupationVocab this)
    (userMap this) (itemMap this) v (reverseItemMap this) (userTopRated this)
    (qualifiedUsers this) (simpleModel this) (deepModel this)
    (lossHistory this) (isTraining this) (dom this).
Definition set_reverseItemMap (v : JsMap.t nat intnum) (this : App) : App :=
  Build_App
    (interactions this) (items this) (users this) (occupationVocab this)
    (userMap this) (itemMap this) (reverseUserMap this) v (userTopRated this)
    (qualifiedUsers this) (simpleModel this) (deepModel this)
    (lossHistory this) (isTraining this) (dom this).
Definition set_userTopRated (v : JsMap.t intnum (list Interaction)) (this : App) : App :=
  Build_App
    (interactions this) (items this) (users this) (occupationVocab this)
    (userMap this) (itemMap this) (reverseUserMap this) (reverseItemMap this)
    v (qualifiedUsers this) (simpleModel this) (deepModel this)
    (lossHistory this) (isTraining this) (dom this).
Definition set_qualifiedUsers (v : list intnum) (this : App) : App :=
  Build_App
    (interactions this) (items this) (users this) (occupationVocab this)
    (userMap this) (itemMap this) (reverseUserMap this) (reverseItemMap this)
    (userTopRated this) v (simpleModel this) (deepModel this)
    (lossHistory this) (isTraining this) (dom this).
Definition set_simpleModel (v : option SimpleTwoTowerModel) (this : App) : App :=
  Build_App
    (interactions this) (items this) (users this) (occupationVocab this)
    (userMap this) (itemMap this) (reverseUserMap this) (reverseItemMap this)
    (userTopRated this) (qualifiedUsers this) v (deepModel this)
    (lossHistory this) (isTraining this) (dom this).
Definition set_deepModel (v : option DeepTwoTowerModel) (this : App) : App :=
  Build_App
    (interactions this) (items this) (users this) (occupationVocab this)
    (userMap this) (itemMap this) (reverseUserMap this) (reverseItemMap this)
    (userTopRated this) (qualifiedUsers this) (simpleModel this) v
    (lossHistory this) (isTraining this) (dom this).
Definition set_lossHistory (v : list number) (this : App) : App :=
  Build_App
    (interactions this) (items this) (users this) (occupationVocab this)
    (userMap this) (itemMap this) (reverseUserMap this) (reverseItemMap this)
    (userTopRated this) (qualifiedUsers this) (simpleModel this)
    (deepModel this) v (isTraining this) (dom this).
Definition set_isTraining (v : bool) (this : App) : App :=
  Build_App
    (interactions this) (items this) (users this) (occupationVocab this)
    (userMap this) (itemMap this) (reverseUserMap this) (reverseItemMap this)
    (userTopRated this) (qualifiedUsers this) (simpleModel this)
    (deepModel this) (lossHistory this) v (dom this).
Definition set_dom (v : Dom) (this : App) : App :=
  Build_App
    (interactions this) (items this) (users this) (occupationVocab this)
    (userMap this) (itemMap this) (reverseUserMap this) (reverseItemMap this)
    (userTopRated this) (qualifiedUsers this) (simpleModel this)
    (deepModel this) (lossHistory this) (isTraining this) v.

(** *** Methods run on [this]

    A method is a function of the object's state that returns a value or
    throws, together with the state it leaves; what was assigned before a
    throw stays assigned.  [loadData] and [getRecommendations] are [async]
    and are embedded this way too, from the state at the call to the state
    when the promise settles: the first awaits before it writes a store, the
    second only reads.  [train] is embedded as a process, further down. *)
Definition M (A : Type) : Type := App -> result A * App.

Definition ret {A : Type} (a : A) : M A := fun this => (Ok a, this).

Definition bind {A B : Type} (c : M A) (k : A -> M B) : M B :=
  fun this =>
    match c this with
    | (Ok a, this') => k a this'
    | (Throw e, this') => (Throw e, this')
    end.

Definition throw {A : Type} (e : exn) : M A := fun this => (Throw e, this).

(** [try { c } catch (error) { h error }] *)
Definition try_catch {A : Type} (c : M A) (h : exn -> M A) : M A :=
  fun this =>
    match c this with
    | (Ok a, this') => (Ok a, this')
    | (Throw e, this') => h e this'
    end.

Definition read {A : Type} (f : App -> A) : M A := fun this => (Ok (f this), this).
Definition assign (f : App -> App) : M unit := fun this => (Ok tt, f this).
Definition lift {A : Type} (f : App -> result A) : M A := fun this => (f this, this).

Notation "'let*' x := c 'in' k" := (bind c (fun x => k))
  (at level 10, x name, c at level 100, k at level 200, only parsing).
Notation "'let*' ' p := c 'in' k" := (bind c (fun x => match x with p => k end))
  (at level 10, p pattern, c at level 100, k at level 200, only parsing).

(** [array.forEach(f)] for an [f] that acts on [this]. *)
Fixpoint forEach {A : Type} (f : A -> M unit) (l : list A) : M unit :=
  match l with
  | [] => ret tt
  | x :: l' => let* _ := f x in forEach f l'
  end.

(** The same when [f] also updates a local variable of the caller. *)
Fixpoint forEach_with {A B : Type} (f : B -> A -> M B) (b : B) (l : list A) : M B :=
  match l with
  | [] => ret b
  | x :: l' => let* b' := f b x in forEach_with f b' l'
  end.

(** [array.map(f)] for an [f] that may throw. *)
Fixpoint map_result {A B : Type} (f : A -> result B) (l : list A) : result (list B) :=
  match l with
  | [] => Ok []
  | x :: l' =>
      match f x with
      | Throw e => Throw e
      | Ok y =>
          match map_result f l' with
          | Throw e => Throw e
          | Ok ys => Ok (y :: ys)
          end
      end
  end.

(** *** Methods that suspend

    [train] awaits inside its loops, and between a suspension and the
    resumption other handlers of the page may run on the same object.  Such a
    method is a process: from the state at the call it either settles, with
    a result and a state, or suspends in a state and is resumed later from
    whatever state the object is then in. *)
Inductive Run (A : Type) : Type :=
  | Settled (r : result A) (this : App)
  | Suspended (this : App) (resume : App -> Run A).
Arguments Settled {A} r this.
Arguments Suspended {A} this resume.

Definition Async (A : Type) : Type := App -> Run A.

Fixpoint and_then {A B : Type} (p : Run A) (k : A -> Async B) : Run B :=
  match p with
  | Settled (Ok a) this => k a this
  | Settled (Throw e) this => Settled (Throw e) this
  | Suspended this resume => Suspended this (fun this' => and_then (resume this') k)
  end.

Definition async_bind {A B : Type} (c : Async A) (k : A -> Async B) : Async B :=
  fun this => and_then (c this) k.

(** Statements that run without suspending. *)
Definition sync {A : Type} (c : M A) : Async A :=
  fun this => let '(r, this') := c this in Settled r this'.

(** [await c]: what [c] does before its promise is returned has happened
    when the caller suspends; its value arrives at the resumption. *)
Definition await {A : Type} (c : M A) : Async A :=
  fun this => let '(r, this') := c this in Suspended this' (fun this'' => Settled r this'').

(** A [for] loop whose body may suspend and updates local variables. *)
Fixpoint async_for {A B : Type} (f : B -> A -> Async B) (b : B) (l : list A) : Async B :=
  match l with
  | [] => sync (ret b)
  | x :: l' => async_bind (f b x) (fun b' => async_for f b' l')
  end.

(** The run when nothing else touches the object while the method is
    suspended. *)
Fixpoint undisturbed {A : Type} (p : Run A) : result A * App :=
  match p with
  | Settled r this => (r, this)
  | Suspended this resume => undisturbed (resume this)
  end.

(** The elements of an array with their indices, as the callback of
    [forEach((x, index) => ...)] receives them. *)
Definition indexed {A : Type} (l : list A) : list (nat * A) := zip (seq 0 (length l)) l.

Definition updateStatus (message : Status) : M unit :=
  assign (fun this =>
    set_dom {| status := message;
               trainDisabled := trainDisabled (dom this);
               testDisabled := testDisabled (dom this) |} this).

Definition set_trainDisabled (v : bool) : M unit :=
  assign (fun this =>
    set_dom {| status := status (dom this);
               trainDisabled := v;
               testDisabled := testDisabled (dom this) |} this).

Definition set_testDisabled (v : bool) : M unit :=
  assign (fun this =>
    set_dom {| status := status (dom this);
               trainDisabled := trainDisabled (dom this);
               testDisabled := v |} this).

(** The object the constructor leaves, on a page whose two buttons have the
    given [disabled] flags. *)
Definition new_MovieLensApp (trainOff testOff : bool) : App :=
  {| interactions := [];
     items := JsMap.empty;
     users := JsMap.empty;
     occupationVocab := JsMap.empty;
     userMap := JsMap.empty;
     itemMap := JsMap.empty;
     reverseUserMap := JsMap.empty;
     reverseItemMap := JsMap.empty;
     userTopRated := JsMap.empty;
     qualifiedUsers := [];
     simpleModel := None;
     deepModel := None;
     lossHistory := [];
     isTraining := false;
     dom := {| status := ClickLoadData; trainDisabled := trainOff; testDisabled := testOff |} |}.

(** *** createMappings *)

(** [Array.from(ids).forEach((id, index) => { forward.set(id, index);
    backward.set(index, id); })] *)
Definition assign_indices (ids : list intnum)
    (maps : JsMap.t intnum nat * JsMap.t nat intnum) : JsMap.t intnum nat * JsMap.t nat intnum :=
  foldl (fun '(forward, backward) '(index, id) =>
           (JsMap.set id index forward, JsMap.set index id backward))
        maps (indexed ids).

(** One step of the grouping loop: the user's array is created when the
    user is first seen, and the interaction is pushed on it. *)
Definition push_interaction (userInteractions : JsMap.t intnum (list Interaction))
    (interaction : Interaction) : JsMap.t intnum (list Interaction) :=
  let userId := userId interaction in
  let userInteractions :=
    if JsMap.has userId userInteractions then userInteractions
    else JsMap.set userId [] userInteractions in
  match JsMap.get userId userInteractions with
  | Some array => JsMap.set userId (array ++ [interaction]) userInteractions
  | None => userInteractions
  end.

(** [(a, b) => b.rating - a.rating || b.timestamp - a.timestamp] *)
Definition compare_history (a b : Interaction) : number :=
  number_or (number_sub (rating b) (rating a))
            (number_sub (of_int (timestamp b)) (of_int (timestamp a))).

Definition createMappings (this : App) : App :=
  let userSet := JsSet.from (map userId (interactions this)) in
  let itemSet := JsSet.from (map itemId (interactions this)) in
  let '(userMap', reverseUserMap') :=
    assign_indices userSet (userMap this, reverseUserMap this) in
  let '(itemMap', reverseItemMap') :=
    assign_indices itemSet (itemMap this, reverseItemMap this) in
  let userInteractions := foldl push_interaction JsMap.empty (interactions this) in
  let userInteractions :=
    map (fun '(userId, interactions) => (userId, sort_by compare_history interactions))
        userInteractions in
  set_userTopRated userInteractions
    (set_reverseItemMap reverseItemMap'
      (set_itemMap itemMap'
        (set_reverseUserMap reverseUserMap'
          (set_userMap userMap' this)))).

(** *** findQualifiedUsers *)

Definition findQualifiedUsers (this : App) : App :=
  set_qualifiedUsers
    (foldl (fun qualified '(userId, interactions) =>
              if bool_decide (20 <= length interactions) then qualified ++ [userId]
              else qualified)
           [] (userTopRated this))
    this.

(** *** getUserFeatures *)

Definition getUserFeatures (this : App) (userId : intnum) : result (list (option number)) :=
  match JsMap.get userId (users this) with
  | None => Throw (cannot_read "occupation")
  | Some user =>
      let occupationIndex := JsMap.get (occupation user) (occupationVocab this) in
      let occupationOneHot := replicate (JsMap.size (occupationVocab this)) (Some (Fin 0)) in
      let occupationOneHot :=
        match occupationIndex with
        | Some index => array_set occupationOneHot index (Fin 1)
        | None => occupationOneHot
        end in
      Ok (Some (age user) :: Some (gender user) :: occupationOneHot)
  end.

(** *** loadData *)

(** What the three fetches and the three body reads come to: a rejection, or
    the three texts. *)
Inductive Fetched : Type :=
  | Rejected (error : exn)
  | Texts (interactionsText itemsText usersText : string).

Definition parseInteraction (line : string) : Interaction :=
  let fields := split TAB line in
  {| userId := parseInt (fields !! 0%nat);
     itemId := parseInt (fields !! 1%nat);
     rating := parseFloat (fields !! 2%nat);
     timestamp := parseInt (fields !! 3%nat) |}.

Definition parseInteractions (interactionsText : string) : list Interaction :=
  map parseInteraction (take config.maxInteractions (split LF (trim interactionsText))).

Definition is_digit (c : ascii) : bool := ((48 <=? code c) && (code c <=? 57))%N.

(** [title.match(/\((\d{4})\)$/)]: the four digits when the title ends in
    a parenthesised group of exactly four digits. *)
Definition match_year (title : string) : option string :=
  match rev (chars title) with
  | close :: d4 :: d3 :: d2 :: d1 :: open :: _ =>
      if Ascii.eqb open "(" && forallb is_digit [d1; d2; d3; d4] && Ascii.eqb close ")"
      then Some (of_chars [d1; d2; d3; d4])
      else None
  | _ => None
  end.

(** [title.replace(/\(\d{4}\)$/, '')] *)
Definition remove_year (title : string) : string :=
  match match_year title with
  | Some _ => of_chars (take (length (chars title) - 6) (chars title))
  | None => title
  end.

Definition parseItemLine (line : string) : M unit :=
  let parts := split BAR line in
  let itemId := parseInt (parts !! 0%nat) in
  match parts !! 1%nat with
  | None => throw (cannot_read "match")
  | Some title =>
      let year :=
        match match_year title with
        | Some digits => Some (parseInt (Some digits))
        | None => None
        end in
      let itemGenres := map (fun g => parseInt (Some g)) (drop 5 parts) in
      assign (fun this =>
        set_items (JsMap.set itemId
                     {| title := trim (remove_year title); year := year; genres := itemGenres |}
                     (items this)) this)
  end.

Definition parseUserLine (occupations : JsSet.t field) (line : string) : M (JsSet.t field) :=
  let fields := split BAR line in
  let gender := fields !! 2%nat in
  let occupation := fields !! 3%nat in
  let* _ := assign (fun this =>
    set_users (JsMap.set (parseInt (fields !! 0%nat))
                 {| age := number_div (of_int (parseInt (fields !! 1%nat))) (Fin 100);
                    gender := if decide (gender = Some "M") then Fin 1 else Fin 0;
                    occupation := occupation |}
                 (users this)) this) in
  ret (JsSet.add occupation occupations).

Definition add_occupations (sorted : list field) (vocab : JsMap.t field nat) : JsMap.t field nat :=
  foldl (fun vocab '(i, occ) => JsMap.set occ i vocab) vocab (indexed sorted).

(** The body of the [try] block. *)
Definition loadData_try (fetched : Fetched) : M unit :=
  let* '(interactionsText, itemsText, usersText) :=
    match fetched with
    | Rejected error => throw error
    | Texts a b c => ret (a, b, c)
    end in
  let* _ := assign (set_interactions (parseInteractions interactionsText)) in
  let* _ := forEach parseItemLine (split LF (trim itemsText)) in
  let* occupations := forEach_with parseUserLine [] (split LF (trim usersText)) in
  let* _ := assign (fun this =>
    set_occupationVocab
      (add_occupations (sort_by default_compare occupations) (occupationVocab this)) this) in
  let* _ := assign createMappings in
  let* _ := assign findQualifiedUsers in
  let* n := read (fun this => length (interactions this)) in
  let* i := read (fun this => JsMap.size (items this)) in
  let* u := read (fun this => JsMap.size (users this)) in
  let* _ := updateStatus (Loaded n i u) in
  set_trainDisabled false.

Definition loadData (fetched : Fetched) : M unit :=
  let* _ := updateStatus LoadingData in
  try_catch (loadData_try fetched)
    (fun error => updateStatus (ErrorLoadingData (message error))).

End App.

Arguments M : clear implicits.
Arguments ret {_ _ A} a.
Arguments bind {_ _ A B} c k.
Arguments throw {_ _ A} e.
Arguments try_catch {_ _ A} c h.
Arguments read {_ _ A} f.
Arguments assign {_ _} f.
Arguments lift {_ _ A} f.
Arguments forEach {_ _ A} f l.
Arguments forEach_with {_ _ A B} f b l.
Arguments updateStatus {_ _} message.
Arguments set_trainDisabled {_ _} v.
Arguments set_testDisabled {_ _} v.
Arguments interactions {_ _} this : rename.
Arguments items {_ _} this : rename.
Arguments users {_ _} this : rename.
Arguments occupationVocab {_ _} this : rename.
Arguments userMap {_ _} this : rename.
Arguments itemMap {_ _} this : rename.
Arguments reverseUserMap {_ _} this : rename.
Arguments reverseItemMap {_ _} this : rename.
Arguments userTopRated {_ _} this : rename.
Arguments qualifiedUsers {_ _} this : rename.
Arguments simpleModel {_ _} this : rename.
Arguments deepModel {_ _} this : rename.
Arguments lossHistory {_ _} this : rename.
Arguments isTraining {_ _} this : rename.
Arguments dom {_ _} this : rename.
Arguments set_interactions {_ _} v this.
Arguments set_items {_ _} v this.
Arguments set_users {_ _} v this.
Arguments set_occupationVocab {_ _} v this.
Arguments set_userMap {_ _} v this.
Arguments set_itemMap {_ _} v this.
Arguments set_reverseUserMap {_ _} v this.
Arguments set_reverseItemMap {_ _} v this.
Arguments set_userTopRated {_ _} v this.
Arguments set_qualifiedUsers {_ _} v this.
Arguments set_simpleModel {_ _} v this.
Arguments set_deepModel {_ _} v this.
Arguments set_lossHistory {_ _} v this.
Arguments set_isTraining {_ _} v this.
Arguments set_dom {_ _} v this.
Arguments createMappings {_ _} this.
Arguments findQualifiedUsers {_ _} this.
Arguments getUserFeatures {_ _} this userId.
Arguments parseItemLine {_ _} line.
Arguments parseUserLine {_ _} occupations line.
Arguments loadData_try {_ _} fetched.
Arguments loadData {_ _} fetched.

Arguments Run : clear implicits.
Arguments Settled {_ _ A} r this.
Arguments Suspended {_ _ A} this resume.
Arguments Async : clear implicits.
Arguments and_then {_ _ A B} p k.
Arguments async_bind {_ _ A B} c k.
Arguments sync {_ _ A} c.
Arguments await {_ _ A} c.
Arguments async_for {_ _ A B} f b l.
Arguments undisturbed {_ _ A} p.

Declare Scope method_scope.
Delimit Scope method_scope with method.
Notation "'let*' x := c 'in' k" := (bind c (fun x => k))
  (at level 10, x name, c at level 100, k at level 200, only parsing) : method_scope.
Notation "'let*' ' p := c 'in' k" := (bind c (fun x => match x with p => k end))
  (at level 10, p pattern, c at level 100, k at level 200, only parsing) : method_scope.

Declare Scope async_scope.
Delimit Scope async_scope with async.
Notation "'let*' x := c 'in' k" := (async_bind c (fun x => k))
  (at level 10, x name, c at level 100, k at level 200, only parsing) : async_scope.
Notation "'let*' ' p := c 'in' k" := (async_bind c (fun x => match x with p => k end))
  (at level 10, p pattern, c at level 100, k at level 200, only parsing) : async_scope.

(** ** The tensor library

    The program computes on tensors through TensorFlow.js.  Its operations
    are an interface here: float32 arithmetic, the random initial values,
    the gradients and the Adam update are whatever an implementation of the
    interface makes them.  The lifetime of tensors ([tidy], [dispose]) is not
    represented. *)
Class Tf : Type := {
  Tensor : Type;
  Dense : Type;
  Optimizer : Type;
  (** [tf.variable(tf.randomNormal(shape, mean, stdDev), true, name)] *)
  tf_variable_randomNormal : list nat -> Q -> Q -> string -> Tensor;
  tf_gather : Tensor -> list (option nat) -> Tensor;
  tf_tensor2d : list (list (option number)) -> Tensor;
  tf_concat : list Tensor -> Z -> Tensor;
  (** [tf.layers.dense({units, activation, inputShape})]; the activation is
      ReLU or none. *)
  tf_layers_dense : nat -> bool -> option nat -> Dense;
  tf_apply : Dense -> Tensor -> Tensor;
  tf_getWeights : Dense -> list Tensor;
  tf_setWeights : Dense -> list Tensor -> Dense;
  tf_l2Normalize : Tensor -> Z -> Tensor;
  tf_matMul : Tensor -> Tensor -> bool -> bool -> Tensor;
  (** [tf.oneHot(tf.range(0, n, 1, 'int32'), n)] *)
  tf_oneHot_range : nat -> Tensor;
  tf_softmaxCrossEntropy : Tensor -> Tensor -> Tensor;
  tf_squeeze : Tensor -> Tensor;
  tf_expandDims : Tensor -> nat -> Tensor;
  tf_data : Tensor -> list number;
  tf_train_adam : Q -> Optimizer;
  tf_set_learningRate : Q -> Optimizer -> Optimizer;
  (** [optimizer.computeGradients(loss, vars)] on the current values of the
      variables: the loss value and the gradients. *)
  tf_computeGradients : Optimizer -> (list Tensor -> Tensor) -> list Tensor -> Tensor * list Tensor;
  (** [optimizer.applyGradients(grads)]: the optimizer's new state and the new
      values of the variables. *)
  tf_applyGradients : Optimizer -> list Tensor -> list Tensor -> Optimizer * list Tensor
}.

(** [array[0]] of what [data()] gave, as a number in arithmetic:
    [undefined] becomes [NaN]. *)
Definition first_number (l : list number) : number := default NaN (head l).

(** ** SimpleTwoTowerModel *)
Module Simple.
Section WithTf.
Context `{Tf}.

Record t : Type := {
  numUsers : nat;
  numItems : nat;
  embeddingDim : nat;
  userEmbeddings : Tensor;
  itemEmbeddings : Tensor;
  optimizer : Optimizer
}.

Definition new (numUsers numItems embeddingDim : nat) : t :=
  {| numUsers := numUsers;
     numItems := numItems;
     embeddingDim := embeddingDim;
     userEmbeddings :=
       tf_variable_randomNormal [numUsers; embeddingDim] 0 (5 # 100) "user_embeddings_simple";
     itemEmbeddings :=
       tf_variable_randomNormal [numItems; embeddingDim] 0 (5 # 100) "item_embeddings_simple";
     optimizer := tf_train_adam (1 # 1000) |}.

Definition set_learningRate (lr : Q) (m : t) : t :=
  {| numUsers := numUsers m; numItems := numItems m; embeddingDim := embeddingDim m;
     userEmbeddings := userEmbeddings m; itemEmbeddings := itemEmbeddings m;
     optimizer := tf_set_learningRate lr (optimizer m) |}.

Definition variables (m : t) : list Tensor := [userEmbeddings m; itemEmbeddings m].

(** The model with its variables holding the given values. *)
Definition with_variables (m : t) (vars : list Tensor) (opt : Optimizer) : t :=
  {| numUsers := numUsers m; numItems := numItems m; embeddingDim := embeddingDim m;
     userEmbeddings := default (userEmbeddings m) (vars !! 0%nat);
     itemEmbeddings := default (itemEmbeddings m) (vars !! 1%nat);
     optimizer := opt |}.

Definition userForward (m : t) (userIndices : list (option nat)) : Tensor :=
  tf_gather (userEmbeddings m) userIndices.

Definition itemForward (m : t) (itemIndices : list (option nat)) : Tensor :=
  tf_gather (itemEmbeddings m) itemIndices.

Definition trainStep (m : t) (userIndices itemIndices : list (option nat)) : number * t :=
  let loss := fun vars =>
    let m := with_variables m vars (optimizer m) in
    let userEmbs := userForward m userIndices in
    let itemEmbs := itemForward m itemIndices in
    let logits := tf_matMul userEmbs itemEmbs false true in
    let labels := tf_oneHot_range (length userIndices) in
    tf_softmaxCrossEntropy labels logits in
  let '(value, grads) := tf_computeGradients (optimizer m) loss (variables m) in
  let '(opt, vars) := tf_applyGradients (optimizer m) grads (variables m) in
  (first_number (tf_data value), with_variables m vars opt).

End WithTf.
End Simple.

(** ** DeepTwoTowerModel *)
Module Deep.
Section WithTf.
Context `{Tf}.

Record t : Type := {
  userEmbeddings : Tensor;
  itemEmbeddings : Tensor;
  userDense1 : Dense;
  userDense2 : Dense;
  itemDense1 : Dense;
  itemDense2 : Dense;
  (** How many weights of each layer [trainableVars] took when the model was
      built, in the order user 1, user 2, item 1, item 2. *)
  trainableWeights : list nat;
  optimizer : Optimizer
}.

Definition new (numUsers numItems embeddingDim userFeatureDim itemFeatureDim : nat)
    (hiddenLayers : list nat) : t :=
  let userDense1 := tf_layers_dense (default 0%nat (hiddenLayers !! 0%nat)) true
                      (Some (embeddingDim + userFeatureDim)%nat) in
  let userDense2 := tf_layers_dense (default 0%nat (hiddenLayers !! 1%nat)) false None in
  let itemDense1 := tf_layers_dense (default 0%nat (hiddenLayers !! 0%nat)) true
                      (Some (embeddingDim + itemFeatureDim)%nat) in
  let itemDense2 := tf_layers_dense (default 0%nat (hiddenLayers !! 1%nat)) false None in
  {| userEmbeddings :=
       tf_variable_randomNormal [numUsers; embeddingDim] 0 (5 # 100) "user_embeddings_deep";
     itemEmbeddings :=
       tf_variable_randomNormal [numItems; embeddingDim] 0 (5 # 100) "item_embeddings_deep";
     userDense1 := userDense1;
     userDense2 := userDense2;
     itemDense1 := itemDense1;
     itemDense2 := itemDense2;
     trainableWeights :=
       map (fun d => length (tf_getWeights d)) [userDense1; userDense2; itemDense1; itemDense2];
     optimizer := tf_train_adam (1 # 1000) |}.

Definition set_learningRate (lr : Q) (m : t) : t :=
  {| userEmbeddings := userEmbeddings m; itemEmbeddings := itemEmbeddings m;
     userDense1 := userDense1 m; userDense2 := userDense2 m;
     itemDense1 := itemDense1 m; itemDense2 := itemDense2 m;
     trainableWeights := trainableWeights m;
     optimizer := tf_set_learningRate lr (optimizer m) |}.

(** The first [n] weights of a layer. *)
Definition taken (n : nat) (d : Dense) : list Tensor := take n (tf_getWeights d).

(** [this.trainableVars], with the current values. *)
Definition trainableVars (m : t) : list Tensor :=
  let n i := default 0%nat (trainableWeights m !! i) in
  [userEmbeddings m; itemEmbeddings m]
  ++ taken (n 0%nat) (userDense1 m) ++ taken (n 1%nat) (userDense2 m)
  ++ taken (n 2%nat) (itemDense1 m) ++ taken (n 3%nat) (itemDense2 m).

(** A layer whose first [length ws] weights hold the values [ws]. *)
Definition put (d : Dense) (ws : list Tensor) : Dense :=
  tf_setWeights d (ws ++ drop (length ws) (tf_getWeights d)).

(** The model with its trainable variables holding the given values. *)
Definition with_variables (m : t) (vars : list Tensor) (opt : Optimizer) : t :=
  let n i := default 0%nat (trainableWeights m !! i) in
  let rest := drop 2 vars in
  {| userEmbeddings := default (userEmbeddings m) (vars !! 0%nat);
     itemEmbeddings := default (itemEmbeddings m) (vars !! 1%nat);
     userDense1 := put (userDense1 m) (take (n 0%nat) rest);
     userDense2 := put (userDense2 m) (take (n 1%nat) (drop (n 0%nat) rest));
     itemDense1 := put (itemDense1 m) (take (n 2%nat) (drop (n 0 + n 1)%nat rest));
     itemDense2 := put (itemDense2 m) (take (n 3%nat) (drop (n 0 + n 1 + n 2)%nat rest));
     trainableWeights := trainableWeights m;
     optimizer := opt |}.

Definition userForward (m : t) (userIdices : list (option nat))
    (userFeatures : list (list (option number))) : Tensor :=
  let idEmbs := tf_gather (userEmbeddings m) userIdices in
  let featureTensor := tf_tensor2d userFeatures in
  let combined := tf_concat [idEmbs; featureTensor] 1 in
  let output := tf_apply (userDense1 m) combined in
  let output := tf_apply (userDense2 m) output in
  tf_l2Normalize output (-1).

Definition itemForward (m : t) (itemIndices : list (option nat))
    (itemFeatures : list (list (option number))) : Tensor :=
  let idEmbs := tf_gather (itemEmbeddings m) itemIndices in
  let featureTensor := tf_tensor2d itemFeatures in
  let combined := tf_concat [idEmbs; featureTensor] 1 in
  let output := tf_apply (itemDense1 m) combined in
  let output := tf_apply (itemDense2 m) output in
  tf_l2Normalize output (-1).

Definition trainStep (m : t) (userIdices : list (option nat))
    (userFeatures : list (list (option number))) (itemIndices : list (option nat))
    (itemFeatures : list (list (option number))) : number * t :=
  let loss := fun vars =>
    let m := with_variables m vars (optimizer m) in
    let userReps := userForward m userIdices userFeatures in
    let itemReps := itemForward m itemIndices itemFeatures in
    let logits := tf_matMul userReps itemReps false true in
    let labels := tf_oneHot_range (length userIdices) in
    tf_softmaxCrossEntropy labels logits in
  let '(value, grads) := tf_computeGradients (optimizer m) loss (trainableVars m) in
  let '(opt, vars) := tf_applyGradients (optimizer m) grads (trainableVars m) in
  (first_number (tf_data value), with_variables m vars opt).

Definition getItemEmbeddings (m : t) (itemIndices : list (option nat))
    (itemFeatures : list (list (option number))) : Tensor :=
  itemForward m itemIndices itemFeatures.

End WithTf.
End Deep.

(** ** Training and ranking *)

(** An entry of a recommendation list. *)
Module Candidate.
Record t : Type := { itemId : option intnum; score : number }.
End Candidate.

Section Training.
Context `{Tf}.
Local Open Scope method_scope.

Local Abbreviation App := (App Simple.t Deep.t).
Local Abbreviation M := (M Simple.t Deep.t).
Local Abbreviation Async := (Async Simple.t Deep.t).

(** A model as [getRecommendations] receives it; the constructor tells what
    [model instanceof DeepTwoTowerModel] answers. *)
Inductive Model : Type :=
  | SimpleModel (m : Simple.t)
  | DeepModel (m : Deep.t).

(** [array.slice(start, end)] *)
Definition slice {A : Type} (start stop : nat) (l : list A) : list A :=
  take (stop - start) (drop start l).

Definition of_nat (n : nat) : number := Fin (inject_Z (Z.of_nat n)).

(** [this.getUserFeatures(uid)] where [uid] may be [undefined]. *)
Definition getUserFeatures_opt (this : App) (uid : option intnum) : result (list (option number)) :=
  match uid with
  | Some userId => getUserFeatures this userId
  | None => Throw (cannot_read "occupation")
  end.

(** [this.items.get(iid).genres] where [iid] may be [undefined]. *)
Definition item_genres (this : App) (iid : option intnum) : result (list (option number)) :=
  match JsMap.get_opt iid (items this) with
  | Some item => Ok (map (fun g => Some (of_int g)) (genres item))
  | None => Throw (cannot_read "genres")
  end.

(** [await this.simpleModel.trainStep(...)] up to the suspension: the step
    has updated the model. *)
Definition simple_step (batchUsers batchItems : list (option nat)) : M number :=
  let* simple := read simpleModel in
  match simple with
  | None => throw (cannot_read "trainStep")
  | Some m =>
      let '(loss, m') := Simple.trainStep m batchUsers batchItems in
      let* _ := assign (set_simpleModel (Some m')) in
      ret loss
  end.

(** [await this.deepModel.trainStep(...)] up to the suspension. *)
Definition deep_step (batchUsers : list (option nat)) (userFeatures : list (list (option number)))
    (batchItems : list (option nat)) (itemFeatures : list (list (option number))) : M number :=
  let* deep := read deepModel in
  match deep with
  | None => throw (cannot_read "trainStep")
  | Some m =>
      let '(loss, m') := Deep.trainStep m batchUsers userFeatures batchItems itemFeatures in
      let* _ := assign (set_deepModel (Some m')) in
      ret loss
  end.

(** One pass of the inner loop of [train]; the two running sums are the
    loop's local variables.  It suspends three times: at each of the two
    training steps and at [tf.nextFrame()]. *)
Definition train_batch (userIndices itemIndices : list (option nat)) (numBatches epoch : nat)
    (sums : number * number) (batch : nat) : Async (number * number) :=
  (let '(epochLossSimple, epochLossDeep) := sums in
   let start := (batch * config.batchSize)%nat in
   let stop := Nat.min (start + config.batchSize) (length userIndices) in
   let batchUsersSimple := slice start stop userIndices in
   let batchItemsSimple := slice start stop itemIndices in
   let* lossSimple := await (simple_step batchUsersSimple batchItemsSimple) in
   let epochLossSimple := number_add epochLossSimple lossSimple in
   let* batchUserIds := sync (read (fun this =>
     map (fun u_idx => JsMap.get_opt u_idx (reverseUserMap this)) batchUsersSimple)) in
   let* batchItemIds := sync (read (fun this =>
     map (fun i_idx => JsMap.get_opt i_idx (reverseItemMap this)) batchItemsSimple)) in
   let* userFeatures :=
     sync (lift (fun this => map_result (getUserFeatures_opt this) batchUserIds)) in
   let* itemFeatures :=
     sync (lift (fun this => map_result (item_genres this) batchItemIds)) in
   let* lossDeep :=
     await (deep_step batchUsersSimple userFeatures batchItemsSimple itemFeatures) in
   let epochLossDeep := number_add epochLossDeep lossDeep in
   let* _ := sync (assign (fun this => set_lossHistory (lossHistory this ++ [lossDeep]) this)) in
   let* _ :=
     sync (if (batch mod 10 =? 0)%nat
           then updateStatus (BatchDone (epoch + 1) batch numBatches lossDeep)
           else ret tt) in
   let* _ := await (ret tt) in
   sync (ret (epochLossSimple, epochLossDeep)))%async.

Definition train_epoch (userIndices itemIndices : list (option nat)) (numBatches : nat)
    (_ : unit) (epoch : nat) : Async unit :=
  (let* '(epochLossSimple, epochLossDeep) :=
     async_for (train_batch userIndices itemIndices numBatches epoch)
       (Fin 0, Fin 0) (seq 0 numBatches) in
   sync (updateStatus (EpochDone (epoch + 1)
                         (number_div epochLossSimple (of_nat numBatches))
                         (number_div epochLossDeep (of_nat numBatches)))))%async.

(** What [visualizeEmbeddings] does before it first suspends; [train] does
    not await it, and the drawing that follows is left to the page. *)
Definition visualizeEmbeddings : M unit :=
  let* deep := read deepModel in
  match deep with
  | None => ret tt
  | Some _ => updateStatus ComputingVisualization
  end.

(** The statements of [train] between the guard and the loops. *)
Definition train_setup : M (list (option nat) * list (option nat)) :=
  let* _ := assign (set_isTraining true) in
  let* _ := set_trainDisabled true in
  let* _ := assign (set_lossHistory []) in
  let* _ := updateStatus InitializingModels in
  let* _ := assign (fun this =>
    set_simpleModel
      (Some (Simple.set_learningRate config.learningRate
               (Simple.new (JsMap.size (userMap this)) (JsMap.size (itemMap this))
                  config.embeddingDim))) this) in
  let* first := read (fun this => interactions this !! 0%nat) in
  let* userFeatureDim :=
    match first with
    | None => throw (cannot_read "userId")
    | Some i =>
        let* features := lift (fun this => getUserFeatures this (userId i)) in
        ret (length features)
    end in
  let* itemFeatureDim :=
    match first with
    | None => throw (cannot_read "itemId")
    | Some i =>
        let* item := read (fun this => JsMap.get (itemId i) (items this)) in
        match item with
        | None => throw (cannot_read "genres")
        | Some item => ret (length (genres item))
        end
    end in
  let* _ := assign (fun this =>
    set_deepModel
      (Some (Deep.set_learningRate config.learningRate
               (Deep.new (JsMap.size (userMap this)) (JsMap.size (itemMap this))
                  config.embeddingDim userFeatureDim itemFeatureDim
                  [64%nat; config.embeddingDim]))) this) in
  let* userIndices :=
    read (fun this => map (fun i => JsMap.get (userId i) (userMap this)) (interactions this)) in
  let* itemIndices :=
    read (fun this => map (fun i => JsMap.get (itemId i) (itemMap this)) (interactions this)) in
  let* _ := updateStatus StartingTraining in
  ret (userIndices, itemIndices).

(** The statements of [train] after the loops. *)
Definition train_finish : M unit :=
  let* _ := assign (set_isTraining false) in
  let* _ := set_trainDisabled false in
  let* _ := set_testDisabled false in
  let* _ := updateStatus TrainingCompleted in
  visualizeEmbeddings.

Definition train : Async unit :=
  (let* training := sync (read isTraining) in
   if training then sync (ret tt)
   else
     let* '(userIndices, itemIndices) := sync train_setup in
     let numBatches :=
       ((length userIndices + (config.batchSize - 1)) / config.batchSize)%nat in
     let* _ := async_for (train_epoch userIndices itemIndices numBatches) tt
                 (seq 0 config.epochs) in
     sync train_finish)%async.

(** *** getRecommendations *)

(** The first half: the scores of all indexed items for the user, read back
    from the tensor. *)
Definition score_items (model : Model) (userId : intnum) (userIndex : option nat)
    : M (list number) :=
  let* userEmb :=
    match model with
    | DeepModel m =>
        let* userFeatures := lift (fun this => getUserFeatures this userId) in
        ret (Deep.userForward m [userIndex] [userFeatures])
    | SimpleModel m => ret (Simple.userForward m [userIndex])
    end in
  let* allItemIndices := read (fun this => JsMap.values (itemMap this)) in
  let* allItemIds :=
    read (fun this => map (fun i => JsMap.get i (reverseItemMap this)) allItemIndices) in
  let* allItemEmbeddings :=
    match model with
    | DeepModel m =>
        let* allItemFeatures := lift (fun this => map_result (item_genres this) allItemIds) in
        ret (Deep.itemForward m (map Some allItemIndices) allItemFeatures)
    | SimpleModel m => ret (Simple.itemForward m (map Some allItemIndices))
    end in
  let scores :=
    let userRepresentation := tf_squeeze userEmb in
    tf_squeeze (tf_matMul allItemEmbeddings (tf_expandDims userRepresentation 1) false false) in
  ret (tf_data scores).

(** [(a, b) => b.score - a.score] *)
Definition compare_score (a b : Candidate.t) : number :=
  number_sub (Candidate.score b) (Candidate.score a).

(** The second half: filter, sort, cut. *)
Definition rank (this : App) (scoreData : list number) (ratedItemIds : JsSet.t intnum)
    : list Candidate.t :=
  let candidates :=
    foldl (fun candidates '(itemIndex, score) =>
             let itemId := JsMap.get itemIndex (reverseItemMap this) in
             if JsSet.has_opt itemId ratedItemIds then candidates
             else candidates ++ [{| Candidate.itemId := itemId; Candidate.score := score |}])
          [] (indexed scoreData) in
  take 10 (sort_by compare_score candidates).

Definition getRecommendations (model : Model) (userId : intnum) (userIndex : option nat)
    (ratedItemIds : JsSet.t intnum) : M (list Candidate.t) :=
  let* scoreData := score_items model userId userIndex in
  let* this := read (fun this => this) in
  ret (rank this scoreData ratedItemIds).

End Training.

(** ** Testing, the results page and the embedding chart *)

(** A row of a table of the results page; [year] is [None] where the page
    shows N/A. *)
Module TableRow.
Record t : Type := { rank : nat; title : string; value : number; year : option Z }.
End TableRow.

(** What [displayResults] writes into the results element: the user and the
    three tables. *)
Module Results.
Record t : Type := {
  userId : intnum;
  topRated : list TableRow.t;
  recsSimple : list TableRow.t;
  recsDeep : list TableRow.t
}.
End Results.

(** The status line as [test] leaves it. *)
Inductive TestStatus : Type :=
  | ModelsNotTrained
  | RecommendationsGenerated (userId : intnum)
  | ErrorGenerating (message : string).

(** What [test] writes into the page: the status line it leaves and, when
    [displayResults] ran to its end, the results element.  [test] assigns no
    field of the object, so its writes are its value here. *)
Module Report.
Record t : Type := { status : TestStatus; results : option Results.t }.
End Report.

(** [Math.floor(Math.random() * n)], given the number that [Math.random()]
    returned. *)
Definition random_index (random : Q) (n : nat) : nat :=
  Z.to_nat (Qfloor (random * inject_Z (Z.of_nat n))).

(** [movie.year || 'N/A']: [null], [NaN] and 0 are falsy. *)
Definition year_cell (year : option intnum) : option Z :=
  match year with
  | Some (Int z) => if decide (z = 0%Z) then None else Some z
  | _ => None
  end.

(** [Math.floor(a)] *)
Definition number_floor (a : number) : number :=
  match a with
  | Fin q => Fin (inject_Z (Qfloor q))
  | _ => a
  end.

(** [m.get(x)] for a number [x] on a [Map] whose keys are array indices. *)
Definition get_number {V : Type} (x : number) (m : JsMap.t nat V) : option V :=
  match x with
  | Fin q =>
      if Qeq_bool q (inject_Z (Qfloor q)) && (0 <=? Qfloor q)%Z
      then JsMap.get (Z.to_nat (Qfloor q)) m
      else None
  | _ => None
  end.

(** [Array.from({length: sampleSize}, (_, i) => Math.floor(i * (size - 1) /
    (sampleSize - 1)))] with [sampleSize = Math.min(500, size)]. *)
Definition sample_indices (size : nat) : list number :=
  let sampleSize := Nat.min 500 size in
  map (fun i : nat =>
         number_floor
           (number_div (Fin (inject_Z (Z.of_nat i * (Z.of_nat size - 1))))
                       (Fin (inject_Z (Z.of_nat sampleSize - 1)))))
      (seq 0 sampleSize).

Section Testing.
Context `{Tf}.
Local Open Scope method_scope.

Local Abbreviation App := (App Simple.t Deep.t).
Local Abbreviation M := (M Simple.t Deep.t).

(** [createTable(title, data, isRec)]: one row for each entry, or the
    TypeError of reading [title] of an item that the items table lacks. *)
Definition createTable {A : Type} (itemId_of : A -> option intnum) (value_of : A -> number)
    (this : App) (data : list A) : result (list TableRow.t) :=
  map_result
    (fun '(index, item) =>
       match JsMap.get_opt (itemId_of item) (items this) with
       | Some movie =>
           Ok {| TableRow.rank := index + 1;
                 TableRow.title := title movie;
                 TableRow.value := value_of item;
                 TableRow.year := year_cell (year movie) |}
       | None => Throw (cannot_read "title")
       end)
    (indexed data).

Definition displayResults (this : App) (userId : intnum) (userInteractions : list Interaction)
    (recsSimple recsDeep : list Candidate.t) : result Results.t :=
  let topRated := slice 0 10 userInteractions in
  match createTable (fun i => Some (itemId i)) rating this topRated with
  | Throw e => Throw e
  | Ok historical =>
      match createTable Candidate.itemId Candidate.score this recsSimple with
      | Throw e => Throw e
      | Ok simple =>
          match createTable Candidate.itemId Candidate.score this recsDeep with
          | Throw e => Throw e
          | Ok deep =>
              Ok {| Results.userId := userId;
                    Results.topRated := historical;
                    Results.recsSimple := simple;
                    Results.recsDeep := deep |}
          end
      end
  end.

(** The [try] block of [test] up to the call of [displayResults]: the user
    drawn, that user's history and the two recommendation lists. *)
Definition test_recommend (random : Q)
    : M (intnum * list Interaction * list Candidate.t * list Candidate.t) :=
  let* qualified := read qualifiedUsers in
  let randomUserId := qualified !! random_index random (length qualified) in
  let* userIndex := read (fun this => JsMap.get_opt randomUserId (userMap this)) in
  let* userInteractions := read (fun this => JsMap.get_opt randomUserId (userTopRated this)) in
  match randomUserId, userInteractions with
  | Some randomUserId, Some userInteractions =>
      let ratedItemIds := JsSet.from (map itemId userInteractions) in
      let* simple := read simpleModel in
      let* deep := read deepModel in
      match simple, deep with
      | Some simple, Some deep =>
          let* recsSimple :=
            getRecommendations (SimpleModel simple) randomUserId userIndex ratedItemIds in
          let* recsDeep :=
            getRecommendations (DeepModel deep) randomUserId userIndex ratedItemIds in
          ret (randomUserId, userInteractions, recsSimple, recsDeep)
      | _, _ => throw (cannot_read "userForward")
      end
  | _, _ => throw (cannot_read "map")
  end.

Definition test (random : Q) : M Report.t :=
  let* simple := read simpleModel in
  let* deep := read deepModel in
  let* qualified := read qualifiedUsers in
  match simple, deep, qualified with
  | Some _, Some _, _ :: _ =>
      try_catch
        (let* '(randomUserId, userInteractions, recsSimple, recsDeep) := test_recommend random in
         let* shown := lift (fun this =>
           displayResults this randomUserId userInteractions recsSimple recsDeep) in
         ret {| Report.status := RecommendationsGenerated randomUserId;
                Report.results := Some shown |})
        (fun error =>
           ret {| Report.status := ErrorGenerating (message error); Report.results := None |})
  | _, _, _ => ret {| Report.status := ModelsNotTrained; Report.results := None |}
  end.

(** The [try] block of [visualizeEmbeddings] up to the call of
    [getItemEmbeddings]: the sampled indices and the features of the sampled
    items.  The projection and the drawing that follow are the tensor
    library's and the canvas's. *)
Definition visualization_sample (this : App) : result (list number * list (list (option number))) :=
  let sampleIndices := sample_indices (JsMap.size (itemMap this)) in
  let sampleItemIds := map (fun i => get_number i (reverseItemMap this)) sampleIndices in
  match map_result (item_genres this) sampleItemIds with
  | Ok sampleItemFeatures => Ok (sampleIndices, sampleItemFeatures)
  | Throw e => Throw e
  end.

End Testing.

(* ===================================================================== *)
(** * Part II.  What the theorems speak of                                *)
(* ===================================================================== *)

(** ** The order on numbers *)

(** [a <= b] as JavaScript compares numbers: false as soon as one side is
    [NaN]. *)
Definition number_le (a b : number) : Prop :=
  match a, b with
  | NaN, _ | _, NaN => False
  | Inf true, _ => True
  | _, Inf false => True
  | Inf false, _ => False
  | _, Inf true => False
  | Fin x, Fin y => (x <= y)%Q
  end.

Definition is_number (a : number) : Prop := a <> NaN.



(** ** Sorting *)

(** [a] may stand before [b]: the comparator does not ask to swap them. *)
Definition precedes {A : Type} (cmp : A -> A -> number) (a b : A) : Prop :=
  positive (cmp a b) = false.



(** [a] may stand before [b] in a ranking: the score of [a] is not below
    that of [b]. *)
Definition score_order (a b : Candidate.t) : Prop :=
  number_le (Candidate.score b) (Candidate.score a).

(** ** Index maps, histories and the vocabulary *)

(** The entries [(id, index)] in the order of the ids. *)
Definition enumerate {K : Type} (ids : list K) : JsMap.t K nat := zip ids (seq 0 (length ids)).

(** The map after [m.set(k, i)] for each element [k] of [l] with its index
    [i]. *)
Definition set_all {K : Type} `{EqDecision K} (l : list K) (m : JsMap.t K nat) : JsMap.t K nat :=
  foldl (fun m '(i, k) => JsMap.set k i m) m (indexed l).


(** The four index maps hold nothing, as after the constructor. *)
Definition index_maps_empty {SM DM : Type} (this : App SM DM) : Prop :=
  userMap this = JsMap.empty /\ reverseUserMap this = JsMap.empty
  /\ itemMap this = JsMap.empty /\ reverseItemMap this = JsMap.empty.

(** The interactions of one user, in the order of the sequence. *)
Definition history (u : intnum) (l : list Interaction) : list Interaction :=
  filter (fun i => userId i = u) l.

(** Every index held in the vocabulary is below the vocabulary's size. *)
Definition vocab_bounded (vocab : JsMap.t field nat) : Prop :=
  forall occ i, JsMap.get occ vocab = Some i -> i < JsMap.size vocab.

(** A string that is empty or starts with a code unit that is neither white
    space, nor a sign, nor a decimal digit. *)
Definition not_numeric (s : string) : Prop :=
  match s with
  | EmptyString => True
  | String c _ =>
      is_white_space c = false /\ Ascii.eqb c "-" = false /\ Ascii.eqb c "+" = false
      /\ digit_value 10 c = None
  end.

(** ** Loading *)

Section LoadingTerms.
Context {SM DM : Type}.
Implicit Types this s : App SM DM.

(** The object with the status line rewritten. *)
Definition with_status (message : Status) this : App SM DM :=
  set_dom {| status := message;
             trainDisabled := trainDisabled (dom this);
             testDisabled := testDisabled (dom this) |} this.

(** The object when the [try] block has run to its end, from the state [s]
    that the two parsing loops left and the occupations they collected. *)
Definition finish_load (occupations : JsSet.t field) s : App SM DM :=
  let s :=
    set_occupationVocab
      (add_occupations (sort_by default_compare occupations) (occupationVocab s)) s in
  let s := findQualifiedUsers (createMappings s) in
  set_dom {| status := Loaded (length (interactions s)) (JsMap.size (items s))
                         (JsMap.size (users s));
             trainDisabled := false;
             testDisabled := testDisabled (dom s) |} s.

(** The objects that the constructor and any number of loads lead to. *)
Inductive loaded : App SM DM -> Prop :=
  | loaded_new (trainOff testOff : bool) : loaded (new_MovieLensApp SM DM trainOff testOff)
  | loaded_again (fetched : Fetched) this : loaded this -> loaded (snd (loadData fetched this)).

End LoadingTerms.

(** ** Training and ranking *)

Section TrainingTerms.
Context `{Tf}.

(** The flag is set wherever the process is suspended and where it settles,
    as long as it is set whenever the process is resumed. *)
Fixpoint flag_held {A : Type} (p : Run Simple.t Deep.t A) : Prop :=
  match p with
  | Settled _ this => isTraining this = true
  | Suspended this resume =>
      isTraining this = true
      /\ forall this', isTraining this' = true -> flag_held (resume this')
  end.

(** The same without the condition where it settles: the flag is set
    wherever the process is suspended. *)
Fixpoint guarded {A : Type} (p : Run Simple.t Deep.t A) : Prop :=
  match p with
  | Settled _ _ => True
  | Suspended this resume =>
      isTraining this = true
      /\ forall this', isTraining this' = true -> guarded (resume this')
  end.

(** Statements that leave the flag as it is. *)
Definition keeps_flag {A : Type} (c : M Simple.t Deep.t A) : Prop :=
  forall this, isTraining (snd (c this)) = isTraining this.

(** The candidates that [rank] collects before it sorts. *)
Definition candidates (this : App Simple.t Deep.t) (ratedItemIds : JsSet.t intnum)
    (acc : list Candidate.t) (scores : list (nat * number)) : list Candidate.t :=
  foldl (fun candidates '(itemIndex, score) =>
           let itemId := JsMap.get itemIndex (reverseItemMap this) in
           if JsSet.has_opt itemId ratedItemIds then candidates
           else candidates ++ [{| Candidate.itemId := itemId; Candidate.score := score |}])
        acc scores.

End TrainingTerms.

(** ** Small inputs to run the program on *)

Module Sample.

(** Fields joined by a separator, and lines joined by line feeds. *)
Definition join (sep : ascii) (fields : list string) : string :=
  String.concat (String sep EmptyString) fields.
Definition lines (l : list string) : string := join LF l.

(** The interactions [(1,1,5,100), (1,2,3,101), (2,1,4,102)]. *)
Definition interactionsText : string :=
  lines [join TAB ["1"; "1"; "5"; "100"];
         join TAB ["1"; "2"; "3"; "101"];
         join TAB ["2"; "1"; "4"; "102"]].

Definition itemsText : string :=
  lines ["1|Toy Story (1995)|01-Jan-1995||http://a|0|0|0|1|1|1|0|0|0|0|0|0|0|0|0|0|0|0|0";
         "2|GoldenEye (1995)|01-Jan-1995||http://b|0|1|1|0|0|0|0|0|0|0|0|0|0|0|0|0|1|0|0"].

Definition usersText : string :=
  lines ["1|24|M|technician|85711"; "2|53|F|other|94043"].

(** An interaction text whose second line has two fields, neither a number. *)
Definition malformedInteractionsText : string :=
  lines [join TAB ["1"; "2"; "3"; "4"]; join TAB ["foo"; "bar"]].


(** A fresh object on a page whose two buttons start disabled; no model
    exists before training. *)
Definition fresh : App Empty_set Empty_set := new_MovieLensApp Empty_set Empty_set true true.

Definition interaction (u i : Z) (r : Q) (t : Z) : Interaction :=
  {| userId := Int u; itemId := Int i; rating := Fin r; timestamp := Int t |}.

Definition three : list Interaction :=
  [interaction 1 1 5 100; interaction 1 2 3 101; interaction 2 1 4 102].

(** User 1 with exactly 20 interactions, user 2 with 19. *)
Definition twenty_and_nineteen : list Interaction :=
  replicate 20 (interaction 1 1 5 100) ++ replicate 19 (interaction 2 1 4 102).

(** An object whose vocabulary lacks the occupation of its one user. *)
Definition unknown_occupation : App Empty_set Empty_set :=
  set_users [(Int 1, {| age := Fin (24 # 100); gender := Fin 1; occupation := Some "pilot" |})]
    (set_occupationVocab [(Some "artist", 0%nat); (Some "engineer", 1%nat)] fresh).

(** A small implementation of the tensor interface, to run the ranking on:
    tensors are vectors and matrices of rationals with exact arithmetic.
    The operations of training and of the deep towers are placeholders:
    they return an argument, an empty tensor or a zero loss. *)
Inductive tensor : Type :=
  | Vec (v : list Q)
  | Mat (rows : list (list Q)).

Definition dot (a b : list Q) : Q := foldr Qplus 0%Q (zip_with Qmult a b).

Definition column (j : nat) (rows : list (list Q)) : list Q :=
  map (fun row => default 0%Q (row !! j)) rows.

Definition rows_of (t : tensor) : list (list Q) :=
  match t with Vec v => [v] | Mat rows => rows end.

Definition width (rows : list (list Q)) : nat := length (default [] (head rows)).

Definition matMul (a b : tensor) : tensor :=
  let b := rows_of b in
  Mat (map (fun row => map (fun j => dot row (column j b)) (seq 0 (width b))) (rows_of a)).

Definition squeeze (t : tensor) : tensor :=
  match t with
  | Vec v => Vec v
  | Mat [row] => Vec row
  | Mat rows => if bool_decide (width rows = 1%nat) then Vec (column 0 rows) else Mat rows
  end.

Definition expandDims (t : tensor) : tensor :=
  match t with
  | Vec v => Mat (map (fun x => [x]) v)
  | Mat rows => Mat rows
  end.

Definition gather (t : tensor) (indices : list (option nat)) : tensor :=
  Mat (map (fun i => default [] (i ≫= fun i => rows_of t !! i)) indices).

Definition data (t : tensor) : list number :=
  match t with
  | Vec v => map Fin v
  | Mat rows => map Fin (concat rows)
  end.

#[export] Instance exact : Tf := {|
  Tensor := tensor;
  Dense := unit;
  Optimizer := unit;
  tf_variable_randomNormal := fun _ _ _ _ => Mat [];
  tf_gather := gather;
  tf_tensor2d := fun _ => Mat [];
  tf_concat := fun ts _ => default (Mat []) (head ts);
  tf_layers_dense := fun _ _ _ => tt;
  tf_apply := fun _ t => t;
  tf_getWeights := fun _ => [];
  tf_setWeights := fun d _ => d;
  tf_l2Normalize := fun t _ => t;
  tf_matMul := fun a b _ _ => matMul a b;
  tf_oneHot_range := fun _ => Mat [];
  tf_softmaxCrossEntropy := fun _ _ => Vec [0%Q];
  tf_squeeze := squeeze;
  tf_expandDims := fun t _ => expandDims t;
  tf_data := data;
  tf_train_adam := fun _ => tt;
  tf_set_learningRate := fun _ o => o;
  tf_computeGradients := fun _ loss vars => (loss vars, []);
  tf_applyGradients := fun _ _ vars => (tt, vars)
|}.

(** A simple model over one user and three items of dimension 2: the scores
    of the three items for the user are 1/2, 9/10 and 1/10. *)
Definition model : Simple.t :=
  {| Simple.numUsers := 1; Simple.numItems := 3; Simple.embeddingDim := 2;
     Simple.userEmbeddings := Mat [[1; 0]]%Q;
     Simple.itemEmbeddings := Mat [[1 # 2; 0]; [9 # 10; 1]; [1 # 10; 1]]%Q;
     Simple.optimizer := tt |}.

(** An object with three indexed items, 10, 20 and 30. *)
Definition trained : App Simple.t Deep.t :=
  set_simpleModel (Some model)
    (set_reverseItemMap [(0%nat, Int 10); (1%nat, Int 20); (2%nat, Int 30)]
      (set_itemMap [(Int 10, 0%nat); (Int 20, 1%nat); (Int 30, 2%nat)]
        (new_MovieLensApp Simple.t Deep.t true true))).



(** The object after one good load. *)
Definition once : App Empty_set Empty_set :=
  snd (loadData (Texts interactionsText itemsText usersText) fresh).

End Sample.

(** ** Further terms: indices, stores, rankings *)


(** The one-hot vector of width [n] with its 1 at [k]. *)
Definition one_hot (n k : nat) : list (option number) :=
  <[k := Some (Fin 1)]> (replicate n (Some (Fin 0))).

(** A user record as a user line gives it: the gender is 0 or 1. *)
Definition gender_flag (u : User) : Prop := gender u = Fin 0 \/ gender u = Fin 1.

(** Every user of the table has a gender flag and an occupation that the
    vocabulary holds. *)
Definition users_encodable {SM DM : Type} (this : App SM DM) : Prop :=
  forall uid u, JsMap.get uid (users this) = Some u ->
    gender_flag u /\ is_Some (JsMap.get (occupation u) (occupationVocab this)).

(** An item line that has a field separator, hence a title field. *)
Definition has_separator (line : string) : Prop := BAR ∈ chars line.

(** A nonempty run of decimal digits, and the number it writes. *)
Definition digits (l : list ascii) : Prop := l <> [] /\ forallb is_digit l = true.

Definition decimal_value (l : list ascii) : Z :=
  digits_value 10 (map (fun c => Z.of_N (code c) - 48)%Z l).

(** The year of an item is [null] or a number from 0 to 9999. *)
Definition year_in_range (item : Item) : Prop :=
  year item = None \/ exists y, year item = Some (Int y) /\ (0 <= y <= 9999)%Z.

(** ** What training leaves *)

(** The fields that a load writes and that training reads. *)
Definition stores {SM DM : Type} (this : App SM DM) :=
  (interactions this, items this, users this, occupationVocab this, userMap this,
   itemMap this, reverseUserMap this, reverseItemMap this, userTopRated this,
   qualifiedUsers this).

(** The guard of [train] and the state of its button. *)
Definition lock {SM DM : Type} (this : App SM DM) : bool * bool :=
  (isTraining this, trainDisabled (dom this)).

(** Whether the two models have been built. *)
Definition built {SM DM : Type} (this : App SM DM) : bool * bool :=
  (match simpleModel this with Some _ => true | None => false end,
   match deepModel this with Some _ => true | None => false end).

(** Statements, and processes run undisturbed, that leave a view [f] of the
    object as it is. *)
Definition kept {SM DM X A : Type} (f : App SM DM -> X) (c : M SM DM A) : Prop :=
  forall this, f (snd (c this)) = f this.

Definition run_kept {SM DM X A : Type} (f : App SM DM -> X) (c : Async SM DM A) : Prop :=
  forall this, f (snd (undisturbed (c this))) = f this.

(** [Math.ceil(n / batchSize)] and the part of an array that the inner loop
    of [train] takes for a batch, [total] being the length of the array of
    user indices. *)
Definition numBatches_of (n : nat) : nat :=
  ((n + (config.batchSize - 1)) / config.batchSize)%nat.

Definition batch_slice {A : Type} (total batch : nat) (indices : list A) : list A :=
  let start := (batch * config.batchSize)%nat in
  let stop := Nat.min (start + config.batchSize) total in
  slice start stop indices.

(** ** Ranking *)

Section RankingTerms.
Context `{Tf}.

(** The entry that [getRecommendations] pushes for a position of the scores
    and the score found there. *)
Definition candidate_of (this : App Simple.t Deep.t) (entry : nat * number) : Candidate.t :=
  {| Candidate.itemId := JsMap.get entry.1 (reverseItemMap this);
     Candidate.score := entry.2 |}.

(** The positions whose item is not in the exclusion set. *)
Definition eligible (this : App Simple.t Deep.t) (ratedItemIds : JsSet.t intnum)
    (entry : nat * number) : Prop :=
  JsSet.has_opt (JsMap.get entry.1 (reverseItemMap this)) ratedItemIds = false.

End RankingTerms.

#[export] Instance eligible_dec `{Tf} (this : App Simple.t Deep.t)
    (ratedItemIds : JsSet.t intnum) (entry : nat * number) :
  Decision (eligible this ratedItemIds entry) :=
  decide (JsSet.has_opt (JsMap.get entry.1 (reverseItemMap this)) ratedItemIds = false).

(** ** An object to test on *)

Module TestSample.
Import Sample.

Definition movie (name : string) (y : Z) : Item :=
  {| title := name; year := Some (Int y); genres := [Int 0; Int 1] |}.

(** The sample model with three indexed items, 10, 20 and 30, the records of
    the three, and one user, a technician, who rated item 20 twenty times. *)
Definition ready : App Simple.t Deep.t :=
  set_deepModel (Some (Deep.new 1 3 2 3 2 [64%nat; 2%nat]))
    (set_qualifiedUsers [Int 1]
      (set_userTopRated [(Int 1, replicate 20 (interaction 1 20 5 100))]
        (set_reverseUserMap [(0%nat, Int 1)]
          (set_userMap [(Int 1, 0%nat)]
            (set_occupationVocab [(Some "technician", 0%nat)]
              (set_users
                 [(Int 1, {| age := Fin (24 # 100); gender := Fin 1;
                             occupation := Some "technician" |})]
                 (set_items
                    [(Int 10, movie "Alien" 1979); (Int 20, movie "Brazil" 1985);
                     (Int 30, movie "Casablanca" 1942)]
                    (set_interactions (replicate 20 (interaction 1 20 5 100)) trained)))))))).

End TestSample.

(* ===================================================================== *)
(** * Part III.  Lemmas and theorems                                      *)
(* ===================================================================== *)

(** ** The order on numbers *)


Lemma number_le_refl (a : number) : is_number a -> number_le a a.
Proof.
  destruct a as [| [] | q]; unfold is_number; simpl; try congruence; auto.
  intros _. apply Qle_refl.
Qed.

Lemma number_le_trans (a b c : number) : number_le a b -> number_le b c -> number_le a c.
Proof.
  destruct a as [| [] | x], b as [| [] | y], c as [| [] | z]; simpl; try tauto.
  apply Qle_trans.
Qed.

Lemma number_le_total (a b : number) :
  is_number a -> is_number b -> number_le a b \/ number_le b a.
Proof.
  destruct a as [| [] | x], b as [| [] | y]; unfold is_number; simpl;
    try congruence; auto.
  intros _ _. destruct (Qlt_le_dec x y) as [Hlt | Hle]; [left; apply Qlt_le_weak, Hlt | right; exact Hle].
Qed.

Lemma positive_Fin (q : Q) : positive (Fin q) = true <-> (0 < q)%Q.
Proof.
  simpl. destruct (Qlt_le_dec 0 q) as [Hlt | Hle]; split; intros Hq; try done.
  exfalso. exact (Qlt_not_le _ _ Hq Hle).
Qed.

(** The comparator [b - a] is positive exactly when [b <= a] fails. *)
Lemma positive_sub (a b : number) :
  is_number a -> is_number b ->
  (positive (number_sub b a) = false <-> number_le b a).
Proof.
  destruct a as [| [] | x], b as [| [] | y]; unfold is_number; simpl;
    try congruence; intros _ _; try (split; [tauto || congruence | tauto || congruence]).
  destruct (Qlt_le_dec 0 (y - x)) as [Hlt | Hle]; split; intros Hq; try done.
  - exfalso. apply (Qlt_not_le _ _ Hlt). lra.
  - lra.
Qed.


(** ** The sort *)

Section SortFacts.
Context {A : Type} (cmp : A -> A -> number).
Local Abbreviation precedes := (precedes cmp).

Lemma sort_insert_perm (x : A) (l : list A) : Permutation (sort_insert cmp x l) (x :: l).
Proof.
  induction l as [| y l IH]; simpl.
  - reflexivity.
  - destruct (positive (cmp x y)).
    + rewrite IH. apply perm_swap.
    + reflexivity.
Qed.

Lemma sort_by_perm (l : list A) : Permutation (sort_by cmp l) l.
Proof.
  induction l as [| x l IH]; simpl.
  - reflexivity.
  - rewrite sort_insert_perm. now apply perm_skip.
Qed.

Lemma sort_by_length (l : list A) : length (sort_by cmp l) = length l.
Proof. apply Permutation_length, sort_by_perm. Qed.

Lemma sort_by_elem_of (x : A) (l : list A) : x ∈ sort_by cmp l <-> x ∈ l.
Proof. now rewrite (sort_by_perm l). Qed.

(** On a set of elements where the comparator is consistent, the result is
    sorted. *)
Section Consistent.
Variable P : A -> Prop.
Hypothesis asym : forall a b, P a -> P b -> positive (cmp a b) = true -> precedes b a.
Hypothesis trans : forall a b c, P a -> P b -> P c -> precedes a b -> precedes b c -> precedes a c.

Lemma sort_insert_sorted (x : A) (l : list A) :
  P x -> Forall P l -> StronglySorted precedes l -> StronglySorted precedes (sort_insert cmp x l).
Proof.
  intros Px Pl Hs. induction Hs as [| y l Hs IH Hy]; simpl.
  - repeat constructor.
  - apply Forall_cons in Pl as [Py Pl].
    destruct (positive (cmp x y)) eqn:Hxy.
    + constructor; [now apply IH |].
      rewrite sort_insert_perm. constructor; [now apply asym | exact Hy].
    + constructor; [now constructor |].
      constructor; [exact Hxy |].
      rewrite Forall_forall in Hy, Pl |- *.
      intros z Hz. apply (trans x y z); auto.
Qed.

Lemma sort_by_sorted (l : list A) : Forall P l -> StronglySorted precedes (sort_by cmp l).
Proof.
  induction 1 as [| x l Px Pl IH]; simpl.
  - constructor.
  - apply sort_insert_sorted; auto.
    now rewrite (sort_by_perm l).
Qed.
End Consistent.
End SortFacts.


(** ** Map and Set *)

Section MapFacts.
Context {K V : Type} `{EqDecision K}.
Implicit Types (m : JsMap.t K V) (k : K) (v : V).

Lemma get_set_eq m k v : JsMap.get k (JsMap.set k v m) = Some v.
Proof.
  induction m as [| [k' v'] m IH]; simpl.
  - now rewrite decide_True.
  - destruct (decide (k' = k)) as [-> | Hne]; simpl.
    + now rewrite decide_True.
    + now rewrite decide_False.
Qed.

Lemma get_set_ne m k k' v : k <> k' -> JsMap.get k' (JsMap.set k v m) = JsMap.get k' m.
Proof.
  intros Hne. induction m as [| [k0 v0] m IH]; simpl.
  - now rewrite decide_False.
  - destruct (decide (k0 = k)) as [-> | Hne0]; simpl.
    + now rewrite !decide_False.
    + now rewrite IH.
Qed.

Lemma get_set m k k' v :
  JsMap.get k' (JsMap.set k v m) = if decide (k = k') then Some v else JsMap.get k' m.
Proof.
  destruct (decide (k = k')) as [-> | Hne]; [apply get_set_eq | now apply get_set_ne].
Qed.

Lemma get_None m k : JsMap.get k m = None <-> k ∉ JsMap.keys m.
Proof.
  unfold JsMap.keys. induction m as [| [k' v'] m IH]; simpl.
  - split; [intros _; apply not_elem_of_nil | done].
  - rewrite not_elem_of_cons. destruct (decide (k' = k)) as [-> | Hne].
    + split; [done | tauto].
    + rewrite IH. split; [intros; split; congruence | tauto].
Qed.

Lemma get_Some_elem_of m k v : JsMap.get k m = Some v -> (k, v) ∈ m.
Proof.
  induction m as [| [k' v'] m IH]; simpl; [done |].
  destruct (decide (k' = k)) as [-> | Hne].
  - intros [= ->]. apply list_elem_of_here.
  - intros Hg. apply list_elem_of_further, IH, Hg.
Qed.

Lemma elem_of_get m k v : NoDup (JsMap.keys m) -> (k, v) ∈ m -> JsMap.get k m = Some v.
Proof.
  unfold JsMap.keys. induction m as [| [k' v'] m IH]; simpl.
  - intros _ Hin. now apply elem_of_nil in Hin.
  - rewrite NoDup_cons. intros [Hk' Hnd] Hin.
    apply elem_of_cons in Hin as [[= -> ->] | Hin].
    + now rewrite decide_True.
    + rewrite decide_False; [now apply IH |].
      intros ->. apply Hk'. apply list_elem_of_fmap. now exists (k, v).
Qed.

Lemma has_true m k : JsMap.has k m = true <-> is_Some (JsMap.get k m).
Proof.
  unfold JsMap.has. destruct (JsMap.get k m); split; done.
Qed.

(** Writing the value that a key already has changes nothing. *)
Lemma set_same m k v : JsMap.get k m = Some v -> JsMap.set k v m = m.
Proof.
  induction m as [| [k' v'] m IH]; simpl; [done |].
  destruct (decide (k' = k)) as [-> | Hne].
  - now intros [= ->].
  - intros Hg. now rewrite IH.
Qed.

(** On a key that is absent, [set] appends. *)
Lemma set_fresh m k v : JsMap.get k m = None -> JsMap.set k v m = m ++ [(k, v)].
Proof.
  induction m as [| [k' v'] m IH]; simpl; [done |].
  destruct (decide (k' = k)); [done |]. intros Hg. now rewrite IH.
Qed.

(** On a key that is present, [set] keeps the keys as they stand. *)
Lemma keys_set_present m k v :
  is_Some (JsMap.get k m) -> JsMap.keys (JsMap.set k v m) = JsMap.keys m.
Proof.
  unfold JsMap.keys. induction m as [| [k' v'] m IH]; simpl.
  - intros [? [=]].
  - destruct (decide (k' = k)) as [-> | Hne]; simpl; [done |].
    intros Hg. now rewrite IH.
Qed.

Lemma keys_set m k v :
  JsMap.keys (JsMap.set k v m)
  = if JsMap.has k m then JsMap.keys m else JsMap.keys m ++ [k].
Proof.
  destruct (JsMap.has k m) eqn:Hh.
  - apply keys_set_present, has_true, Hh.
  - rewrite set_fresh.
    + unfold JsMap.keys. now rewrite map_app.
    + unfold JsMap.has in Hh. now destruct (JsMap.get k m).
Qed.

Lemma keys_set_NoDup m k v : NoDup (JsMap.keys m) -> NoDup (JsMap.keys (JsMap.set k v m)).
Proof.
  intros Hnd. rewrite keys_set. destruct (JsMap.has k m) eqn:Hh; [done |].
  apply NoDup_app. split; [done |]. split; [| apply NoDup_singleton].
  intros x Hx Hx'. apply list_elem_of_singleton in Hx' as ->.
  apply get_None in Hx; [done |].
  unfold JsMap.has in Hh. now destruct (JsMap.get k m).
Qed.

Lemma size_set_le m k v : JsMap.size m <= JsMap.size (JsMap.set k v m).
Proof.
  unfold JsMap.size. rewrite <- !(length_map fst). fold (JsMap.keys m).
  fold (JsMap.keys (JsMap.set k v m)). rewrite keys_set.
  destruct (JsMap.has k m); [done |]. rewrite length_app. lia.
Qed.

Lemma get_map_values {W : Type} (f : V -> W) m k :
  JsMap.get k (map (fun '(k, v) => (k, f v)) m) = f <$> JsMap.get k m.
Proof.
  induction m as [| [k' v'] m IH]; simpl; [done |].
  now destruct (decide (k' = k)).
Qed.

Lemma keys_map_values {W : Type} (f : V -> W) m :
  JsMap.keys (map (fun '(k, v) => (k, f v)) m) = JsMap.keys m.
Proof.
  unfold JsMap.keys. induction m as [| [k' v'] m IH]; simpl; [done |]. now rewrite IH.
Qed.
End MapFacts.

Section SetFacts.
Context {A : Type} `{EqDecision A}.

Lemma add_elem_of (x y : A) (s : JsSet.t A) : y ∈ JsSet.add x s <-> y = x \/ y ∈ s.
Proof.
  unfold JsSet.add, JsSet.has. case_bool_decide as Hx.
  - split; [tauto | intros [-> | ?]; done].
  - rewrite elem_of_app, list_elem_of_singleton. tauto.
Qed.

Lemma add_NoDup (x : A) (s : JsSet.t A) : NoDup s -> NoDup (JsSet.add x s).
Proof.
  intros Hnd. unfold JsSet.add, JsSet.has. case_bool_decide as Hx; [done |].
  apply NoDup_app. split; [done |]. split; [| apply NoDup_singleton].
  intros y Hy Hy'. apply list_elem_of_singleton in Hy' as ->. done.
Qed.

Lemma foldl_add_elem_of (l : list A) (s : JsSet.t A) (y : A) :
  y ∈ foldl (fun s x => JsSet.add x s) s l <-> y ∈ s \/ y ∈ l.
Proof.
  revert s. induction l as [| x l IH]; intros s; simpl.
  - rewrite elem_of_nil. tauto.
  - rewrite IH, add_elem_of, elem_of_cons. tauto.
Qed.

Lemma foldl_add_NoDup (l : list A) (s : JsSet.t A) :
  NoDup s -> NoDup (foldl (fun s x => JsSet.add x s) s l).
Proof.
  revert s. induction l as [| x l IH]; intros s Hnd; simpl; [done |].
  apply IH, add_NoDup, Hnd.
Qed.

(** [new Set(array)] holds the elements of the array, each once. *)
Lemma from_elem_of (l : list A) (y : A) : y ∈ JsSet.from l <-> y ∈ l.
Proof. unfold JsSet.from. rewrite foldl_add_elem_of, elem_of_nil. tauto. Qed.

Lemma from_NoDup (l : list A) : NoDup (JsSet.from l).
Proof. apply foldl_add_NoDup, NoDup_nil_2. Qed.
End SetFacts.

(** ** createMappings *)

Lemma indexed_snoc {A : Type} (l : list A) (x : A) :
  indexed (l ++ [x]) = indexed l ++ [(length l, x)].
Proof.
  unfold indexed. rewrite length_app. simpl.
  replace (length l + 1)%nat with (S (length l)) by lia.
  rewrite seq_S. simpl. rewrite zip_with_app; [done |].
  now rewrite length_seq.
Qed.

Lemma keys_indexed {A : Type} (l : list A) : JsMap.keys (indexed l) = seq 0 (length l).
Proof. unfold JsMap.keys, indexed. apply fst_zip. now rewrite length_seq. Qed.

Lemma get_indexed {A : Type} (l : list A) (i : nat) : JsMap.get i (indexed l) = l !! i.
Proof.
  destruct (l !! i) as [x |] eqn:Hl.
  - apply elem_of_get.
    + rewrite keys_indexed. apply NoDup_seq.
    + unfold indexed. apply elem_of_lookup_zip_with. exists i, i, x.
      split; [done |]. split; [| done].
      apply lookup_seq. split; [done |]. now apply lookup_lt_Some in Hl.
  - apply get_None. rewrite keys_indexed, elem_of_seq.
    apply lookup_ge_None in Hl. lia.
Qed.

Section Indices.
Context {K : Type} `{EqDecision K}.

Lemma keys_enumerate (ids : list K) : JsMap.keys (enumerate ids) = ids.
Proof. unfold JsMap.keys, enumerate. apply fst_zip. now rewrite length_seq. Qed.


Lemma enumerate_snoc (ids : list K) (x : K) :
  enumerate (ids ++ [x]) = enumerate ids ++ [(x, length ids)].
Proof.
  unfold enumerate. rewrite length_app. simpl.
  replace (length ids + 1)%nat with (S (length ids)) by lia.
  rewrite seq_S. simpl. rewrite zip_with_app; [done |].
  now rewrite length_seq.
Qed.

Lemma get_enumerate (ids : list K) (id : K) (i : nat) :
  NoDup ids -> (JsMap.get id (enumerate ids) = Some i <-> ids !! i = Some id).
Proof.
  intros Hnd. split.
  - intros Hg. apply get_Some_elem_of in Hg. unfold enumerate in Hg.
    apply elem_of_lookup_zip_with in Hg as (j & y & z & [= -> ->] & Hy & Hz).
    apply lookup_seq in Hz as [-> _]. exact Hy.
  - intros Hl. apply elem_of_get; [now rewrite keys_enumerate |].
    unfold enumerate. apply elem_of_lookup_zip_with. exists i, id, i.
    split; [done |]. split; [done |].
    apply lookup_seq. split; [done |]. now apply lookup_lt_Some in Hl.
Qed.
End Indices.

(** On empty maps the loop of [createMappings] writes the ids with their
    positions, and the positions with their ids. *)
Lemma assign_indices_empty (ids : list intnum) :
  NoDup ids -> assign_indices ids (JsMap.empty, JsMap.empty) = (enumerate ids, indexed ids).
Proof.
  unfold assign_indices. induction ids as [| x ids IH] using rev_ind; intros Hnd.
  - reflexivity.
  - apply NoDup_app in Hnd as (Hnd & Hx & _).
    rewrite indexed_snoc, foldl_app, IH by done. simpl.
    rewrite enumerate_snoc, !set_fresh; [done | |].
    + apply get_None. rewrite keys_indexed, elem_of_seq. lia.
    + apply get_None. rewrite keys_enumerate. intros Hin.
      apply (Hx x Hin). apply list_elem_of_singleton. done.
Qed.

(** Whatever the maps held, after the loop every id of the list is mapped to
    its position and that position back to the id. *)
Lemma assign_indices_round_trip (ids : list intnum)
    (maps : JsMap.t intnum nat * JsMap.t nat intnum) (i : nat) (id : intnum) :
  NoDup ids -> ids !! i = Some id ->
  JsMap.get id (assign_indices ids maps).1 = Some i
  /\ JsMap.get i (assign_indices ids maps).2 = Some id.
Proof.
  unfold assign_indices. revert i id.
  induction ids as [| x ids IH] using rev_ind; intros i id Hnd Hl.
  - done.
  - apply NoDup_app in Hnd as (Hnd & Hx & _).
    rewrite indexed_snoc, foldl_app. simpl.
    destruct (foldl _ maps (indexed ids)) as [forward backward] eqn:Hf. simpl.
    destruct (decide (i < length ids)) as [Hi | Hi].
    + rewrite lookup_app_l in Hl by done.
      destruct (IH i id Hnd Hl) as [H1 H2]. simpl in H1, H2.
      rewrite !get_set_ne; [done | lia |].
      intros ->. apply (Hx id); [eapply list_elem_of_lookup_2, Hl |].
      now apply list_elem_of_singleton.
    + assert (i = length ids) as ->.
      { apply lookup_lt_Some in Hl. rewrite length_app in Hl. simpl in Hl. lia. }
      rewrite lookup_app_r, Nat.sub_diag in Hl by done. injection Hl as ->.
      now rewrite !get_set_eq.
Qed.

(** Run again on the maps it built from the same ids, the loop changes
    nothing. *)
Lemma assign_indices_again (ids : list intnum) :
  NoDup ids -> assign_indices ids (enumerate ids, indexed ids) = (enumerate ids, indexed ids).
Proof.
  intros Hnd. unfold assign_indices.
  assert (forall l : list (nat * intnum),
            (forall i id, (i, id) ∈ l -> ids !! i = Some id) ->
            foldl (fun '(forward, backward) '(index, id) =>
                     (JsMap.set id index forward, JsMap.set index id backward))
                  (enumerate ids, indexed ids) l
            = (enumerate ids, indexed ids)) as Hfold.
  { induction l as [| [i id] l IH]; intros Hl; simpl; [done |].
    assert (ids !! i = Some id) as Hi by (apply Hl, list_elem_of_here).
    rewrite !set_same.
    - apply IH. intros j x Hj. apply Hl. now apply list_elem_of_further.
    - now rewrite get_indexed.
    - now apply get_enumerate. }
  apply Hfold. intros i id Hin. unfold indexed in Hin.
  apply elem_of_lookup_zip_with in Hin as (j & y & z & [= -> ->] & Hy & Hz).
  apply lookup_seq in Hy as [-> _]. exact Hz.
Qed.

Lemma get_push_interaction (m : JsMap.t intnum (list Interaction)) (i : Interaction) (u : intnum) :
  JsMap.get u (push_interaction m i)
  = if decide (userId i = u) then Some (default [] (JsMap.get u m) ++ [i])
    else JsMap.get u m.
Proof.
  unfold push_interaction, JsMap.has. destruct (JsMap.get (userId i) m) as [array |] eqn:Hg.
  - rewrite Hg, get_set. destruct (decide (userId i = u)) as [<- | Hne]; [| done].
    now rewrite Hg.
  - rewrite get_set_eq, get_set. destruct (decide (userId i = u)) as [<- | Hne].
    + now rewrite Hg.
    + now rewrite get_set_ne.
Qed.

Lemma keys_push_interaction_NoDup (m : JsMap.t intnum (list Interaction)) (i : Interaction) :
  NoDup (JsMap.keys m) -> NoDup (JsMap.keys (push_interaction m i)).
Proof.
  intros Hnd. unfold push_interaction.
  destruct (JsMap.has (userId i) m); destruct (JsMap.get _ _);
    repeat apply keys_set_NoDup; done.
Qed.

Lemma get_grouped (l : list Interaction) (m : JsMap.t intnum (list Interaction)) (u : intnum) :
  JsMap.get u (foldl push_interaction m l)
  = match history u l with
    | [] => JsMap.get u m
    | h => Some (default [] (JsMap.get u m) ++ h)
    end.
Proof.
  revert m. unfold history. induction l as [| i l IH]; intros m; simpl; [done |].
  rewrite IH, get_push_interaction, filter_cons.
  destruct (decide (userId i = u)) as [Heq | Hne]; simpl.
  - destruct (filter _ l); simpl; [done |]. now rewrite <- app_assoc.
  - done.
Qed.

Lemma keys_grouped_NoDup (l : list Interaction) (m : JsMap.t intnum (list Interaction)) :
  NoDup (JsMap.keys m) -> NoDup (JsMap.keys (foldl push_interaction m l)).
Proof.
  revert m. induction l as [| i l IH]; intros m Hnd; simpl; [done |].
  apply IH, keys_push_interaction_NoDup, Hnd.
Qed.

Section CreateMappings.
Context {SM DM : Type}.
Implicit Types this : App SM DM.

Lemma userTopRated_createMappings this :
  userTopRated (createMappings this)
  = map (fun '(userId, interactions) => (userId, sort_by compare_history interactions))
        (foldl push_interaction JsMap.empty (interactions this)).
Proof.
  unfold createMappings. do 2 destruct (assign_indices _ _). reflexivity.
Qed.

(** The history kept for a user is the sorted list of that user's
    interactions; a user without interactions has no entry. *)
Lemma get_userTopRated this (u : intnum) :
  JsMap.get u (userTopRated (createMappings this))
  = match history u (interactions this) with
    | [] => None
    | h => Some (sort_by compare_history h)
    end.
Proof.
  rewrite userTopRated_createMappings, get_map_values, get_grouped. simpl.
  now destruct (history u (interactions this)).
Qed.

Lemma get_userTopRated_Some this (u : intnum) (h : list Interaction) :
  JsMap.get u (userTopRated (createMappings this)) = Some h
  <-> history u (interactions this) <> []
      /\ h = sort_by compare_history (history u (interactions this)).
Proof.
  rewrite get_userTopRated.
  destruct (history u (interactions this)) as [| i l]; split.
  - done.
  - now intros [? _].
  - intros [= <-]. done.
  - now intros [_ ->].
Qed.

Lemma keys_userTopRated_NoDup this : NoDup (JsMap.keys (userTopRated (createMappings this))).
Proof.
  rewrite userTopRated_createMappings, keys_map_values.
  apply keys_grouped_NoDup, NoDup_nil_2.
Qed.

Lemma userMap_createMappings this :
  (userMap (createMappings this), reverseUserMap (createMappings this))
  = assign_indices (JsSet.from (map userId (interactions this)))
      (userMap this, reverseUserMap this).
Proof.
  unfold createMappings. do 2 destruct (assign_indices _ _). reflexivity.
Qed.

Lemma itemMap_createMappings this :
  (itemMap (createMappings this), reverseItemMap (createMappings this))
  = assign_indices (JsSet.from (map itemId (interactions this)))
      (itemMap this, reverseItemMap this).
Proof.
  unfold createMappings. do 2 destruct (assign_indices _ _). reflexivity.
Qed.
End CreateMappings.

(** ** The dense index maps *)



(** Running [createMappings] again on the same interactions, as a second
    load of the same data does, leaves the index maps as the first run built
    them. *)
Lemma createMappings_again {SM DM : Type} (this : App SM DM) :
  index_maps_empty this ->
  let once := createMappings this in
  let twice := createMappings (set_interactions (interactions this) once) in
  userMap twice = userMap once /\ reverseUserMap twice = reverseUserMap once
  /\ itemMap twice = itemMap once /\ reverseItemMap twice = reverseItemMap once.
Proof.
  intros (Hu & Hru & Hi & Hri) once twice.
  pose proof (userMap_createMappings this) as Hum.
  pose proof (itemMap_createMappings this) as Him.
  rewrite Hu, Hru, assign_indices_empty in Hum by apply from_NoDup.
  rewrite Hi, Hri, assign_indices_empty in Him by apply from_NoDup.
  pose proof (userMap_createMappings (set_interactions (interactions this) once)) as Hum2.
  pose proof (itemMap_createMappings (set_interactions (interactions this) once)) as Him2.
  change (interactions (set_interactions (interactions this) once)) with (interactions this)
    in Hum2, Him2.
  change (userMap (set_interactions (interactions this) once)) with (userMap once) in Hum2.
  change (reverseUserMap (set_interactions (interactions this) once))
    with (reverseUserMap once) in Hum2.
  change (itemMap (set_interactions (interactions this) once)) with (itemMap once) in Him2.
  change (reverseItemMap (set_interactions (interactions this) once))
    with (reverseItemMap once) in Him2.
  fold once in Hum, Him. fold twice in Hum2, Him2.
  rewrite Hum, assign_indices_again in Hum2 by apply from_NoDup.
  rewrite Him, assign_indices_again in Him2 by apply from_NoDup.
  rewrite <- Hum in Hum2. rewrite <- Him in Him2.
  injection Hum2 as -> ->. injection Him2 as -> ->. done.
Qed.

(** Whatever the index maps held before, the round trip holds for every id
    of the interaction sequence. *)
Lemma createMappings_round_trip {SM DM : Type} (this : App SM DM) (i : Interaction) :
  i ∈ interactions this ->
  (exists k, JsMap.get (userId i) (userMap (createMappings this)) = Some k
             /\ JsMap.get k (reverseUserMap (createMappings this)) = Some (userId i))
  /\ (exists k, JsMap.get (itemId i) (itemMap (createMappings this)) = Some k
                /\ JsMap.get k (reverseItemMap (createMappings this)) = Some (itemId i)).
Proof.
  intros Hin.
  pose proof (userMap_createMappings this) as Hum.
  pose proof (itemMap_createMappings this) as Him.
  split.
  - assert (userId i ∈ JsSet.from (map userId (interactions this))) as Hu.
    { apply from_elem_of, list_elem_of_fmap. eauto. }
    apply list_elem_of_lookup in Hu as [k Hk]. exists k.
    destruct (assign_indices_round_trip _ (userMap this, reverseUserMap this) k _
                (from_NoDup _) Hk) as [H1 H2].
    rewrite <- Hum in H1, H2. done.
  - assert (itemId i ∈ JsSet.from (map itemId (interactions this))) as Hu.
    { apply from_elem_of, list_elem_of_fmap. eauto. }
    apply list_elem_of_lookup in Hu as [k Hk]. exists k.
    destruct (assign_indices_round_trip _ (itemMap this, reverseItemMap this) k _
                (from_NoDup _) Hk) as [H1 H2].
    rewrite <- Him in H1, H2. done.
Qed.

(** ** The per-user history *)





Lemma StronglySorted_weaken {A : Type} (P : A -> Prop) (R R' : A -> A -> Prop) (l : list A) :
  (forall a b, P a -> P b -> R a b -> R' a b) ->
  Forall P l -> StronglySorted R l -> StronglySorted R' l.
Proof.
  intros HR HP Hs. induction Hs as [| x l Hs IH Hx]; constructor.
  - apply IH. now apply Forall_cons in HP as [_ HP].
  - apply Forall_cons in HP as [Px HP].
    rewrite Forall_forall in Hx, HP |- *. intros y Hy. apply HR; auto.
Qed.



(** ** Qualified users *)

Lemma qualified_foldl (m : JsMap.t intnum (list Interaction)) (acc : list intnum) (u : intnum) :
  u ∈ foldl (fun qualified '(userId, interactions) =>
               if bool_decide (20 <= length interactions) then qualified ++ [userId]
               else qualified) acc m
  <-> u ∈ acc \/ exists l, (u, l) ∈ m /\ 20 <= length l.
Proof.
  revert acc. induction m as [| [k l] m IH]; intros acc; simpl.
  - split; [auto | intros [? | (l & Hl & _)]; [done | now apply elem_of_nil in Hl]].
  - rewrite IH. case_bool_decide as Hlen.
    + rewrite elem_of_app, list_elem_of_singleton. split.
      * intros [[? | ->] | (l' & Hl' & ?)]; [auto | |].
        -- right. exists l. split; [apply list_elem_of_here | done].
        -- right. exists l'. split; [now apply list_elem_of_further | done].
      * intros [? | (l' & Hl' & ?)]; [auto |].
        apply elem_of_cons in Hl' as [[= -> ->] | Hl']; [auto |].
        right. eauto.
    + split.
      * intros [? | (l' & Hl' & ?)]; [auto |].
        right. exists l'. split; [now apply list_elem_of_further | done].
      * intros [? | (l' & Hl' & ?)]; [auto |].
        apply elem_of_cons in Hl' as [[= -> ->] | Hl']; [done |].
        right. eauto.
Qed.

Lemma qualifiedUsers_findQualifiedUsers {SM DM : Type} (this : App SM DM) (u : intnum) :
  NoDup (JsMap.keys (userTopRated this)) ->
  u ∈ qualifiedUsers (findQualifiedUsers this)
  <-> exists l, JsMap.get u (userTopRated this) = Some l /\ 20 <= length l.
Proof.
  intros Hnd. unfold findQualifiedUsers. simpl. rewrite qualified_foldl. split.
  - intros [Hin | (l & Hl & Hlen)]; [now apply elem_of_nil in Hin |].
    exists l. split; [now apply elem_of_get | done].
  - intros (l & Hl & Hlen). right. exists l. split; [now apply get_Some_elem_of | done].
Qed.

(** C8.  After [createMappings] and [findQualifiedUsers], a user is among the
    qualified users exactly when the interaction sequence holds at least 20
    interactions of that user; with exactly 20 the user qualifies, with 19
    the user does not. *)
Theorem qualified_iff_count {SM DM : Type} (this : App SM DM) (u : intnum) :
  let this' := findQualifiedUsers (createMappings this) in
  let count := length (history u (interactions this)) in
  (u ∈ qualifiedUsers this' <-> 20 <= count)
  /\ (count = 20 -> u ∈ qualifiedUsers this')
  /\ (count = 19 -> u ∉ qualifiedUsers this').
Proof.
  intros this' count.
  assert (u ∈ qualifiedUsers this' <-> 20 <= count) as Hiff.
  { unfold this'. rewrite qualifiedUsers_findQualifiedUsers by apply keys_userTopRated_NoDup.
    unfold count. split.
    - intros (h & Hh & Hlen). apply get_userTopRated_Some in Hh as [_ ->].
      now rewrite sort_by_length in Hlen.
    - intros Hlen. eexists. split.
      + apply get_userTopRated_Some. split; [| reflexivity].
        intros Hnil. rewrite Hnil in Hlen. simpl in Hlen. lia.
      + now rewrite sort_by_length. }
  split; [exact Hiff |]. split.
  - intros Hc. apply Hiff. lia.
  - intros Hc Hin. apply Hiff in Hin. lia.
Qed.

(** ** The feature encoder *)

(** C6.  For a user of the users table, [getUserFeatures] returns a vector
    of length [2 + occupationVocab.size]; when the user's occupation is not
    in the vocabulary the part after the first two entries is all zeros, and
    nothing is thrown.  The vocabulary is one whose indices are below its
    size, which is what loading builds ([loadData_vocab_bounded]). *)
Theorem getUserFeatures_length {SM DM : Type} (this : App SM DM) (userId : intnum) (user : User) :
  vocab_bounded (occupationVocab this) ->
  JsMap.get userId (users this) = Some user ->
  exists features,
    getUserFeatures this userId = Ok features
    /\ length features = 2 + JsMap.size (occupationVocab this)
    /\ (JsMap.get (occupation user) (occupationVocab this) = None ->
        drop 2 features = replicate (JsMap.size (occupationVocab this)) (Some (Fin 0))).
Proof.
  intros Hb Hu. unfold getUserFeatures. rewrite Hu.
  destruct (JsMap.get (occupation user) (occupationVocab this)) as [index |] eqn:Ho.
  - eexists. split; [reflexivity |]. split; [| done].
    simpl. unfold array_set. rewrite length_replicate.
    apply Hb in Ho. rewrite decide_True by done.
    now rewrite length_insert, length_replicate.
  - eexists. split; [reflexivity |]. split; [| done].
    simpl. now rewrite length_replicate.
Qed.

(** C10.  For a user id without a record in the users table,
    [getUserFeatures] does not return a vector: reading [occupation] of the
    missing record throws a TypeError. *)
Theorem getUserFeatures_missing_user {SM DM : Type} (this : App SM DM) (userId : intnum) :
  JsMap.get userId (users this) = None ->
  getUserFeatures this userId = Throw (cannot_read "occupation").
Proof. intros Hu. unfold getUserFeatures. now rewrite Hu. Qed.

(** An index at or past the size would make the vector longer: the bound on
    the vocabulary is what the length rests on. *)
Lemma array_set_past_end_grows (n i : nat) :
  n <= i -> length (array_set (replicate n (Some (Fin 0))) i (Fin 1)) = S i.
Proof.
  intros Hi. unfold array_set. rewrite length_replicate.
  rewrite decide_False by lia.
  rewrite !length_app, !length_replicate. simpl. lia.
Qed.

(** *** The vocabulary that loading builds *)

Section Vocabulary.
Context {K : Type} `{EqDecision K}.

Lemma set_all_snoc (l : list K) (x : K) (m : JsMap.t K nat) :
  set_all (l ++ [x]) m = JsMap.set x (length l) (set_all l m).
Proof. unfold set_all. now rewrite indexed_snoc, foldl_app. Qed.

Lemma size_set_all (l : list K) (m : JsMap.t K nat) : JsMap.size m <= JsMap.size (set_all l m).
Proof.
  induction l as [| x l IH] using rev_ind; [done |].
  rewrite set_all_snoc. etransitivity; [exact IH | apply size_set_le].
Qed.

Lemma get_set_all_other (l : list K) (m : JsMap.t K nat) (k : K) :
  k ∉ l -> JsMap.get k (set_all l m) = JsMap.get k m.
Proof.
  induction l as [| x l IH] using rev_ind; intros Hk; [done |].
  rewrite set_all_snoc. rewrite not_elem_of_app, list_elem_of_singleton in Hk.
  destruct Hk as [Hk Hx]. rewrite get_set_ne by congruence. auto.
Qed.

Lemma get_set_all (l : list K) (m : JsMap.t K nat) (k : K) (i : nat) :
  NoDup l -> l !! i = Some k -> JsMap.get k (set_all l m) = Some i.
Proof.
  revert i. induction l as [| x l IH] using rev_ind; intros i Hnd Hl; [done |].
  apply NoDup_app in Hnd as (Hnd & Hx & _). rewrite set_all_snoc.
  destruct (decide (i < length l)) as [Hi | Hi].
  - rewrite lookup_app_l in Hl by done. rewrite get_set_ne; [now apply IH |].
    intros ->. apply (Hx k); [eapply list_elem_of_lookup_2, Hl |].
    now apply list_elem_of_singleton.
  - assert (i = length l) as ->.
    { apply lookup_lt_Some in Hl. rewrite length_app in Hl. simpl in Hl. lia. }
    rewrite lookup_app_r, Nat.sub_diag in Hl by done. injection Hl as ->.
    apply get_set_eq.
Qed.

Lemma length_le_size_set_all (l : list K) (m : JsMap.t K nat) :
  NoDup l -> length l <= JsMap.size (set_all l m).
Proof.
  intros Hnd. unfold JsMap.size. rewrite <- (length_map fst).
  apply submseteq_length, NoDup_submseteq; [done |].
  intros k Hk. apply list_elem_of_lookup in Hk as [i Hi].
  destruct (decide (k ∈ map fst (set_all l m))) as [Hin | Hout]; [done |].
  apply get_None in Hout. now rewrite (get_set_all l m k i) in Hout.
Qed.
End Vocabulary.

Lemma add_occupations_bounded (sorted : list field) (vocab : JsMap.t field nat) :
  NoDup sorted -> vocab_bounded vocab -> vocab_bounded (add_occupations sorted vocab).
Proof.
  intros Hnd Hb occ i Hg. change (add_occupations sorted vocab) with (set_all sorted vocab) in *.
  destruct (decide (occ ∈ sorted)) as [Hin | Hout].
  - apply list_elem_of_lookup in Hin as [k Hk].
    rewrite (get_set_all sorted vocab occ k) in Hg by done. injection Hg as <-.
    apply lookup_lt_Some in Hk.
    pose proof (length_le_size_set_all sorted vocab Hnd). lia.
  - rewrite get_set_all_other in Hg by done. apply Hb in Hg.
    pose proof (size_set_all sorted vocab). lia.
Qed.

(** ** loadData *)

Section Loading.
Context {SM DM : Type}.
Implicit Types this s : App SM DM.

Lemma set_items_same s : set_items (items s) s = s.
Proof. now destruct s. Qed.

Lemma set_users_same s : set_users (users s) s = s.
Proof. now destruct s. Qed.

(** An item line changes the items at most, whether it throws or not. *)
Lemma parseItemLine_frame (line : string) s :
  exists r items', parseItemLine line s = (r, set_items items' s).
Proof.
  unfold parseItemLine. destruct (split BAR line !! 1%nat) as [title |].
  - eexists _, _. reflexivity.
  - exists (Throw (cannot_read "match")), (items s). now rewrite set_items_same.
Qed.

Lemma forEach_parseItemLine_frame (lines : list string) s :
  exists r items', forEach parseItemLine lines s = (r, set_items items' s).
Proof.
  revert s. induction lines as [| line lines IH]; intros s; simpl.
  - exists (Ok tt), (items s). now rewrite set_items_same.
  - unfold bind. destruct (parseItemLine_frame line s) as ([[] | e] & items1 & ->).
    + destruct (IH (set_items items1 s)) as (r & items2 & ->). eexists _, _. reflexivity.
    + eexists _, _. reflexivity.
Qed.

(** A user line never throws; it changes the users at most. *)
Lemma parseUserLine_frame (line : string) (occupations : JsSet.t field) s :
  exists users',
    parseUserLine occupations line s
    = (Ok (JsSet.add (split BAR line !! 3%nat) occupations), set_users users' s).
Proof. eexists. reflexivity. Qed.

(** The user lines change the users at most, and the occupations they
    collect are distinct. *)
Lemma forEach_parseUserLine_frame (lines : list string) (occupations : JsSet.t field) s :
  exists occupations' users',
    forEach_with parseUserLine occupations lines s = (Ok occupations', set_users users' s)
    /\ (NoDup occupations -> NoDup occupations').
Proof.
  revert occupations s. induction lines as [| line lines IH]; intros occupations s; simpl.
  - exists occupations, (users s). now rewrite set_users_same.
  - unfold bind. destruct (parseUserLine_frame line occupations s) as (users1 & ->).
    destruct (IH (JsSet.add (split BAR line !! 3%nat) occupations) (set_users users1 s))
      as (occupations' & users' & -> & Hnd).
    eexists _, _. split; [reflexivity |].
    intros Ho. now apply Hnd, add_NoDup.
Qed.

Lemma loadData_try_Rejected (error : exn) this :
  loadData_try (Rejected error) this = (Throw error, this).
Proof. reflexivity. Qed.

Lemma loadData_try_Texts (a b c : string) this :
  loadData_try (Texts a b c) this
  = match forEach parseItemLine (split LF (trim b))
            (set_interactions (parseInteractions a) this) with
    | (Throw e, s1) => (Throw e, s1)
    | (Ok _, s1) =>
        match forEach_with parseUserLine [] (split LF (trim c)) s1 with
        | (Throw e, s2) => (Throw e, s2)
        | (Ok occupations, s2) => (Ok tt, finish_load occupations s2)
        end
    end.
Proof.
  unfold loadData_try, bind, ret, assign, read, updateStatus, set_trainDisabled. simpl.
  destruct (forEach parseItemLine _ _) as [[[] | e] s1]; [| reflexivity].
  destruct (forEach_with parseUserLine _ _ _) as [[occupations | e] s2]; reflexivity.
Qed.

Lemma loadData_eq (fetched : Fetched) this :
  loadData fetched this
  = match loadData_try fetched (with_status LoadingData this) with
    | (Ok _, s) => (Ok tt, s)
    | (Throw e, s) => (Ok tt, with_status (ErrorLoadingData (message e)) s)
    end.
Proof.
  unfold loadData, bind, try_catch, updateStatus, assign. simpl.
  fold (with_status LoadingData this).
  now destruct (loadData_try fetched (with_status LoadingData this)) as [[[] | e] s].
Qed.

(** The bound on the vocabulary is kept by every load, failed or not. *)
Lemma loadData_vocab_bounded (fetched : Fetched) this :
  vocab_bounded (occupationVocab this) ->
  vocab_bounded (occupationVocab (snd (loadData fetched this))).
Proof.
  intros Hb. rewrite loadData_eq. destruct fetched as [error | a b c].
  - rewrite loadData_try_Rejected. exact Hb.
  - rewrite loadData_try_Texts.
    destruct (forEach_parseItemLine_frame (split LF (trim b))
                (set_interactions (parseInteractions a) (with_status LoadingData this)))
      as ([[] | e] & items' & ->); [| exact Hb].
    match goal with
    | |- context [forEach_with parseUserLine [] ?l ?s1] =>
        destruct (forEach_parseUserLine_frame l [] s1) as (occupations & users' & -> & Hnd)
    end.
    unfold finish_load, createMappings. simpl. do 2 destruct (assign_indices _ _). simpl.
    apply add_occupations_bounded; [| exact Hb].
    rewrite (sort_by_perm default_compare occupations). apply Hnd, NoDup_nil_2.
Qed.

(** A load, failed or not, leaves the training guard as it is. *)
Lemma loadData_isTraining (fetched : Fetched) this :
  isTraining (snd (loadData fetched this)) = isTraining this.
Proof.
  rewrite loadData_eq. destruct fetched as [error | a b c].
  - now rewrite loadData_try_Rejected.
  - rewrite loadData_try_Texts.
    destruct (forEach_parseItemLine_frame (split LF (trim b))
                (set_interactions (parseInteractions a) (with_status LoadingData this)))
      as ([[] | e] & items' & ->); [| reflexivity].
    match goal with
    | |- context [forEach_with parseUserLine [] ?l ?s1] =>
        destruct (forEach_parseUserLine_frame l [] s1) as (occupations & users' & -> & _)
    end.
    unfold finish_load, createMappings. simpl. now do 2 destruct (assign_indices _ _).
Qed.

Lemma loaded_vocab_bounded this : loaded this -> vocab_bounded (occupationVocab this).
Proof.
  induction 1 as [| fetched this _ IH].
  - intros occ i [=].
  - now apply loadData_vocab_bounded.
Qed.
End Loading.

(** *** Fields that are not numbers *)

Lemma parseInt_not_numeric (s : string) : not_numeric s -> parseInt (Some s) = INaN.
Proof.
  destruct s as [| c rest]; [reflexivity |].
  intros (Hws & Hminus & Hplus & Hdigit).
  unfold parseInt, to_string, chars. simpl. rewrite Hws. simpl. rewrite Hminus, Hplus.
  assert (Ascii.eqb c "0" = false) as Hzero.
  { destruct (Ascii.eqb_spec c "0") as [-> | _]; [discriminate Hdigit | reflexivity]. }
  unfold strip_hex_prefix. destruct (list_ascii_of_string rest) as [| x l].
  - simpl. now rewrite Hdigit.
  - rewrite Hzero. simpl. now rewrite Hdigit.
Qed.

Lemma parseInt_undefined : parseInt None = INaN.
Proof. reflexivity. Qed.

(** *** Failing loads *)

Section LoadFailure.
Context {SM DM : Type}.
Implicit Types this s : App SM DM.

(** Whether the item lines throw, and what, does not depend on the object. *)
Lemma forEach_parseItemLine_outcome (lines : list string) s s' :
  fst (forEach parseItemLine lines s) = fst (forEach parseItemLine lines s').
Proof.
  revert s s'. induction lines as [| line lines IH]; intros s s'; simpl; [done |].
  unfold bind, parseItemLine at 1 3.
  destruct (split BAR line !! 1%nat) as [title |]; simpl; [apply IH | done].
Qed.

(** C3, as the code has it.  No interaction line is fatal: whether the
    [try] block throws is the same for any two interaction texts; every line
    up to the cap gives a record, kept in [interactions] whatever the line
    holds; an id field that is not a number gives [NaN] for that id; and a
    field that the line lacks is [NaN] in the record. *)
Theorem interaction_lines_never_fatal (a a' b c : string) this :
  fst (loadData_try (Texts a b c) this) = fst (loadData_try (Texts a' b c) this)
  /\ interactions (snd (loadData_try (Texts a b c) this))
     = map parseInteraction (take config.maxInteractions (split LF (trim a)))
  /\ (forall line field, split TAB line !! 0%nat = Some field -> not_numeric field ->
        userId (parseInteraction line) = INaN)
  /\ (forall line field, split TAB line !! 1%nat = Some field -> not_numeric field ->
        itemId (parseInteraction line) = INaN)
  /\ (forall line, split TAB line !! 1%nat = None ->
        itemId (parseInteraction line) = INaN)
  /\ (forall line, split TAB line !! 2%nat = None ->
        rating (parseInteraction line) = NaN)
  /\ (forall line, split TAB line !! 3%nat = None ->
        timestamp (parseInteraction line) = INaN).
Proof.
  split; [| split].
  - rewrite !loadData_try_Texts.
    pose proof (forEach_parseItemLine_outcome (split LF (trim b))
                  (set_interactions (parseInteractions a) this)
                  (set_interactions (parseInteractions a') this)) as Hout.
    destruct (forEach parseItemLine _ (set_interactions (parseInteractions a) this))
      as [[[] | e] s1];
      destruct (forEach parseItemLine _ (set_interactions (parseInteractions a') this))
        as [[[] | e'] s1']; simpl in Hout; try done.
    destruct (forEach_parseUserLine_frame (split LF (trim c)) [] s1) as (? & ? & -> & _).
    destruct (forEach_parseUserLine_frame (split LF (trim c)) [] s1') as (? & ? & -> & _).
    reflexivity.
  - rewrite loadData_try_Texts.
    destruct (forEach_parseItemLine_frame (split LF (trim b))
                (set_interactions (parseInteractions a) this))
      as ([[] | e] & items' & ->); [| reflexivity].
    match goal with
    | |- context [forEach_with parseUserLine [] ?l ?s1] =>
        destruct (forEach_parseUserLine_frame l [] s1) as (occupations & users' & -> & _)
    end.
    unfold finish_load, createMappings. simpl. do 2 destruct (assign_indices _ _).
    reflexivity.
  - split; [| split].
    + intros line field Hl Hf. unfold parseInteraction. simpl. rewrite Hl.
      now apply parseInt_not_numeric.
    + intros line field Hl Hf. unfold parseInteraction. simpl. rewrite Hl.
      now apply parseInt_not_numeric.
    + repeat split; intros line Hl; unfold parseInteraction; simpl; now rewrite Hl.
Qed.

End LoadFailure.

(** ** The training guard *)

Section TrainingFacts.
Context `{Tf}.
Implicit Types this : App Simple.t Deep.t.

(** While the flag is set a call settles at once, with the object as it
    was. *)
Lemma train_returns_at_once this :
  isTraining this = true -> train this = Settled (Ok tt) this.
Proof.
  intros Hguard. unfold train, async_bind, sync, read. simpl. now rewrite Hguard.
Qed.

(** Without the guard a call does start: the flag is set, the loss history
    is cleared and the simple model is built before anything can fail.
    With no interactions the call then throws and leaves the flag set. *)
Lemma train_starts this :
  isTraining this = false -> interactions this = [] ->
  exists this',
    train this = Settled (Throw (cannot_read "userId")) this'
    /\ isTraining this' = true
    /\ lossHistory this' = []
    /\ is_Some (simpleModel this').
Proof.
  intros Hguard Hnone. unfold train, async_bind, sync, read. simpl. rewrite Hguard.
  unfold train_setup, bind, assign, read, set_trainDisabled, updateStatus. simpl.
  rewrite Hnone. simpl. eexists. split; [reflexivity |]. simpl. eauto.
Qed.

(** *** No second run starts while one is under way *)

Lemma keeps_flag_ret {A : Type} (a : A) : keeps_flag (ret a).
Proof. now intros this. Qed.

Lemma keeps_flag_throw {A : Type} (e : exn) : keeps_flag (@throw _ _ A e).
Proof. now intros this. Qed.

Lemma keeps_flag_read {A : Type} (f : App Simple.t Deep.t -> A) : keeps_flag (read f).
Proof. now intros this. Qed.

Lemma keeps_flag_lift {A : Type} (f : App Simple.t Deep.t -> result A) : keeps_flag (lift f).
Proof. now intros this. Qed.

Lemma keeps_flag_assign (f : App Simple.t Deep.t -> App Simple.t Deep.t) :
  (forall this, isTraining (f this) = isTraining this) -> keeps_flag (assign f).
Proof. intros Hf this. apply Hf. Qed.

Lemma keeps_flag_bind {A B : Type} (c : M Simple.t Deep.t A) (k : A -> M Simple.t Deep.t B) :
  keeps_flag c -> (forall a, keeps_flag (k a)) -> keeps_flag (bind c k).
Proof.
  intros Hc Hk this. unfold bind. specialize (Hc this).
  destruct (c this) as [[a | e] this1]; simpl in *; [| exact Hc].
  now rewrite Hk.
Qed.

Lemma keeps_flag_simple_step batchUsers batchItems :
  keeps_flag (simple_step batchUsers batchItems).
Proof.
  apply keeps_flag_bind; [apply keeps_flag_read |]. intros [m |]; [| apply keeps_flag_throw].
  destruct (Simple.trainStep m batchUsers batchItems) as [loss m'].
  apply keeps_flag_bind; [now apply keeps_flag_assign | intros; apply keeps_flag_ret].
Qed.

Lemma keeps_flag_deep_step batchUsers userFeatures batchItems itemFeatures :
  keeps_flag (deep_step batchUsers userFeatures batchItems itemFeatures).
Proof.
  apply keeps_flag_bind; [apply keeps_flag_read |]. intros [m |]; [| apply keeps_flag_throw].
  destruct (Deep.trainStep m batchUsers userFeatures batchItems itemFeatures) as [loss m'].
  apply keeps_flag_bind; [now apply keeps_flag_assign | intros; apply keeps_flag_ret].
Qed.

Lemma flag_held_sync {A : Type} (c : M Simple.t Deep.t A) this :
  keeps_flag c -> isTraining this = true -> flag_held (sync c this).
Proof.
  intros Hc Hthis. unfold sync. specialize (Hc this).
  destruct (c this) as [r this1]. simpl in *. congruence.
Qed.

Lemma flag_held_await {A : Type} (c : M Simple.t Deep.t A) this :
  keeps_flag c -> isTraining this = true -> flag_held (await c this).
Proof.
  intros Hc Hthis. unfold await. specialize (Hc this).
  destruct (c this) as [r this1]. simpl in *. split; [congruence | auto].
Qed.

Lemma flag_held_and_then {A B : Type} (p : Run Simple.t Deep.t A)
    (k : A -> Async Simple.t Deep.t B) :
  flag_held p -> (forall a this, isTraining this = true -> flag_held (k a this)) ->
  flag_held (and_then p k).
Proof.
  intros Hp Hk. induction p as [[a | e] this | this resume IH]; simpl in *.
  - now apply Hk.
  - exact Hp.
  - destruct Hp as [Hthis Hresume]. split; [exact Hthis |].
    intros this' Hthis'. apply IH, Hresume, Hthis'.
Qed.

Lemma flag_held_bind {A B : Type} (c : Async Simple.t Deep.t A)
    (k : A -> Async Simple.t Deep.t B) this :
  flag_held (c this) -> (forall a this', isTraining this' = true -> flag_held (k a this')) ->
  flag_held (async_bind c k this).
Proof. apply flag_held_and_then. Qed.

Lemma flag_held_for {A B : Type} (f : B -> A -> Async Simple.t Deep.t B) (l : list A) :
  (forall b x this, isTraining this = true -> flag_held (f b x this)) ->
  forall b this, isTraining this = true -> flag_held (async_for f b l this).
Proof.
  intros Hf. induction l as [| x l IH]; intros b this Hthis; simpl.
  - exact Hthis.
  - apply flag_held_bind; [now apply Hf | intros; now apply IH].
Qed.

Ltac flag_step :=
  apply flag_held_bind;
  [ first [ apply flag_held_await | apply flag_held_sync ]; [| assumption]
  | intros ? ? ? ].

Lemma flag_held_train_batch userIndices itemIndices numBatches epoch sums batch this :
  isTraining this = true ->
  flag_held (train_batch userIndices itemIndices numBatches epoch sums batch this).
Proof.
  intros Hthis. unfold train_batch. destruct sums as [epochLossSimple epochLossDeep].
  flag_step; [apply keeps_flag_simple_step |].
  flag_step; [apply keeps_flag_read |].
  flag_step; [apply keeps_flag_read |].
  flag_step; [apply keeps_flag_lift |].
  flag_step; [apply keeps_flag_lift |].
  flag_step; [apply keeps_flag_deep_step |].
  flag_step; [now apply keeps_flag_assign |].
  flag_step; [destruct (_ =? _)%nat; [now apply keeps_flag_assign | apply keeps_flag_ret] |].
  flag_step; [apply keeps_flag_ret |].
  apply flag_held_sync; [apply keeps_flag_ret | assumption].
Qed.

Lemma flag_held_train_epoch userIndices itemIndices numBatches u epoch this :
  isTraining this = true ->
  flag_held (train_epoch userIndices itemIndices numBatches u epoch this).
Proof.
  intros Hthis. unfold train_epoch. apply flag_held_bind.
  - apply flag_held_for; [| exact Hthis]. intros. now apply flag_held_train_batch.
  - intros [epochLossSimple epochLossDeep] this' Hthis'.
    apply flag_held_sync; [now apply keeps_flag_assign | exact Hthis'].
Qed.

(** What [train_setup] leaves has the flag set, whether it throws or not. *)
Lemma train_setup_sets_flag this : isTraining (snd (train_setup this)) = true.
Proof.
  unfold train_setup, bind, assign, read, lift, ret, throw, set_trainDisabled, updateStatus.
  simpl. destruct (interactions this !! 0%nat) as [i |]; simpl; [| reflexivity].
  destruct (getUserFeatures _ (userId i)); simpl; [| reflexivity].
  destruct (JsMap.get (itemId i) (items this)); reflexivity.
Qed.

(** [train_finish] does not suspend. *)
Lemma sync_settles {A : Type} (c : M Simple.t Deep.t A) this :
  exists r this', sync c this = Settled r this'.
Proof. unfold sync. destruct (c this) as [r this']. eauto. Qed.

Lemma guarded_and_then {A B : Type} (p : Run Simple.t Deep.t A)
    (k : A -> Async Simple.t Deep.t B) :
  flag_held p -> (forall a this, isTraining this = true -> guarded (k a this)) ->
  guarded (and_then p k).
Proof.
  intros Hp Hk. induction p as [[a | e] this | this resume IH]; simpl in *.
  - now apply Hk.
  - exact I.
  - destruct Hp as [Hthis Hresume]. split; [exact Hthis |].
    intros this' Hthis'. apply IH, Hresume, Hthis'.
Qed.

(** A run of [train] that got past the guard has the flag set at every
    point where it is suspended, provided the flag is still set when it is
    resumed; and it is, since a load leaves the flag as it is
    ([loadData_isTraining]) and a call to [train] made at such a point
    returns at once without writing anything.  So no second run starts while
    one is under way. *)
Lemma run_keeps_flag this : isTraining this = false -> guarded (train this).
Proof.
  intros Hguard. unfold train, async_bind. unfold sync at 1, read.
  cbn [and_then]. rewrite Hguard.
  pose proof (train_setup_sets_flag this) as Hflag.
  unfold sync at 1. destruct (train_setup this) as [[[userIndices itemIndices] | e] this1];
    cbn [and_then snd] in *; [| exact I].
  apply guarded_and_then.
  - apply flag_held_for; [| exact Hflag]. intros. now apply flag_held_train_epoch.
  - intros a this2 _. destruct (sync_settles train_finish this2) as (r & this3 & ->). exact I.
Qed.

(** C9.  While [isTraining] is set, a call to [train] returns at once: it
    settles without suspending and without an exception, and the object is
    exactly as it was, so no model was initialised, the loss history was not
    cleared and no training step ran.  And a run that got past the guard
    keeps the flag set wherever it is suspended, so a call made while it is
    under way is such a call: two runs never overlap. *)
Theorem train_guard this :
  (isTraining this = true -> train this = Settled (Ok tt) this)
  /\ (isTraining this = false -> guarded (train this)).
Proof. split; [apply train_returns_at_once | apply run_keeps_flag]. Qed.

(** ** Ranking *)

(** Scoring reads the object and leaves it as it is. *)
Lemma score_items_state (model : Model) (userId : intnum) (userIndex : option nat) this :
  snd (score_items model userId userIndex this) = this.
Proof.
  unfold score_items, bind, read, lift, ret. destruct model as [m | m]; simpl.
  - reflexivity.
  - destruct (getUserFeatures this userId); simpl; [| reflexivity].
    destruct (map_result _ _); reflexivity.
Qed.

(** With the simple model scoring never throws. *)
Lemma score_items_simple (m : Simple.t) (userId : intnum) (userIndex : option nat) this :
  exists scoreData, score_items (SimpleModel m) userId userIndex this = (Ok scoreData, this).
Proof. eexists. reflexivity. Qed.


Lemma rank_eq this scoreData ratedItemIds :
  rank this scoreData ratedItemIds
  = take 10 (sort_by compare_score (candidates this ratedItemIds [] (indexed scoreData))).
Proof. reflexivity. Qed.

Lemma sort_by_score_sorted (l : list Candidate.t) :
  Forall (fun c => is_number (Candidate.score c)) l ->
  StronglySorted score_order (sort_by compare_score l).
Proof.
  intros Hl.
  assert (forall a b, is_number (Candidate.score a) -> is_number (Candidate.score b) ->
            (precedes compare_score a b <-> score_order a b)) as Hprec.
  { intros a b Ha Hb. unfold precedes, compare_score, score_order. now apply positive_sub. }
  apply (StronglySorted_weaken (fun c => is_number (Candidate.score c))
           (precedes compare_score)).
  - intros a b Ha Hb. now apply Hprec.
  - now rewrite (sort_by_perm compare_score l).
  - apply (sort_by_sorted compare_score (fun c => is_number (Candidate.score c)));
      [| | exact Hl].
    + intros a b Ha Hb Hpos. apply Hprec; [done | done |].
      destruct (number_le_total _ _ Ha Hb) as [Hab | Hba]; [exact Hab |].
      apply Hprec in Hba; [| done | done]. unfold precedes in Hba. congruence.
    + intros a b c Ha Hb Hc Hab Hbc. apply Hprec in Hab, Hbc; try done.
      apply Hprec; [done | done |]. unfold score_order in *.
      eapply number_le_trans; eauto.
Qed.

End TrainingFacts.

(* ===================================================================== *)
(** * Part IV.  The program run on small inputs                           *)
(* ===================================================================== *)

Section Runs.
Import Sample.

(** The scenario of the specification: three interactions give two users and
    two items, and the history of user 1 is the item rated 5, then the item
    rated 3. *)
Example scenario_three_interactions :
  let this := snd (loadData (Texts interactionsText itemsText usersText) fresh) in
  JsMap.size (userMap this) = 2%nat
  /\ JsMap.size (itemMap this) = 2%nat
  /\ JsMap.get (Int 1) (userTopRated this)
     = Some [interaction 1 1 5 100; interaction 1 2 3 101].
Proof. vm_compute. repeat split. Qed.

(** The scenario of the specification: the occupations engineer, artist,
    engineer give the vocabulary artist = 0, engineer = 1. *)
Example scenario_vocabulary :
  let text := lines ["1|30|M|engineer|1"; "2|40|F|artist|2"; "3|50|M|engineer|3"] in
  occupationVocab (snd (loadData (Texts interactionsText itemsText text) fresh))
  = [(Some "artist", 0%nat); (Some "engineer", 1%nat)].
Proof. vm_compute. reflexivity. Qed.

(** A whole training run on the three sample interactions, with nothing
    else touching the object: it ends without an exception, with the guard
    released, the test button enabled and one loss recorded for each of the
    15 epochs' single batch. *)
Example scenario_training_run :
  let loaded := snd (loadData (Texts interactionsText itemsText usersText)
                       (new_MovieLensApp Simple.t Deep.t true true)) in
  let '(r, this) := undisturbed (train loaded) in
  r = Ok tt
  /\ isTraining this = false
  /\ testDisabled (dom this) = false
  /\ length (lossHistory this) = 15%nat
  /\ status (dom this) = ComputingVisualization.
Proof. vm_compute. repeat split. Qed.




(** C6 on a user whose occupation the vocabulary lacks. *)
Lemma getUserFeatures_length_witness :
  exists features,
    getUserFeatures unknown_occupation (Int 1) = Ok features
    /\ length features = 4%nat
    /\ drop 2 features = [Some (Fin 0); Some (Fin 0)].
Proof.
  destruct (getUserFeatures_length unknown_occupation (Int 1)
              {| age := Fin (24 # 100); gender := Fin 1; occupation := Some "pilot" |})
    as (features & Hrun & Hlen & Hzero).
  - intros occ i Hg. simpl in Hg. repeat case_decide; simplify_eq; simpl; lia.
  - reflexivity.
  - exists features. split; [exact Hrun |]. split; [exact Hlen |].
    apply Hzero. reflexivity.
Defined.

(** C8 on a sequence with 20 interactions of user 1 and 19 of user 2. *)
Lemma qualified_iff_count_witness :
  let this := findQualifiedUsers (createMappings (set_interactions twenty_and_nineteen fresh)) in
  Int 1 ∈ qualifiedUsers this /\ Int 2 ∉ qualifiedUsers this.
Proof.
  pose proof (qualified_iff_count (set_interactions twenty_and_nineteen fresh) (Int 1)) as H1.
  pose proof (qualified_iff_count (set_interactions twenty_and_nineteen fresh) (Int 2)) as H2.
  split.
  - apply H1. vm_compute. reflexivity.
  - apply H2. vm_compute. reflexivity.
Defined.

(** C9 on an object whose guard is set. *)
Lemma train_guard_witness :
  train (set_isTraining true trained) = Settled (Ok tt) (set_isTraining true trained).
Proof. apply (proj1 (train_guard (set_isTraining true trained))). reflexivity. Defined.

(** C10 on the fresh object, which has no user 7. *)
Lemma getUserFeatures_missing_user_witness :
  getUserFeatures fresh (Int 7) = Throw (cannot_read "occupation").
Proof. apply getUserFeatures_missing_user. reflexivity. Defined.

(** C3, refuted: an interaction text with a line of two fields, neither a
    number, loads with no exception; the line is kept as a record whose
    fields are all [NaN], and the status reports two interactions. *)
Lemma malformed_interaction_line_loads :
  let run := loadData_try (Texts malformedInteractionsText itemsText usersText)
               (with_status LoadingData fresh) in
  fst run = Ok tt
  /\ interactions (snd run)
     = [interaction 1 2 3 4;
        {| userId := INaN; itemId := INaN; rating := NaN; timestamp := INaN |}]
  /\ status (dom (snd run)) = Loaded 2 2 2.
Proof. vm_compute. repeat split. Qed.



(** After a second load of other data the user index is no longer one to
    one: the entry of a user that is gone stays, next to the new entry with
    the same index.  The round trip of C2 holds all the same
    ([createMappings_round_trip]). *)
Lemma reload_keeps_old_indices :
  let text := lines [join TAB ["2"; "1"; "4"; "102"]] in
  let twice := snd (loadData (Texts text itemsText usersText) once) in
  JsMap.get (Int 1) (userMap twice) = Some 0%nat
  /\ JsMap.get (Int 2) (userMap twice) = Some 0%nat
  /\ map userId (interactions twice) = [Int 2].
Proof. vm_compute. repeat split. Qed.

End Runs.

(* ===================================================================== *)
(** * Part V.  Further properties of the program                          *)
(* ===================================================================== *)

(** ** The indexer *)

Section IndexerFacts.
Context {SM DM : Type}.
Implicit Types this : App SM DM.







(** X2.  Whatever the index maps held before, after [createMappings] every
    interaction's user id and item id has a dense index, and the reverse map
    takes that index back to the id. *)
Theorem interaction_ids_round_trip this (i : Interaction) :
  i ∈ interactions this ->
  (exists k, JsMap.get (userId i) (userMap (createMappings this)) = Some k
             /\ JsMap.get k (reverseUserMap (createMappings this)) = Some (userId i))
  /\ (exists k, JsMap.get (itemId i) (itemMap (createMappings this)) = Some k
                /\ JsMap.get k (reverseItemMap (createMappings this)) = Some (itemId i)).
Proof. apply createMappings_round_trip. Qed.

(** X3.  Running [createMappings] a second time on the same interactions,
    as a reload of unchanged data does, leaves the four index maps exactly
    as the first run built them: no index moves and none is added. *)
Theorem reload_of_same_data_keeps_indices this :
  index_maps_empty this ->
  let once := createMappings this in
  let twice := createMappings (set_interactions (interactions this) once) in
  userMap twice = userMap once /\ reverseUserMap twice = reverseUserMap once
  /\ itemMap twice = itemMap once /\ reverseItemMap twice = reverseItemMap once.
Proof. apply createMappings_again. Qed.

(** *** Histories *)

Lemma keys_push_interaction (m : JsMap.t intnum (list Interaction)) (i : Interaction) :
  JsMap.keys (push_interaction m i) = JsSet.add (userId i) (JsMap.keys m).
Proof.
  unfold push_interaction, JsSet.add, JsSet.has.
  destruct (JsMap.has (userId i) m) eqn:Hhas.
  - apply has_true in Hhas as Hsome. destruct Hsome as [array Harray]. rewrite Harray.
    rewrite keys_set_present by eauto.
    rewrite bool_decide_eq_true_2; [done |].
    destruct (decide (userId i ∈ JsMap.keys m)) as [Hin | Hout]; [done |].
    apply get_None in Hout. congruence.
  - rewrite get_set_eq. rewrite keys_set_present by (rewrite get_set_eq; eauto).
    rewrite keys_set, Hhas.
    rewrite bool_decide_eq_false_2; [done |].
    apply get_None. unfold JsMap.has in Hhas. now destruct (JsMap.get (userId i) m).
Qed.

Lemma keys_grouped (l : list Interaction) (m : JsMap.t intnum (list Interaction)) :
  JsMap.keys (foldl push_interaction m l)
  = foldl (fun s x => JsSet.add x s) (JsMap.keys m) (map userId l).
Proof.
  revert m. induction l as [| i l IH]; intros m; simpl; [done |].
  now rewrite IH, keys_push_interaction.
Qed.

Lemma keys_userTopRated this :
  JsMap.keys (userTopRated (createMappings this)) = JsSet.from (map userId (interactions this)).
Proof. now rewrite userTopRated_createMappings, keys_map_values, keys_grouped. Qed.

Lemma values_set_push {V : Type} (m : JsMap.t intnum (list V)) (k : intnum) (v : list V) (x : V) :
  JsMap.get k m = Some v ->
  Permutation (concat (JsMap.values (JsMap.set k (v ++ [x]) m))) (concat (JsMap.values m) ++ [x]).
Proof.
  unfold JsMap.values. induction m as [| [k' v'] m IH]; simpl; [done |].
  destruct (decide (k' = k)) as [-> | Hne]; simpl.
  - intros [= ->]. rewrite <- !app_assoc. apply Permutation_app_head, Permutation_app_comm.
  - intros Hg. rewrite IH by done. now rewrite app_assoc.
Qed.

Lemma values_push_interaction (m : JsMap.t intnum (list Interaction)) (i : Interaction) :
  Permutation (concat (JsMap.values (push_interaction m i))) (concat (JsMap.values m) ++ [i]).
Proof.
  unfold push_interaction. destruct (JsMap.has (userId i) m) eqn:Hhas.
  - apply has_true in Hhas as [array Harray]. rewrite Harray. now apply values_set_push.
  - rewrite get_set_eq. rewrite (values_set_push _ _ [] i) by apply get_set_eq.
    apply Permutation_app_tail. rewrite set_fresh.
    + unfold JsMap.values. rewrite map_app, concat_app. simpl. now rewrite app_nil_r.
    + unfold JsMap.has in Hhas. now destruct (JsMap.get (userId i) m).
Qed.

Lemma values_grouped (l : list Interaction) (m : JsMap.t intnum (list Interaction)) :
  Permutation (concat (JsMap.values (foldl push_interaction m l))) (concat (JsMap.values m) ++ l).
Proof.
  revert m. induction l as [| i l IH]; intros m; simpl.
  - now rewrite app_nil_r.
  - rewrite IH, values_push_interaction, <- app_assoc. done.
Qed.

Lemma values_sorted {V : Type} (cmp : V -> V -> number) (m : JsMap.t intnum (list V)) :
  Permutation (concat (JsMap.values (map (fun '(k, v) => (k, sort_by cmp v)) m)))
              (concat (JsMap.values m)).
Proof.
  unfold JsMap.values. induction m as [| [k v] m IH]; simpl; [done |].
  now rewrite IH, (sort_by_perm cmp v).
Qed.

(** X4.  The history that [createMappings] keeps for a user holds exactly
    that user's interactions, each as often as the sequence has it, and is
    never empty; a user id has no history exactly when no interaction of
    the sequence carries it. *)
Theorem history_holds_users_interactions this (u : intnum) :
  (forall h, JsMap.get u (userTopRated (createMappings this)) = Some h ->
     Permutation h (history u (interactions this))
     /\ h <> []
     /\ Forall (fun i => userId i = u) h)
  /\ (JsMap.get u (userTopRated (createMappings this)) = None
      <-> u ∉ map userId (interactions this)).
Proof.
  split.
  - intros h Hg. apply get_userTopRated_Some in Hg as [Hne ->].
    assert (Permutation (sort_by compare_history (history u (interactions this)))
                        (history u (interactions this))) as Hp by apply sort_by_perm.
    split; [exact Hp |]. split.
    + intros Hnil. rewrite Hnil in Hp. apply Permutation_nil in Hp. done.
    + rewrite Hp. unfold history. apply Forall_forall. intros i Hi.
      now apply list_elem_of_filter in Hi as [Hu _].
  - rewrite get_None, keys_userTopRated. now rewrite from_elem_of.
Qed.

(** X5.  The histories partition the interaction sequence: taken together
    they hold every interaction exactly once. *)
Theorem histories_partition_interactions this :
  Permutation (concat (JsMap.values (userTopRated (createMappings this)))) (interactions this).
Proof.
  rewrite userTopRated_createMappings, values_sorted, values_grouped. done.
Qed.

(** *** Qualified users *)

Lemma qualified_foldl_eq (m : list (intnum * list Interaction)) (acc : list intnum) :
  foldl (fun qualified '(userId, interactions) =>
           if bool_decide (20 <= length interactions) then qualified ++ [userId]
           else qualified) acc m
  = acc ++ map fst (filter (fun p => 20 <= length p.2) m).
Proof.
  revert acc. induction m as [| [k l] m IH]; intros acc.
  - simpl. now rewrite app_nil_r.
  - rewrite filter_cons. cbn [foldl snd]. rewrite IH. case_bool_decide as Hlen.
    + rewrite decide_True by done. simpl. now rewrite <- app_assoc.
    + now rewrite decide_False by done.
Qed.

Lemma filter_entries_by_key {V : Type} (P : intnum * V -> Prop) (Q : intnum -> Prop)
    `{forall p, Decision (P p)} `{forall k, Decision (Q k)} (m : list (intnum * V)) :
  (forall k v, (k, v) ∈ m -> (P (k, v) <-> Q k)) ->
  map fst (filter P m) = filter Q (map fst m).
Proof.
  induction m as [| [k v] m IH]; intros HPQ; simpl; [done |].
  rewrite !filter_cons. simpl.
  assert (P (k, v) <-> Q k) as Hkv by (apply HPQ, list_elem_of_here).
  assert (map fst (filter P m) = filter Q (map fst m)) as Hrest.
  { apply IH. intros k' v' Hin. apply HPQ. now apply list_elem_of_further. }
  destruct (decide (P (k, v))) as [Hp | Hp]; destruct (decide (Q k)) as [Hq | Hq];
    simpl; try tauto; now rewrite Hrest.
Qed.

(** X6.  After [createMappings] and [findQualifiedUsers] the qualified
    users are the users with at least 20 interactions, listed once each in
    the order in which the users first appear in the interaction sequence;
    what an earlier call had listed is gone. *)
Theorem qualifiedUsers_in_order_of_appearance this :
  qualifiedUsers (findQualifiedUsers (createMappings this))
  = filter (fun u => 20 <= length (history u (interactions this)))
           (JsSet.from (map userId (interactions this)))
  /\ NoDup (qualifiedUsers (findQualifiedUsers (createMappings this))).
Proof.
  assert (qualifiedUsers (findQualifiedUsers (createMappings this))
          = filter (fun u => 20 <= length (history u (interactions this)))
                   (JsSet.from (map userId (interactions this)))) as Heq.
  { unfold findQualifiedUsers. simpl. rewrite qualified_foldl_eq. simpl.
    rewrite <- keys_userTopRated. unfold JsMap.keys.
    apply filter_entries_by_key. intros k v Hin. simpl.
    apply elem_of_get in Hin; [| apply keys_userTopRated_NoDup].
    apply get_userTopRated_Some in Hin as [_ ->]. now rewrite sort_by_length. }
  split; [exact Heq |]. rewrite Heq. apply NoDup_filter, from_NoDup.
Qed.

(** X7.  Whatever the index maps held before, every user that
    [findQualifiedUsers] lists after [createMappings] has a dense index that
    the reverse map takes back to the user, and a history of at least 20
    interactions: what [test] looks up for the user it draws is there. *)
Theorem qualified_user_has_index_and_history this (u : intnum) :
  u ∈ qualifiedUsers (findQualifiedUsers (createMappings this)) ->
  exists k h,
    JsMap.get u (userMap (findQualifiedUsers (createMappings this))) = Some k
    /\ JsMap.get k (reverseUserMap (findQualifiedUsers (createMappings this))) = Some u
    /\ JsMap.get u (userTopRated (findQualifiedUsers (createMappings this))) = Some h
    /\ 20 <= length h.
Proof.
  intros Hq.
  apply qualifiedUsers_findQualifiedUsers in Hq as (h & Hh & Hlen);
    [| apply keys_userTopRated_NoDup].
  assert (u ∈ map userId (interactions this)) as Hin.
  { destruct (decide (u ∈ map userId (interactions this))) as [? | Hout]; [done |].
    rewrite <- from_elem_of, <- keys_userTopRated in Hout. apply get_None in Hout. congruence. }
  apply list_elem_of_fmap in Hin as (i & -> & Hi).
  destruct (createMappings_round_trip this i Hi) as [(k & Hk & Hback) _].
  exists k, h. simpl. auto.
Qed.

End IndexerFacts.

(** ** The feature encoder *)

Section EncoderFacts.
Context {SM DM : Type}.
Implicit Types this s : App SM DM.

(** X8.  For a user whose occupation has index [k] in a vocabulary of
    bounded indices, [getUserFeatures] returns the age, the gender and a
    one-hot vector of the vocabulary's width: 1 at position [k], 0 at every
    other position. *)
Theorem getUserFeatures_one_hot this (userId : intnum) (user : User) (k : nat) :
  vocab_bounded (occupationVocab this) ->
  JsMap.get userId (users this) = Some user ->
  JsMap.get (occupation user) (occupationVocab this) = Some k ->
  getUserFeatures this userId
  = Ok (Some (age user) :: Some (gender user)
          :: one_hot (JsMap.size (occupationVocab this)) k)
  /\ forall j, j < JsMap.size (occupationVocab this) ->
       one_hot (JsMap.size (occupationVocab this)) k !! j
       = Some (Some (if decide (j = k) then Fin 1 else Fin 0)).
Proof.
  intros Hb Hu Ho. split.
  - unfold getUserFeatures, one_hot, array_set. rewrite Hu, Ho.
    rewrite length_replicate. apply Hb in Ho. now rewrite decide_True.
  - intros j Hj. unfold one_hot. destruct (decide (j = k)) as [-> | Hne].
    + apply list_lookup_insert_eq. now rewrite length_replicate.
    + rewrite list_lookup_insert_ne by done. now apply lookup_replicate_2.
Qed.

Lemma set_all_keeps {K : Type} `{EqDecision K} (l : list K) (m : JsMap.t K nat) (k : K) :
  NoDup l -> is_Some (JsMap.get k m) \/ k ∈ l -> is_Some (JsMap.get k (set_all l m)).
Proof.
  intros Hnd Hk. destruct (decide (k ∈ l)) as [Hin | Hout].
  - apply list_elem_of_lookup in Hin as [i Hi]. rewrite (get_set_all l m k i) by done. eauto.
  - rewrite get_set_all_other by done. tauto.
Qed.

(** What the user lines leave: the users they wrote have a gender flag and
    an occupation among those collected; the others are as they were. *)
Lemma user_lines_collect (lines : list string) (occupations : JsSet.t field) s :
  exists occupations' users',
    forEach_with parseUserLine occupations lines s = (Ok occupations', set_users users' s)
    /\ (NoDup occupations -> NoDup occupations')
    /\ (forall o, o ∈ occupations -> o ∈ occupations')
    /\ (forall uid u, JsMap.get uid users' = Some u ->
          JsMap.get uid (users s) = Some u
          \/ (gender_flag u /\ occupation u ∈ occupations')).
Proof.
  revert occupations s. induction lines as [| line lines IH]; intros occupations s; simpl.
  - exists occupations, (users s). rewrite set_users_same. auto.
  - unfold bind at 1. unfold parseUserLine at 1, bind, assign, ret. simpl.
    match goal with
    | |- context [forEach_with parseUserLine ?o lines (set_users ?us s)] =>
        destruct (IH o (set_users us s)) as (occupations' & users' & Hrun & Hnd & Hsub & Hus);
        set (written := us) in *
    end.
    rewrite Hrun. exists occupations', users'. split; [reflexivity |]. split; [| split].
    + intros Ho. now apply Hnd, add_NoDup.
    + intros o Ho. apply Hsub, add_elem_of. auto.
    + intros uid u Hu. destruct (Hus uid u Hu) as [Hold | Hnew]; [| auto].
      simpl in Hold. unfold written in Hold. rewrite get_set in Hold.
      destruct (decide (parseInt (split BAR line !! 0%nat) = uid)) as [_ | _]; [| auto].
      injection Hold as <-. right. split.
      * unfold gender_flag. simpl. destruct (decide (_ = Some "M")); auto.
      * simpl. apply Hsub, add_elem_of. auto.
Qed.

Lemma loadData_users_encodable (fetched : Fetched) this :
  users_encodable this -> users_encodable (snd (loadData fetched this)).
Proof.
  intros Hok. rewrite loadData_eq. destruct fetched as [error | a b c].
  - now rewrite loadData_try_Rejected.
  - rewrite loadData_try_Texts.
    destruct (forEach_parseItemLine_frame (split LF (trim b))
                (set_interactions (parseInteractions a) (with_status LoadingData this)))
      as ([[] | e] & items' & ->); [| exact Hok].
    match goal with
    | |- context [forEach_with parseUserLine [] ?l ?s1] =>
        destruct (user_lines_collect l [] s1)
          as (occupations & users' & -> & Hnd & _ & Hus)
    end.
    specialize (Hnd (NoDup_nil_2)).
    intros uid u Hu.
    assert (JsMap.get uid users' = Some u) as Hu'.
    { revert Hu. unfold finish_load, createMappings. simpl.
      now do 2 destruct (assign_indices _ _). }
    assert (forall o,
              is_Some (JsMap.get o (occupationVocab this)) \/ o ∈ occupations ->
              is_Some (JsMap.get o (occupationVocab
                 (finish_load occupations
                    (set_users users'
                       (set_items items'
                          (set_interactions (parseInteractions a)
                             (with_status LoadingData this)))))))) as Hvocab.
    { intros o Ho. unfold finish_load, createMappings. simpl.
      do 2 destruct (assign_indices _ _). simpl.
      change (add_occupations ?l ?m) with (set_all l m).
      apply set_all_keeps.
      - now rewrite (sort_by_perm default_compare occupations).
      - destruct Ho as [? | Ho]; [auto | right].
        now rewrite (sort_by_perm default_compare occupations). }
    destruct (Hus uid u Hu') as [Hold | [Hflag Hocc]].
    + destruct (Hok uid u Hold) as [Hflag Hsome]. split; [exact Hflag |]. apply Hvocab. auto.
    + split; [exact Hflag |]. apply Hvocab. auto.
Qed.

Lemma loaded_users_encodable this : loaded this -> users_encodable this.
Proof.
  induction 1 as [| fetched this _ IH].
  - intros uid u [=].
  - now apply loadData_users_encodable.
Qed.

(** X9.  In every object that the constructor and any number of loads lead
    to, each user of the users table has gender 0 or 1 and an occupation
    that the vocabulary holds, so [getUserFeatures] encodes the user as the
    age, the gender and a one-hot vector with exactly one 1: the branch for
    an unknown occupation is never taken. *)
Theorem loaded_user_is_encoded this (userId : intnum) (user : User) :
  loaded this ->
  JsMap.get userId (users this) = Some user ->
  (gender user = Fin 0 \/ gender user = Fin 1)
  /\ exists k,
       k < JsMap.size (occupationVocab this)
       /\ JsMap.get (occupation user) (occupationVocab this) = Some k
       /\ getUserFeatures this userId
          = Ok (Some (age user) :: Some (gender user)
                  :: one_hot (JsMap.size (occupationVocab this)) k).
Proof.
  intros Hloaded Hu.
  destruct (loaded_users_encodable this Hloaded userId user Hu) as [Hflag [k Hk]].
  pose proof (loaded_vocab_bounded this Hloaded) as Hb.
  split; [exact Hflag |]. exists k. split; [now apply Hb in Hk |]. split; [exact Hk |].
  unfold getUserFeatures, one_hot, array_set. rewrite Hu, Hk.
  rewrite length_replicate. apply Hb in Hk. now rewrite decide_True.
Qed.

End EncoderFacts.

(** ** The loader *)

Section LoaderFacts.
Context {SM DM : Type}.
Implicit Types this s : App SM DM.

Lemma split_chars_first (sep : ascii) (cur l : list ascii) :
  is_Some (split_chars sep cur l !! 0%nat).
Proof.
  revert cur. induction l as [| c l IH]; intros cur; simpl; [eauto |].
  destruct (Ascii.eqb c sep); simpl; eauto.
Qed.

(** A second field exists exactly when the separator occurs. *)
Lemma split_chars_second (sep : ascii) (cur l : list ascii) :
  is_Some (split_chars sep cur l !! 1%nat) <-> sep ∈ l.
Proof.
  revert cur. induction l as [| c l IH]; intros cur; simpl.
  - rewrite elem_of_nil. split; [intros [? [=]] | done].
  - rewrite elem_of_cons. destruct (Ascii.eqb_spec c sep) as [-> | Hne]; simpl.
    + split; [auto | intros _; apply split_chars_first].
    + rewrite IH. split; [auto | intros [-> | ?]; [done | auto]].
Qed.

Lemma title_field_iff (line : string) :
  is_Some (split BAR line !! 1%nat) <-> has_separator line.
Proof. apply split_chars_second. Qed.

Lemma item_lines_outcome (lines : list string) s :
  (Forall has_separator lines -> fst (forEach parseItemLine lines s) = Ok tt)
  /\ (~ Forall has_separator lines ->
      fst (forEach parseItemLine lines s) = Throw (cannot_read "match")).
Proof.
  revert s. induction lines as [| line lines IH]; intros s; simpl.
  - split; [done | intros Hn; destruct Hn; constructor].
  - unfold bind, parseItemLine at 1 3.
    destruct (split BAR line !! 1%nat) as [title |] eqn:Htitle; simpl.
    + assert (has_separator line) as Hsep by (apply title_field_iff; eauto).
      destruct (IH (set_items
                      (JsMap.set (parseInt (split BAR line !! 0%nat))
                         {| title := trim (remove_year title);
                            year := match match_year title with
                                    | Some digits => Some (parseInt (Some digits))
                                    | None => None
                                    end;
                            genres := map (fun g => parseInt (Some g)) (drop 5 (split BAR line)) |}
                         (items s)) s)) as [Hok Hbad].
      split.
      * intros Hall. apply Forall_cons in Hall as [_ Hall]. now apply Hok.
      * intros Hn. apply Hbad. intros Hall. apply Hn. now constructor.
    + split; [| done].
      intros Hall. apply Forall_cons in Hall as [Hsep _].
      apply title_field_iff in Hsep as [? Hsome]. congruence.
Qed.

(** X10.  With the three texts fetched, the [try] block of [loadData]
    succeeds exactly when every line of the trimmed item text has a field
    separator; otherwise it throws the TypeError of calling [match] on a
    missing title.  Neither the interaction text nor the user text can make
    it fail, and an empty item text does. *)
Theorem load_fails_exactly_on_item_lines (a b c : string) this :
  (Forall has_separator (split LF (trim b)) ->
     fst (loadData_try (Texts a b c) this) = Ok tt)
  /\ (~ Forall has_separator (split LF (trim b)) ->
      fst (loadData_try (Texts a b c) this) = Throw (cannot_read "match"))
  /\ fst (loadData_try (Texts a "" c) this) = Throw (cannot_read "match").
Proof.
  assert (forall b',
            (Forall has_separator (split LF (trim b')) ->
               fst (loadData_try (Texts a b' c) this) = Ok tt)
            /\ (~ Forall has_separator (split LF (trim b')) ->
                fst (loadData_try (Texts a b' c) this) = Throw (cannot_read "match")))
    as Hboth.
  { intros b'. rewrite loadData_try_Texts.
    destruct (item_lines_outcome (split LF (trim b'))
                (set_interactions (parseInteractions a) this)) as [Hok Hbad].
    destruct (forEach parseItemLine _ _) as [[[] | e] s1] eqn:Hitems; simpl in *.
    - destruct (forEach_parseUserLine_frame (split LF (trim c)) [] s1)
        as (? & ? & -> & _).
      split; [done |]. intros Hn. now apply Hbad in Hn.
    - split; [intros Hall; now apply Hok in Hall | done]. }
  split; [apply Hboth |]. split; [apply Hboth |].
  apply Hboth. intros Hall. vm_compute in Hall.
  apply Forall_cons in Hall as [Hsep _]. unfold has_separator in Hsep.
  now apply elem_of_nil in Hsep.
Qed.

(** X11.  [loadData] itself never throws: whatever was fetched, it returns
    normally and reports through the status line.  It leaves the training
    guard, the two models, the loss history and the test button as they
    were.  When the [try] block succeeded the status holds the sizes of the
    stores as the load leaves them and the train button is enabled; when it
    threw, the train button is as it was. *)
Theorem loadData_returns_and_spares_training (fetched : Fetched) this :
  let final := snd (loadData fetched this) in
  fst (loadData fetched this) = Ok tt
  /\ isTraining final = isTraining this
  /\ simpleModel final = simpleModel this
  /\ deepModel final = deepModel this
  /\ lossHistory final = lossHistory this
  /\ testDisabled (dom final) = testDisabled (dom this)
  /\ match fst (loadData_try fetched (with_status LoadingData this)) with
     | Ok _ =>
         status (dom final)
         = Loaded (length (interactions final)) (JsMap.size (items final))
                  (JsMap.size (users final))
         /\ trainDisabled (dom final) = false
     | Throw e =>
         status (dom final) = ErrorLoadingData (message e)
         /\ trainDisabled (dom final) = trainDisabled (dom this)
     end.
Proof.
  intros final. unfold final. rewrite loadData_eq. destruct fetched as [error | a b c].
  - rewrite loadData_try_Rejected. simpl. repeat split.
  - rewrite loadData_try_Texts.
    destruct (forEach_parseItemLine_frame (split LF (trim b))
                (set_interactions (parseInteractions a) (with_status LoadingData this)))
      as ([[] | e] & items' & ->); [| simpl; repeat split].
    match goal with
    | |- context [forEach_with parseUserLine [] ?l ?s1] =>
        destruct (forEach_parseUserLine_frame l [] s1) as (occupations & users' & -> & _)
    end.
    unfold finish_load, createMappings. simpl. do 2 destruct (assign_indices _ _).
    simpl. repeat split.
Qed.

(** *** Reading numbers *)

Lemma is_digit_bounds (c : ascii) :
  is_digit c = true -> (48 <= code c <= 57)%N.
Proof.
  unfold is_digit. rewrite andb_true_iff, !N.leb_le. tauto.
Qed.

Lemma is_digit_value (c : ascii) :
  is_digit c = true ->
  digit_value 10 c = Some (Z.of_N (code c) - 48)%Z
  /\ (0 <= Z.of_N (code c) - 48 <= 9)%Z.
Proof.
  intros Hd. apply is_digit_bounds in Hd. unfold digit_value.
  assert (48 <= Z.of_N (code c) <= 57)%Z as Hz by lia.
  replace (48 <=? Z.of_N (code c))%Z with true by (symmetry; apply Z.leb_le; lia).
  replace (Z.of_N (code c) <=? 57)%Z with true by (symmetry; apply Z.leb_le; lia).
  simpl.
  replace (Z.of_N (code c) - 48 <? 10)%Z with true by (symmetry; apply Z.ltb_lt; lia).
  split; [reflexivity | lia].
Qed.

Lemma is_digit_not_space (c : ascii) : is_digit c = true -> is_white_space c = false.
Proof.
  intros Hd. apply is_digit_bounds in Hd. unfold is_white_space.
  cbv zeta.
  destruct (N.leb_spec 9 (code c)), (N.leb_spec (code c) 13), (N.eqb_spec (code c) 32),
    (N.eqb_spec (code c) 160); simpl; try reflexivity; lia.
Qed.

Lemma is_digit_not (c d : ascii) : is_digit c = true -> is_digit d = false -> Ascii.eqb c d = false.
Proof.
  intros Hc Hd. destruct (Ascii.eqb_spec c d) as [-> | _]; [congruence | reflexivity].
Qed.

Lemma span_digits_all (l : list ascii) :
  forallb is_digit l = true ->
  span_digits 10 l = (map (fun c => Z.of_N (code c) - 48)%Z l, []).
Proof.
  induction l as [| c l IH]; simpl; [done |].
  rewrite andb_true_iff. intros [Hc Hl].
  destruct (is_digit_value c Hc) as [-> _]. now rewrite IH.
Qed.

Lemma chars_of_chars (l : list ascii) : chars (of_chars l) = l.
Proof. apply list_ascii_of_string_of_list_ascii. Qed.

(** [parseInt] reads a run of decimal digits as the number it writes. *)
Lemma parseInt_digits (l : list ascii) :
  digits l -> parseInt (Some (of_chars l)) = Int (decimal_value l).
Proof.
  intros [Hne Hall]. unfold parseInt, to_string. simpl. rewrite chars_of_chars.
  destruct l as [| c l]; [done |]. simpl in Hall. apply andb_true_iff in Hall as [Hc Hl].
  simpl. rewrite (is_digit_not_space c Hc). unfold strip_sign.
  rewrite (is_digit_not c "-" Hc eq_refl), (is_digit_not c "+" Hc eq_refl).
  assert (strip_hex_prefix (c :: l) = (10%Z, c :: l)) as ->.
  { unfold strip_hex_prefix. destruct l as [| x l]; [done |].
    simpl in Hl. apply andb_true_iff in Hl as [Hx _].
    rewrite (is_digit_not x "x" Hx eq_refl), (is_digit_not x "X" Hx eq_refl).
    now rewrite andb_false_r. }
  rewrite span_digits_all by (simpl; now rewrite Hc, Hl).
  reflexivity.
Qed.

Lemma decimal_value_four (d1 d2 d3 d4 : ascii) :
  forallb is_digit [d1; d2; d3; d4] = true ->
  (0 <= decimal_value [d1; d2; d3; d4] <= 9999)%Z.
Proof.
  simpl. rewrite !andb_true_iff. intros (H1 & H2 & H3 & H4 & _).
  apply is_digit_value in H1 as [_ H1], H2 as [_ H2], H3 as [_ H3], H4 as [_ H4].
  unfold decimal_value, digits_value. simpl. lia.
Qed.

Lemma match_year_digits (title : string) (s : string) :
  match_year title = Some s ->
  exists d1 d2 d3 d4,
    s = of_chars [d1; d2; d3; d4] /\ forallb is_digit [d1; d2; d3; d4] = true.
Proof.
  unfold match_year.
  destruct (rev (chars title)) as [| close [| d4 [| d3 [| d2 [| d1 [| open rest]]]]]]; try done.
  destruct (Ascii.eqb open "(" && forallb is_digit [d1; d2; d3; d4] && Ascii.eqb close ")")
    eqn:Hcond; [| done].
  intros [= <-]. apply andb_true_iff in Hcond as [Hcond _].
  apply andb_true_iff in Hcond as [_ Hd]. eauto 10.
Qed.

(** *** Items *)

Lemma parseItemLine_year (line : string) s (r : result unit) s' :
  parseItemLine line s = (r, s') ->
  forall id item, JsMap.get id (items s') = Some item ->
    JsMap.get id (items s) = Some item \/ year_in_range item.
Proof.
  unfold parseItemLine. destruct (split BAR line !! 1%nat) as [title |].
  - intros [= <- <-] id item. simpl. rewrite get_set.
    destruct (decide (parseInt (split BAR line !! 0%nat) = id)) as [_ | _]; [| auto].
    intros [= <-]. right. unfold year_in_range. simpl.
    destruct (match_year title) as [s0 |] eqn:Hm; [| auto].
    right. apply match_year_digits in Hm as (d1 & d2 & d3 & d4 & -> & Hd).
    exists (decimal_value [d1; d2; d3; d4]). split.
    + f_equal. apply parseInt_digits. split; [done | exact Hd].
    + now apply decimal_value_four.
  - intros [= <- <-]. auto.
Qed.

Lemma item_lines_year (lines : list string) s (r : result unit) s' :
  forEach parseItemLine lines s = (r, s') ->
  forall id item, JsMap.get id (items s') = Some item ->
    JsMap.get id (items s) = Some item \/ year_in_range item.
Proof.
  revert s. induction lines as [| line lines IH]; intros s; simpl.
  - intros [= <- <-]. auto.
  - unfold bind. destruct (parseItemLine line s) as [[[] | e] s1] eqn:Hline.
    + intros Hrest id item Hg. destruct (IH s1 Hrest id item Hg) as [Hold | ?]; [| auto].
      eapply parseItemLine_year; eauto.
    + intros [= <- <-]. eapply parseItemLine_year; eauto.
Qed.

Lemma loadData_years (fetched : Fetched) this :
  (forall id item, JsMap.get id (items this) = Some item -> year_in_range item) ->
  forall id item, JsMap.get id (items (snd (loadData fetched this))) = Some item ->
    year_in_range item.
Proof.
  intros Hok id item. rewrite loadData_eq. destruct fetched as [error | a b c].
  - rewrite loadData_try_Rejected. simpl. apply Hok.
  - rewrite loadData_try_Texts.
    destruct (forEach parseItemLine (split LF (trim b))
                (set_interactions (parseInteractions a) (with_status LoadingData this)))
      as [r s1] eqn:Hitems.
    pose proof (item_lines_year _ _ _ _ Hitems) as Hyears. simpl in Hyears.
    assert (JsMap.get id (items s1) = Some item -> year_in_range item) as Hs1.
    { intros Hg. destruct (Hyears id item Hg) as [Hold | ?]; [exact (Hok id item Hold) | done]. }
    destruct r as [[] | e]; [| exact Hs1].
    destruct (forEach_parseUserLine_frame (split LF (trim c)) [] s1)
      as (occupations & users' & -> & _).
    unfold finish_load, createMappings. simpl. do 2 destruct (assign_indices _ _).
    exact Hs1.
Qed.

(** X12.  In every object that the constructor and any number of loads lead
    to, the year of each stored item is [null] or a number from 0 to 9999:
    the four digits that closed the title, never [NaN]. *)
Theorem loaded_item_year_in_range this (id : intnum) (item : Item) :
  loaded this -> JsMap.get id (items this) = Some item -> year_in_range item.
Proof.
  intros Hloaded. revert id item. induction Hloaded as [| fetched this _ IH].
  - intros id item [=].
  - now apply loadData_years.
Qed.

(** *** Interaction lines *)





End LoaderFacts.

(** ** Training *)

Section TrainingOutcome.
Context `{Tf}.
Implicit Types this : App Simple.t Deep.t.

Lemma undisturbed_and_then {A B : Type} (p : Run Simple.t Deep.t A)
    (k : A -> Async Simple.t Deep.t B) :
  undisturbed (and_then p k)
  = match undisturbed p with
    | (Ok a, this) => undisturbed (k a this)
    | (Throw e, this) => (Throw e, this)
    end.
Proof.
  induction p as [[a | e] this | this resume IH]; simpl; [reflexivity | reflexivity |].
  apply IH.
Qed.

Lemma undisturbed_sync {A : Type} (c : M Simple.t Deep.t A) this :
  undisturbed (sync c this) = c this.
Proof. unfold sync. now destruct (c this). Qed.

Lemma undisturbed_await {A : Type} (c : M Simple.t Deep.t A) this :
  undisturbed (await c this) = c this.
Proof. unfold await. now destruct (c this). Qed.

Lemma undisturbed_bind_Ok {A B : Type} (c : Async Simple.t Deep.t A)
    (k : A -> Async Simple.t Deep.t B) this (b : B) final :
  undisturbed (async_bind c k this) = (Ok b, final) ->
  exists a this1, undisturbed (c this) = (Ok a, this1) /\ undisturbed (k a this1) = (Ok b, final).
Proof.
  unfold async_bind. rewrite undisturbed_and_then.
  destruct (undisturbed (c this)) as [[a | e] this1]; [eauto | discriminate].
Qed.


(** *** Views that a run leaves as they are *)

Lemma kept_ret {X A : Type} (f : App Simple.t Deep.t -> X) (a : A) : kept f (ret a).
Proof. now intros this. Qed.

Lemma kept_read {X A : Type} (f : App Simple.t Deep.t -> X) (g : App Simple.t Deep.t -> A) :
  kept f (read g).
Proof. now intros this. Qed.

Lemma kept_lift {X A : Type} (f : App Simple.t Deep.t -> X)
    (g : App Simple.t Deep.t -> result A) :
  kept f (lift g).
Proof. now intros this. Qed.

Lemma run_kept_sync {X A : Type} (f : App Simple.t Deep.t -> X) (c : M Simple.t Deep.t A) :
  kept f c -> run_kept f (sync c).
Proof. intros Hc this. rewrite undisturbed_sync. apply Hc. Qed.

Lemma run_kept_await {X A : Type} (f : App Simple.t Deep.t -> X) (c : M Simple.t Deep.t A) :
  kept f c -> run_kept f (await c).
Proof. intros Hc this. rewrite undisturbed_await. apply Hc. Qed.

Lemma run_kept_bind {X A B : Type} (f : App Simple.t Deep.t -> X)
    (c : Async Simple.t Deep.t A) (k : A -> Async Simple.t Deep.t B) :
  run_kept f c -> (forall a, run_kept f (k a)) -> run_kept f (async_bind c k).
Proof.
  intros Hc Hk this. unfold async_bind. rewrite undisturbed_and_then.
  specialize (Hc this). destruct (undisturbed (c this)) as [[a | e] this1]; simpl in *.
  - now rewrite Hk.
  - exact Hc.
Qed.

Lemma run_kept_for {X A B : Type} (f : App Simple.t Deep.t -> X)
    (body : B -> A -> Async Simple.t Deep.t B) (l : list A) :
  (forall b x, run_kept f (body b x)) -> forall b, run_kept f (async_for body b l).
Proof.
  intros Hbody. induction l as [| x l IH]; intros b; simpl.
  - apply run_kept_sync, kept_ret.
  - apply run_kept_bind; [apply Hbody | intros; apply IH].
Qed.

Section Loops.
Context {X : Type} (f : App Simple.t Deep.t -> X).
Hypothesis f_simple_step : forall batchUsers batchItems, kept f (simple_step batchUsers batchItems).
Hypothesis f_deep_step : forall batchUsers userFeatures batchItems itemFeatures,
  kept f (deep_step batchUsers userFeatures batchItems itemFeatures).
Hypothesis f_lossHistory : forall v this, f (set_lossHistory v this) = f this.
Hypothesis f_status : forall message, kept f (updateStatus message).

Lemma run_kept_train_batch userIndices itemIndices numBatches epoch sums batch :
  run_kept f (train_batch userIndices itemIndices numBatches epoch sums batch).
Proof.
  unfold train_batch. destruct sums as [epochLossSimple epochLossDeep].
  apply run_kept_bind; [apply run_kept_await, f_simple_step | intros lossSimple].
  apply run_kept_bind; [apply run_kept_sync, kept_read | intros batchUserIds].
  apply run_kept_bind; [apply run_kept_sync, kept_read | intros batchItemIds].
  apply run_kept_bind; [apply run_kept_sync, kept_lift | intros userFeatures].
  apply run_kept_bind; [apply run_kept_sync, kept_lift | intros itemFeatures].
  apply run_kept_bind; [apply run_kept_await, f_deep_step | intros lossDeep].
  apply run_kept_bind; [apply run_kept_sync; intros this; apply f_lossHistory | intros _].
  apply run_kept_bind.
  { apply run_kept_sync. destruct (_ =? _)%nat; [apply f_status | apply kept_ret]. }
  intros _. apply run_kept_bind; [apply run_kept_await, kept_ret | intros _].
  apply run_kept_sync, kept_ret.
Qed.

Lemma run_kept_train_epoch userIndices itemIndices numBatches u epoch :
  run_kept f (train_epoch userIndices itemIndices numBatches u epoch).
Proof.
  unfold train_epoch. apply run_kept_bind.
  - apply run_kept_for. intros. apply run_kept_train_batch.
  - intros [epochLossSimple epochLossDeep]. apply run_kept_sync, f_status.
Qed.

Lemma run_kept_epochs userIndices itemIndices numBatches (epochs : list nat) :
  run_kept f (async_for (train_epoch userIndices itemIndices numBatches) tt epochs).
Proof. apply run_kept_for. intros. apply run_kept_train_epoch. Qed.

End Loops.

Ltac kept_step :=
  intros; intros ?this;
  unfold simple_step, deep_step, train_setup, train_finish, visualizeEmbeddings,
    bind, read, assign, lift, ret, throw, set_trainDisabled, set_testDisabled, updateStatus;
  simpl;
  repeat match goal with
         | |- context [match ?x with _ => _ end] => destruct x eqn:?; simpl
         end;
  unfold stores, lock, built; simpl;
  repeat match goal with
         | Heq : _ = _ |- _ => rewrite Heq; clear Heq
         end;
  reflexivity.

Lemma stores_epochs userIndices itemIndices numBatches (epochs : list nat) :
  run_kept stores (async_for (train_epoch userIndices itemIndices numBatches) tt epochs).
Proof. apply run_kept_epochs; [kept_step | kept_step | reflexivity | kept_step]. Qed.

Lemma lock_epochs userIndices itemIndices numBatches (epochs : list nat) :
  run_kept lock (async_for (train_epoch userIndices itemIndices numBatches) tt epochs).
Proof. apply run_kept_epochs; [kept_step | kept_step | reflexivity | kept_step]. Qed.

Lemma built_epochs userIndices itemIndices numBatches (epochs : list nat) :
  run_kept built (async_for (train_epoch userIndices itemIndices numBatches) tt epochs).
Proof. apply run_kept_epochs; [kept_step | kept_step | reflexivity | kept_step]. Qed.

Lemma stores_train_setup : kept stores train_setup.
Proof.
  intros this.
  unfold train_setup, bind, assign, read, lift, ret, throw, set_trainDisabled, updateStatus.
  simpl. destruct (interactions this !! 0%nat) as [i |]; simpl; [| reflexivity].
  destruct (getUserFeatures _ (userId i)); simpl; [| reflexivity].
  destruct (JsMap.get (itemId i) (items this)); reflexivity.
Qed.

Lemma stores_train_finish : kept stores train_finish.
Proof. kept_step. Qed.

Lemma lock_train_setup this : lock (snd (train_setup this)) = (true, true).
Proof.
  unfold train_setup, bind, assign, read, lift, ret, throw, set_trainDisabled, updateStatus.
  simpl. destruct (interactions this !! 0%nat) as [i |]; simpl; [| reflexivity].
  destruct (getUserFeatures _ (userId i)); simpl; [| reflexivity].
  destruct (JsMap.get (itemId i) (items this)); reflexivity.
Qed.

Lemma train_setup_Ok this userIndices itemIndices this1 :
  train_setup this = (Ok (userIndices, itemIndices), this1) ->
  built this1 = (true, true) /\ lossHistory this1 = []
  /\ length userIndices = length (interactions this).
Proof.
  unfold train_setup, bind, assign, read, lift, ret, throw, set_trainDisabled, updateStatus.
  simpl. destruct (interactions this !! 0%nat) as [i |]; simpl; [| discriminate].
  destruct (getUserFeatures _ (userId i)); simpl; [| discriminate].
  destruct (JsMap.get (itemId i) (items this)); simpl; [| discriminate].
  intros [= <- <- <-]. simpl. now rewrite length_map.
Qed.

Lemma train_finish_Ok this :
  exists final,
    train_finish this = (Ok tt, final)
    /\ isTraining final = false
    /\ trainDisabled (dom final) = false /\ testDisabled (dom final) = false
    /\ built final = built this /\ lossHistory final = lossHistory this.
Proof.
  unfold train_finish, visualizeEmbeddings, bind, assign, read, ret, set_trainDisabled,
    set_testDisabled, updateStatus. simpl.
  destruct (deepModel this); eexists; (split; [reflexivity |]); simpl; auto.
Qed.

(** The run of [train] from an object on which the guard is open, taken
    apart: the setup, the epochs, the end. *)
Lemma undisturbed_train this :
  isTraining this = false ->
  undisturbed (train this)
  = match train_setup this with
    | (Ok (userIndices, itemIndices), this1) =>
        match undisturbed (async_for
                (train_epoch userIndices itemIndices
                   ((length userIndices + (config.batchSize - 1)) / config.batchSize))
                tt (seq 0 config.epochs) this1) with
        | (Ok _, this2) => train_finish this2
        | (Throw e, this2) => (Throw e, this2)
        end
    | (Throw e, this1) => (Throw e, this1)
    end.
Proof.
  intros Hguard. unfold train, async_bind. unfold sync at 1, read.
  cbn [and_then]. rewrite Hguard. rewrite undisturbed_and_then, undisturbed_sync.
  destruct (train_setup this) as [[[userIndices itemIndices] | e] this1]; [| reflexivity].
  rewrite undisturbed_and_then.
  destruct (undisturbed (async_for _ tt (seq 0 config.epochs) this1)) as [[[] | e] this2];
    [| reflexivity].
  apply undisturbed_sync.
Qed.

(** X14.  A run of [train] that ends in an exception leaves the flag set and
    the button disabled: nothing releases them, and from then on every call
    to [train] returns at once without training. *)
Theorem failed_training_blocks_training this (e : exn) final :
  isTraining this = false ->
  undisturbed (train this) = (Throw e, final) ->
  isTraining final = true /\ trainDisabled (dom final) = true
  /\ train final = Settled (Ok tt) final.
Proof.
  intros Hguard. rewrite undisturbed_train by done.
  pose proof (lock_train_setup this) as Hsetup.
  destruct (train_setup this) as [[[userIndices itemIndices] | e1] this1]; simpl in Hsetup.
  - pose proof (lock_epochs userIndices itemIndices
                  ((length userIndices + (config.batchSize - 1)) / config.batchSize)
                  (seq 0 config.epochs) this1) as Hloops.
    destruct (undisturbed (async_for _ tt (seq 0 config.epochs) this1)) as [[[] | e2] this2].
    + destruct (train_finish_Ok this2) as (final' & -> & _). discriminate.
    + simpl in Hloops. intros [= <- <-]. rewrite Hsetup in Hloops.
      injection Hloops as Hflag Hbutton. auto using train_returns_at_once.
  - intros [= <- <-]. injection Hsetup as Hflag Hbutton. auto using train_returns_at_once.
Qed.

(** X15.  Training reads the loaded data and never writes it: whatever the
    outcome of a run, the interactions, the items, the users, the
    vocabulary, the index maps, the histories and the qualified users are
    those it started from. *)
Theorem training_keeps_loaded_data this :
  stores (snd (undisturbed (train this))) = stores this.
Proof.
  destruct (isTraining this) eqn:Hguard.
  - now rewrite train_returns_at_once.
  - rewrite undisturbed_train by done.
    pose proof (stores_train_setup this) as Hsetup.
    destruct (train_setup this) as [[[userIndices itemIndices] | e1] this1]; simpl in Hsetup;
      [| exact Hsetup].
    pose proof (stores_epochs userIndices itemIndices
                  ((length userIndices + (config.batchSize - 1)) / config.batchSize)
                  (seq 0 config.epochs) this1) as Hloops.
    destruct (undisturbed (async_for _ tt (seq 0 config.epochs) this1)) as [[[] | e2] this2];
      simpl in Hloops.
    + rewrite stores_train_finish. congruence.
    + simpl. congruence.
Qed.

(** *** One loss for each batch *)

Lemma lossHistory_simple_step batchUsers batchItems :
  kept lossHistory (simple_step batchUsers batchItems).
Proof. kept_step. Qed.

Lemma lossHistory_deep_step batchUsers userFeatures batchItems itemFeatures :
  kept lossHistory (deep_step batchUsers userFeatures batchItems itemFeatures).
Proof. kept_step. Qed.

Lemma lossHistory_updateStatus message :
  kept (SM := Simple.t) (DM := Deep.t) lossHistory (updateStatus message).
Proof. kept_step. Qed.

Lemma kept_eq {X A : Type} (f : App Simple.t Deep.t -> X) (c : M Simple.t Deep.t A) this
    (r : result A) this1 :
  kept f c -> c this = (r, this1) -> f this1 = f this.
Proof. intros Hc Hrun. specialize (Hc this). now rewrite Hrun in Hc. Qed.

Ltac run_step Hrun a this1 Hstep :=
  apply undisturbed_bind_Ok in Hrun as (a & this1 & Hstep & Hrun);
  rewrite ?undisturbed_sync, ?undisturbed_await in Hstep.

Lemma train_batch_pushes_one userIndices itemIndices numBatches epoch sums batch this
    sums' final :
  undisturbed (train_batch userIndices itemIndices numBatches epoch sums batch this)
  = (Ok sums', final) ->
  length (lossHistory final) = S (length (lossHistory this)).
Proof.
  unfold train_batch. destruct sums as [epochLossSimple epochLossDeep]. intros Hrun.
  run_step Hrun lossSimple this1 H1.
  run_step Hrun batchUserIds this2 H2.
  run_step Hrun batchItemIds this3 H3.
  run_step Hrun userFeatures this4 H4.
  run_step Hrun itemFeatures this5 H5.
  run_step Hrun lossDeep this6 H6.
  run_step Hrun u7 this7 H7.
  run_step Hrun u8 this8 H8.
  run_step Hrun u9 this9 H9.
  rewrite undisturbed_sync in Hrun.
  apply (kept_eq lossHistory) in H1; [| apply lossHistory_simple_step].
  apply (kept_eq lossHistory) in H2; [| apply kept_read].
  apply (kept_eq lossHistory) in H3; [| apply kept_read].
  apply (kept_eq lossHistory) in H4; [| apply kept_lift].
  apply (kept_eq lossHistory) in H5; [| apply kept_lift].
  apply (kept_eq lossHistory) in H6; [| apply lossHistory_deep_step].
  assert (lossHistory this7 = lossHistory this6 ++ [lossDeep]) as K7.
  { unfold assign in H7. injection H7 as _ <-. reflexivity. }
  apply (kept_eq lossHistory) in H8;
    [| destruct (_ =? _)%nat; [apply lossHistory_updateStatus | apply kept_ret]].
  apply (kept_eq lossHistory) in H9; [| apply kept_ret].
  apply (kept_eq lossHistory) in Hrun; [| apply kept_ret].
  rewrite Hrun, H9, H8, K7, length_app, H6, H5, H4, H3, H2, H1. simpl. lia.
Qed.

Lemma for_counts {A B : Type} (body : B -> A -> Async Simple.t Deep.t B) (d : nat)
    (l : list A) :
  (forall b x this b' final,
     undisturbed (body b x this) = (Ok b', final) ->
     length (lossHistory final) = (length (lossHistory this) + d)%nat) ->
  forall b this b' final,
    undisturbed (async_for body b l this) = (Ok b', final) ->
    length (lossHistory final) = (length (lossHistory this) + length l * d)%nat.
Proof.
  intros Hbody. induction l as [| x l IH]; intros b this b' final Hrun; simpl in *.
  - injection Hrun as _ <-. lia.
  - run_step Hrun b1 this1 H1. apply Hbody in H1. apply IH in Hrun. lia.
Qed.

Lemma train_epoch_pushes userIndices itemIndices numBatches u epoch this u' final :
  undisturbed (train_epoch userIndices itemIndices numBatches u epoch this) = (Ok u', final) ->
  length (lossHistory final) = (length (lossHistory this) + numBatches)%nat.
Proof.
  unfold train_epoch. intros Hrun. run_step Hrun sums this1 H1.
  apply (for_counts _ 1) in H1.
  2:{ intros b x s b' s' Hb. apply train_batch_pushes_one in Hb. lia. }
  rewrite length_seq in H1. destruct sums as [epochLossSimple epochLossDeep].
  rewrite undisturbed_sync in Hrun.
  apply (kept_eq lossHistory) in Hrun; [| apply lossHistory_updateStatus].
  rewrite Hrun. lia.
Qed.

(** X16.  A run of [train] that comes to its end releases the flag, enables
    both buttons, leaves both models built and has recorded one loss for
    each batch of each epoch: [epochs] times [ceil(n / batchSize)] entries
    for [n] interactions, whatever the loss history held before. *)
Theorem completed_training this final :
  isTraining this = false ->
  undisturbed (train this) = (Ok tt, final) ->
  isTraining final = false
  /\ trainDisabled (dom final) = false /\ testDisabled (dom final) = false
  /\ is_Some (simpleModel final) /\ is_Some (deepModel final)
  /\ length (lossHistory final)
     = (config.epochs * numBatches_of (length (interactions this)))%nat.
Proof.
  intros Hguard. rewrite undisturbed_train by done.
  destruct (train_setup this) as [[[userIndices itemIndices] | e1] this1] eqn:Hsetup;
    [| discriminate].
  apply train_setup_Ok in Hsetup as (Hbuilt & Hloss & Hlen).
  pose proof (built_epochs userIndices itemIndices
                ((length userIndices + (config.batchSize - 1)) / config.batchSize)
                (seq 0 config.epochs) this1) as Hloops.
  destruct (undisturbed (async_for _ tt (seq 0 config.epochs) this1)) as [[[] | e2] this2]
    eqn:Hrun; [| discriminate].
  simpl in Hloops.
  apply (for_counts _ ((length userIndices + (config.batchSize - 1)) / config.batchSize))
    in Hrun; [| intros b x s b' s'; apply train_epoch_pushes].
  destruct (train_finish_Ok this2) as (final' & -> & Hflag & Htrain & Htest & Hb & Hl).
  intros [= <-].
  assert (built final' = (true, true)) as Hmodels by congruence.
  unfold built in Hmodels.
  repeat split; try done.
  - destruct (simpleModel final'); [eauto | discriminate].
  - destruct (deepModel final'); [eauto | destruct (simpleModel final'); discriminate].
  - rewrite Hl, Hrun, Hloss, length_seq, Hlen. unfold numBatches_of. reflexivity.
Qed.

(** *** Batches *)

Lemma batch_slice_take {A : Type} (n k : nat) (l : list A) :
  concat (map (fun batch => slice (batch * n) (Nat.min (batch * n + n) (length l)) l) (seq 0 k))
  = take (k * n) l.
Proof.
  induction k as [| k IH]; [reflexivity |].
  rewrite seq_S, map_app, concat_app, IH. cbn [map concat Nat.add]. rewrite app_nil_r.
  unfold slice. replace (S k * n)%nat with (k * n + n)%nat by lia.
  rewrite <- take_take_drop. f_equal.
  destruct (decide (k * n + n <= length l)%nat).
  - rewrite Nat.min_l by lia. f_equal. lia.
  - rewrite Nat.min_r by lia.
    rewrite !take_ge; [reflexivity | | ]; rewrite length_drop; lia.
Qed.

(** X17.  The batches of an epoch cut the array of indices into consecutive
    pieces: put end to end they give the array back, so each interaction is
    trained on once in each epoch, and each batch has at least one and at
    most [batchSize] entries. *)
Theorem batches_partition_indices {A : Type} (indices : list A) :
  concat (map (fun batch => batch_slice (length indices) batch indices)
              (seq 0 (numBatches_of (length indices)))) = indices
  /\ forall batch, (batch < numBatches_of (length indices))%nat ->
       (0 < length (batch_slice (length indices) batch indices) <= config.batchSize)%nat.
Proof.
  unfold batch_slice, numBatches_of, config.batchSize. split.
  - rewrite (batch_slice_take 512). apply take_ge.
    pose proof (Nat.div_mod_eq (length indices + (512 - 1)) 512).
    pose proof (Nat.mod_upper_bound (length indices + (512 - 1)) 512). lia.
  - intros batch Hbatch. unfold slice. rewrite length_take, length_drop.
    pose proof (Nat.div_mod_eq (length indices + (512 - 1)) 512).
    pose proof (Nat.mod_upper_bound (length indices + (512 - 1)) 512). lia.
Qed.

End TrainingOutcome.

(** ** The further properties on small inputs *)

Section FurtherRuns.
Import Sample.


(** X2 on the first of the three sample interactions. *)
Lemma interaction_ids_round_trip_witness :
  let this := createMappings (set_interactions three fresh) in
  (exists k, JsMap.get (Int 1) (userMap this) = Some k
             /\ JsMap.get k (reverseUserMap this) = Some (Int 1))
  /\ (exists k, JsMap.get (Int 1) (itemMap this) = Some k
                /\ JsMap.get k (reverseItemMap this) = Some (Int 1)).
Proof.
  apply (interaction_ids_round_trip (set_interactions three fresh) (interaction 1 1 5 100)).
  simpl. apply list_elem_of_here.
Defined.

(** X3 on the three sample interactions. *)
Lemma reload_of_same_data_keeps_indices_witness :
  let once := createMappings (set_interactions three fresh) in
  let twice := createMappings (set_interactions three once) in
  userMap twice = userMap once /\ reverseUserMap twice = reverseUserMap once
  /\ itemMap twice = itemMap once /\ reverseItemMap twice = reverseItemMap once.
Proof.
  apply (reload_of_same_data_keeps_indices (set_interactions three fresh)).
  repeat split.
Defined.

(** X7 on the user with 20 interactions. *)
Lemma qualified_user_has_index_and_history_witness :
  let this := findQualifiedUsers (createMappings (set_interactions twenty_and_nineteen fresh)) in
  exists k h,
    JsMap.get (Int 1) (userMap this) = Some k
    /\ JsMap.get k (reverseUserMap this) = Some (Int 1)
    /\ JsMap.get (Int 1) (userTopRated this) = Some h
    /\ 20 <= length h.
Proof.
  apply (qualified_user_has_index_and_history (set_interactions twenty_and_nineteen fresh) (Int 1)).
  vm_compute. apply list_elem_of_here.
Defined.

(** X8 on the first user of the sample, a technician, in the vocabulary
    [other, technician]. *)
Lemma getUserFeatures_one_hot_witness :
  getUserFeatures once (Int 1)
  = Ok [Some (Fin (24 # 100)); Some (Fin 1); Some (Fin 0); Some (Fin 1)].
Proof.
  apply (getUserFeatures_one_hot once (Int 1)
           {| age := Fin (24 # 100); gender := Fin 1; occupation := Some "technician" |} 1).
  - apply loaded_vocab_bounded. unfold once, fresh. apply loaded_again, loaded_new.
  - vm_compute. reflexivity.
  - vm_compute. reflexivity.
Defined.

(** X9 on the second user of the sample. *)
Lemma loaded_user_is_encoded_witness :
  exists user,
    JsMap.get (Int 2) (users once) = Some user
    /\ (gender user = Fin 0 \/ gender user = Fin 1)
    /\ exists k,
         k < JsMap.size (occupationVocab once)
         /\ JsMap.get (occupation user) (occupationVocab once) = Some k
         /\ getUserFeatures once (Int 2)
            = Ok (Some (age user) :: Some (gender user)
                    :: one_hot (JsMap.size (occupationVocab once)) k).
Proof.
  eexists. split; [vm_compute; reflexivity |].
  apply (loaded_user_is_encoded once (Int 2)).
  - unfold once, fresh. apply loaded_again, loaded_new.
  - vm_compute. reflexivity.
Defined.

(** X12 on the first item of the sample, Toy Story (1995). *)
Lemma loaded_item_year_in_range_witness :
  exists item, JsMap.get (Int 1) (items once) = Some item /\ year_in_range item.
Proof.
  eexists. split; [vm_compute; reflexivity |].
  apply (loaded_item_year_in_range once (Int 1)).
  - unfold once, fresh. apply loaded_again, loaded_new.
  - vm_compute. reflexivity.
Defined.


(** X14 on a fresh object: with no interactions the run fails at the first
    of them, and the guard stays set. *)
Lemma failed_training_blocks_training_witness :
  let final := snd (undisturbed (train (new_MovieLensApp Simple.t Deep.t true true))) in
  isTraining final = true /\ trainDisabled (dom final) = true
  /\ train final = Settled (Ok tt) final.
Proof.
  apply (failed_training_blocks_training (new_MovieLensApp Simple.t Deep.t true true)
           (cannot_read "userId")).
  - reflexivity.
  - vm_compute. reflexivity.
Defined.

(** X16 on the three sample interactions: one batch in each of the 15
    epochs. *)
Lemma completed_training_witness :
  let loaded := snd (loadData (Texts interactionsText itemsText usersText)
                       (new_MovieLensApp Simple.t Deep.t true true)) in
  let final := snd (undisturbed (train loaded)) in
  isTraining final = false
  /\ trainDisabled (dom final) = false /\ testDisabled (dom final) = false
  /\ is_Some (simpleModel final) /\ is_Some (deepModel final)
  /\ length (lossHistory final)
     = (config.epochs * numBatches_of (length (interactions loaded)))%nat.
Proof.
  apply (completed_training
           (snd (loadData (Texts interactionsText itemsText usersText)
                   (new_MovieLensApp Simple.t Deep.t true true)))).
  - vm_compute. reflexivity.
  - vm_compute. reflexivity.
Defined.

End FurtherRuns.

(** ** Ranking *)

Section RankingFacts.
Context `{Tf}.
Implicit Types this : App Simple.t Deep.t.

Lemma candidates_eq this ratedItemIds (acc : list Candidate.t) (scores : list (nat * number)) :
  candidates this ratedItemIds acc scores
  = acc ++ map (candidate_of this) (filter (eligible this ratedItemIds) scores).
Proof.
  revert acc. induction scores as [| [itemIndex score] scores IH]; intros acc.
  - simpl. now rewrite app_nil_r.
  - rewrite filter_cons. unfold candidates in *. cbn [foldl]. rewrite IH.
    destruct (decide (eligible this ratedItemIds (itemIndex, score))) as [Hel | Hex].
    + unfold eligible in Hel. cbn [fst] in Hel. rewrite Hel. simpl. now rewrite <- app_assoc.
    + unfold eligible in Hex. cbn [fst] in Hex. apply not_false_is_true in Hex.
      now rewrite Hex.
Qed.

Lemma elem_of_indexed {A : Type} (l : list A) (i : nat) (x : A) :
  (i, x) ∈ indexed l <-> l !! i = Some x.
Proof.
  rewrite <- get_indexed. split.
  - apply elem_of_get. rewrite keys_indexed. apply NoDup_seq.
  - apply get_Some_elem_of.
Qed.

Lemma StronglySorted_lookup {A : Type} (R : A -> A -> Prop) (l : list A) (i j : nat) (a b : A) :
  StronglySorted R l -> l !! i = Some a -> l !! j = Some b -> i < j -> R a b.
Proof.
  intros Hs. revert i j. induction Hs as [| x l Hs IH Hx]; intros i j Hi Hj Hlt.
  - discriminate.
  - destruct j as [| j]; [lia |]. destruct i as [| i]; simpl in *.
    + injection Hi as <-. rewrite Forall_forall in Hx.
      apply Hx. eapply list_elem_of_lookup_2. exact Hj.
    + apply (IH i j); [done | done | lia].
Qed.

(** X18.  The list that [rank] returns holds the best of the items that are
    not excluded: an item that is not excluded and is not returned scores no
    higher than any of the ten that are. *)
Theorem rank_returns_the_best this (scoreData : list number) (ratedItemIds : JsSet.t intnum)
    (itemIndex : nat) (score : number) :
  Forall is_number scoreData ->
  scoreData !! itemIndex = Some score ->
  eligible this ratedItemIds (itemIndex, score) ->
  candidate_of this (itemIndex, score) ∈ rank this scoreData ratedItemIds
  \/ (length (rank this scoreData ratedItemIds) = 10
      /\ Forall (fun c => number_le score (Candidate.score c))
                (rank this scoreData ratedItemIds)).
Proof.
  intros Hnum Hscore Hel. rewrite rank_eq, candidates_eq. cbn [app].
  set (found := map (candidate_of this)
                  (filter (eligible this ratedItemIds) (indexed scoreData))).
  assert (candidate_of this (itemIndex, score) ∈ sort_by compare_score found) as Hin.
  { apply sort_by_elem_of. unfold found. apply list_elem_of_fmap.
    exists (itemIndex, score). split; [reflexivity |].
    apply list_elem_of_filter. split; [exact Hel | now apply elem_of_indexed]. }
  assert (StronglySorted score_order (sort_by compare_score found)) as Hsorted.
  { apply sort_by_score_sorted. unfold found. apply Forall_forall. intros c Hc.
    apply list_elem_of_fmap in Hc as ([k s] & -> & Hks).
    apply list_elem_of_filter in Hks as [_ Hks]. apply elem_of_indexed in Hks.
    rewrite Forall_forall in Hnum. apply Hnum. eapply list_elem_of_lookup_2. exact Hks. }
  apply list_elem_of_lookup_1 in Hin as [j Hj].
  destruct (decide (j < 10)) as [Hlt | Hge].
  - left. apply elem_of_take. eauto.
  - right. apply lookup_lt_Some in Hj as Hlen. split.
    + rewrite length_take. lia.
    + apply Forall_forall. intros c Hc. apply elem_of_take in Hc as (i & Hi & Hi10).
      apply (StronglySorted_lookup _ _ i j c (candidate_of this (itemIndex, score)) Hsorted);
        [exact Hi | exact Hj | lia].
Qed.

(** X19.  Each entry that [rank] returns pairs a score of the model with the
    raw id of the position where that score stands, no position is used
    twice, every position used is one that is not excluded, and the list
    has 10 entries or, when fewer positions are not excluded, one for each
    of them. *)
Theorem rank_picks_scored_positions this (scoreData : list number)
    (ratedItemIds : JsSet.t intnum) :
  exists picks : list (nat * number),
    rank this scoreData ratedItemIds = map (candidate_of this) picks
    /\ NoDup (map fst picks)
    /\ Forall (fun entry => scoreData !! entry.1 = Some entry.2
                            /\ eligible this ratedItemIds entry) picks
    /\ length picks
       = Nat.min 10 (length (filter (eligible this ratedItemIds) (indexed scoreData))).
Proof.
  rewrite rank_eq, candidates_eq. cbn [app].
  set (found := filter (eligible this ratedItemIds) (indexed scoreData)).
  destruct (Permutation_map_inv (candidate_of this) found
              (sort_by_perm compare_score (map (candidate_of this) found)))
    as (sorted & Heq & Hperm).
  exists (take 10 sorted). rewrite Heq. split; [apply firstn_map |]. split; [| split].
  - assert (NoDup (map fst sorted)) as Hnd.
    { rewrite <- Hperm. unfold found.
      assert (NoDup (map fst (indexed scoreData))) as Hall
        by (change (NoDup (JsMap.keys (indexed scoreData)));
            rewrite keys_indexed; apply NoDup_seq).
      revert Hall. generalize (indexed scoreData). intros l.
      induction l as [| e l IH]; intros Hall; [constructor |].
      apply NoDup_cons in Hall as [Hout Hall]. rewrite filter_cons.
      destruct (decide (eligible this ratedItemIds e)); [| now apply IH].
      simpl. apply NoDup_cons. split; [| now apply IH].
      intros Hin. apply Hout. apply list_elem_of_fmap in Hin as (e' & -> & He').
      apply list_elem_of_filter in He' as [_ He']. apply list_elem_of_fmap. eauto. }
    rewrite <- (take_drop 10 sorted), map_app in Hnd. now apply NoDup_app in Hnd as [Hnd _].
  - apply Forall_forall. intros e He. apply elem_of_take in He as (i & Hi & _).
    apply list_elem_of_lookup_2 in Hi. rewrite <- Hperm in Hi. unfold found in Hi.
    apply list_elem_of_filter in Hi as [Hel Hin]. split; [| exact Hel].
    destruct e as [k s]. now apply elem_of_indexed.
  - rewrite length_take. f_equal. symmetry. now apply Permutation_length.
Qed.



End RankingFacts.

(** ** Testing and the embedding chart *)

Section TestingFacts.
Context `{Tf}.
Implicit Types this : App Simple.t Deep.t.

Lemma bind_Ok {A B : Type} (c : M Simple.t Deep.t A) (k : A -> M Simple.t Deep.t B) this
    (b : B) final :
  bind c k this = (Ok b, final) ->
  exists a this1, c this = (Ok a, this1) /\ k a this1 = (Ok b, final).
Proof. unfold bind. destruct (c this) as [[a | e] this1]; [eauto | discriminate]. Qed.

Lemma kept_bind {X A B : Type} (f : App Simple.t Deep.t -> X) (c : M Simple.t Deep.t A)
    (k : A -> M Simple.t Deep.t B) :
  kept f c -> (forall a, kept f (k a)) -> kept f (bind c k).
Proof.
  intros Hc Hk this. unfold bind. specialize (Hc this).
  destruct (c this) as [[a | e] this1]; simpl in *; [| exact Hc].
  now rewrite Hk.
Qed.

Lemma kept_throw {X A : Type} (f : App Simple.t Deep.t -> X) (e : exn) :
  kept f (@throw _ _ A e).
Proof. now intros this. Qed.

Lemma getRecommendations_state (model : Model) (userId : intnum) (userIndex : option nat)
    (ratedItemIds : JsSet.t intnum) this :
  snd (getRecommendations model userId userIndex ratedItemIds this) = this.
Proof.
  unfold getRecommendations, bind, read, ret.
  pose proof (score_items_state model userId userIndex this) as Hstate.
  destruct (score_items model userId userIndex this) as [[scoreData | e] this1];
    simpl in *; exact Hstate.
Qed.

Lemma getRecommendations_Ok (model : Model) (userId : intnum) (userIndex : option nat)
    (ratedItemIds : JsSet.t intnum) this (recs : list Candidate.t) this1 :
  getRecommendations model userId userIndex ratedItemIds this = (Ok recs, this1) ->
  this1 = this /\ exists scoreData, recs = rank this scoreData ratedItemIds.
Proof.
  intros Hrun. pose proof (getRecommendations_state model userId userIndex ratedItemIds this)
    as Hstate. rewrite Hrun in Hstate. simpl in Hstate. subst this1. split; [reflexivity |].
  unfold getRecommendations, bind, read, ret in Hrun.
  pose proof (score_items_state model userId userIndex this) as Hscore.
  destruct (score_items model userId userIndex this) as [[scoreData | e] this1];
    simpl in *; [| discriminate].
  subst this1. injection Hrun as <-. eauto.
Qed.

Lemma test_recommend_state (random : Q) this : snd (test_recommend random this) = this.
Proof.
  revert this. change (kept (fun this => this) (test_recommend random)).
  unfold test_recommend.
  apply kept_bind; [apply kept_read | intros qualified]. cbv zeta.
  apply kept_bind; [apply kept_read | intros userIndex].
  apply kept_bind; [apply kept_read | intros userInteractions].
  destruct (qualified !! _) as [u |]; [| apply kept_throw].
  destruct userInteractions as [hist |]; [| apply kept_throw].
  apply kept_bind; [apply kept_read | intros simple].
  apply kept_bind; [apply kept_read | intros deep].
  destruct simple as [simple |]; [| apply kept_throw].
  destruct deep as [deep |]; [| apply kept_throw].
  apply kept_bind; [intros this; apply getRecommendations_state | intros recsSimple].
  apply kept_bind; [intros this; apply getRecommendations_state | intros recsDeep].
  apply kept_ret.
Qed.

(** What a successful [test_recommend] returns. *)
Lemma test_recommend_Ok (random : Q) this (u : intnum) (hist : list Interaction)
    (recsSimple recsDeep : list Candidate.t) final :
  test_recommend random this = (Ok (u, hist, recsSimple, recsDeep), final) ->
  u ∈ qualifiedUsers this
  /\ JsMap.get u (userTopRated this) = Some hist
  /\ (exists scoreData, recsSimple = rank this scoreData (JsSet.from (map itemId hist)))
  /\ (exists scoreData, recsDeep = rank this scoreData (JsSet.from (map itemId hist))).
Proof.
  unfold test_recommend. intros Hrun.
  apply bind_Ok in Hrun as (qualified & s1 & Hq & Hrun). injection Hq as <- <-.
  cbv zeta in Hrun.
  apply bind_Ok in Hrun as (userIndex & s2 & Hi & Hrun). injection Hi as <- <-.
  apply bind_Ok in Hrun as (userInteractions & s3 & Hh & Hrun). injection Hh as <- <-.
  destruct (qualifiedUsers this !! _) as [u' |] eqn:Hdraw; [| discriminate].
  cbn [JsMap.get_opt] in Hrun.
  destruct (JsMap.get u' (userTopRated this)) as [hist' |] eqn:Hhist; [| discriminate].
  apply bind_Ok in Hrun as (simple & s4 & Hs & Hrun). injection Hs as <- <-.
  apply bind_Ok in Hrun as (deep & s5 & Hd & Hrun). injection Hd as <- <-.
  destruct (simpleModel this) as [simple |]; [| discriminate].
  destruct (deepModel this) as [deep |]; [| discriminate].
  apply bind_Ok in Hrun as (recs1 & s6 & H1 & Hrun).
  apply getRecommendations_Ok in H1 as [-> Hrank1].
  apply bind_Ok in Hrun as (recs2 & s7 & H2 & Hrun).
  apply getRecommendations_Ok in H2 as [-> Hrank2].
  injection Hrun as <- <- <- <- <-.
  split; [eapply list_elem_of_lookup_2; exact Hdraw |]. auto.
Qed.

Lemma rank_excludes this (scoreData : list number) (ratedItemIds : JsSet.t intnum)
    (c : Candidate.t) (id : intnum) :
  c ∈ rank this scoreData ratedItemIds -> Candidate.itemId c = Some id -> id ∉ ratedItemIds.
Proof.
  rewrite rank_eq, candidates_eq. cbn [app]. intros Hc Hid.
  apply elem_of_take in Hc as (i & Hi & _). apply list_elem_of_lookup_2 in Hi.
  apply sort_by_elem_of in Hi. apply list_elem_of_fmap in Hi as (e & -> & He).
  apply list_elem_of_filter in He as [Hel _]. unfold eligible in Hel.
  simpl in Hid. rewrite Hid in Hel. simpl in Hel. unfold JsSet.has in Hel.
  now apply bool_decide_eq_false in Hel.
Qed.

Lemma rank_length this (scoreData : list number) (ratedItemIds : JsSet.t intnum) :
  length (rank this scoreData ratedItemIds) <= 10.
Proof. rewrite rank_eq, length_take. lia. Qed.

Lemma map_result_rows {A : Type} (itemId_of : A -> option intnum) (value_of : A -> number)
    this (data : list A) (start : nat) (rows : list TableRow.t) :
  map_result
    (fun '(index, item) =>
       match JsMap.get_opt (itemId_of item) (items this) with
       | Some movie =>
           Ok {| TableRow.rank := index + 1;
                 TableRow.title := title movie;
                 TableRow.value := value_of item;
                 TableRow.year := year_cell (year movie) |}
       | None => Throw (cannot_read "title")
       end)
    (zip (seq start (length data)) data) = Ok rows ->
  map TableRow.rank rows = seq (start + 1) (length data)
  /\ map TableRow.value rows = map value_of data.
Proof.
  revert start rows. induction data as [| item data IH]; intros start rows; simpl.
  - intros [= <-]. split; reflexivity.
  - destruct (JsMap.get_opt (itemId_of item) (items this)) as [movie |]; [| discriminate].
    destruct (map_result _ (zip (seq (S start) (length data)) data)) as [rest | e] eqn:Hrest;
      [| discriminate].
    intros [= <-]. apply IH in Hrest as [Hranks Hvalues]. simpl.
    rewrite Hranks, Hvalues. split; [| reflexivity]. f_equal.
Qed.

Lemma createTable_rows {A : Type} (itemId_of : A -> option intnum) (value_of : A -> number)
    this (data : list A) (rows : list TableRow.t) :
  createTable itemId_of value_of this data = Ok rows ->
  map TableRow.rank rows = seq 1 (length data) /\ map TableRow.value rows = map value_of data.
Proof. unfold createTable, indexed. apply map_result_rows. Qed.

(** X21.  [test] never throws and assigns no field of the object: whatever
    goes wrong while recommending or displaying is caught and reported in
    the status line.  It reports that the models are not trained exactly
    when a model is missing or no user is qualified. *)
Theorem test_always_reports (random : Q) this :
  exists report,
    test random this = (Ok report, this)
    /\ (Report.status report = ModelsNotTrained
        <-> simpleModel this = None \/ deepModel this = None \/ qualifiedUsers this = []).
Proof.
  cbv [test bind read ret lift try_catch].
  destruct (simpleModel this) as [simple |] eqn:Hsimple;
    [| eexists; split; [reflexivity | simpl; tauto]].
  destruct (deepModel this) as [deep |] eqn:Hdeep;
    [| eexists; split; [reflexivity | simpl; tauto]].
  destruct (qualifiedUsers this) as [| u qualified] eqn:Hqualified;
    [eexists; split; [reflexivity | simpl; tauto] |].
  pose proof (test_recommend_state random this) as Hstate.
  destruct (test_recommend random this) as [[[[[u' hist] recsSimple] recsDeep] | e] this1];
    cbn [snd] in Hstate; subst this1; cbv beta iota.
  - destruct (displayResults this u' hist recsSimple recsDeep) as [shown | e];
      eexists; (split; [reflexivity |]); cbn [Report.status];
      (split; [discriminate | intros [? | [? | ?]]; discriminate]).
  - eexists. split; [reflexivity |]. cbn [Report.status].
    split; [discriminate | intros [? | [? | ?]]; discriminate].
Qed.

(** X22.  When [test] reports recommendations for a user, that user is one
    of the qualified users, the first table shows the first ten entries of
    the user's stored history with their ratings, the rows of each table are
    numbered from 1, and neither table of recommendations has more than ten
    rows. *)
Theorem test_shows_a_qualified_user (random : Q) this (report : Report.t) final (u : intnum) :
  test random this = (Ok report, final) ->
  Report.status report = RecommendationsGenerated u ->
  u ∈ qualifiedUsers this
  /\ exists shown hist,
       Report.results report = Some shown
       /\ Results.userId shown = u
       /\ JsMap.get u (userTopRated this) = Some hist
       /\ map TableRow.value (Results.topRated shown) = map rating (take 10 hist)
       /\ map TableRow.rank (Results.topRated shown) = seq 1 (Nat.min 10 (length hist))
       /\ map TableRow.rank (Results.recsSimple shown) = seq 1 (length (Results.recsSimple shown))
       /\ map TableRow.rank (Results.recsDeep shown) = seq 1 (length (Results.recsDeep shown))
       /\ length (Results.recsSimple shown) <= 10
       /\ length (Results.recsDeep shown) <= 10.
Proof.
  cbv [test bind read ret lift try_catch].
  destruct (simpleModel this) as [simple |]; [| intros [= <- <-]; discriminate].
  destruct (deepModel this) as [deep |]; [| intros [= <- <-]; discriminate].
  destruct (qualifiedUsers this) as [| u0 qualified] eqn:Hqualified;
    [intros [= <- <-]; discriminate |].
  rewrite <- Hqualified.
  destruct (test_recommend random this) as [[[[[u' hist] recsSimple] recsDeep] | e] this1]
    eqn:Hrec; cbv beta iota; [| intros [= <- <-]; discriminate].
  pose proof (test_recommend_state random this) as Hstate. rewrite Hrec in Hstate.
  cbn [snd] in Hstate. subst this1.
  apply test_recommend_Ok in Hrec as (Hu & Hhist & [scores1 ->] & [scores2 ->]).
  unfold displayResults.
  destruct (createTable (fun i => Some (itemId i)) rating this (slice 0 10 hist))
    as [historical | e] eqn:Htop; [| intros [= <- <-]; discriminate].
  destruct (createTable Candidate.itemId Candidate.score this (rank this scores1 _))
    as [rowsSimple | e] eqn:Hsimple; [| intros [= <- <-]; discriminate].
  destruct (createTable Candidate.itemId Candidate.score this (rank this scores2 _))
    as [rowsDeep | e] eqn:Hdeep; [| intros [= <- <-]; discriminate].
  intros [= <- <-]. cbn [Report.status Report.results]. intros [= <-]. split; [exact Hu |].
  apply createTable_rows in Htop as [Htop_ranks Htop_values].
  apply createTable_rows in Hsimple as [Hsimple_ranks _].
  apply createTable_rows in Hdeep as [Hdeep_ranks _].
  unfold slice in Htop_ranks, Htop_values. cbn [drop Nat.sub] in Htop_ranks, Htop_values.
  rewrite length_take in Htop_ranks.
  assert (length rowsSimple = length (rank this scores1 (JsSet.from (map itemId hist))))
    as Hlen1 by (rewrite <- (length_map TableRow.rank), Hsimple_ranks; apply length_seq).
  assert (length rowsDeep = length (rank this scores2 (JsSet.from (map itemId hist))))
    as Hlen2 by (rewrite <- (length_map TableRow.rank), Hdeep_ranks; apply length_seq).
  eexists _, hist. split; [reflexivity |].
  cbn [Results.userId Results.topRated Results.recsSimple Results.recsDeep].
  split; [reflexivity |].
  split; [exact Hhist |]. split; [exact Htop_values |]. split; [exact Htop_ranks |].
  rewrite Hlen1, Hlen2. repeat split; try assumption; apply rank_length.
Qed.

(** X23.  What [test] computes before it displays: the history is the one
    stored for the user drawn, and neither list of recommendations holds an
    item of that history. *)
Theorem test_never_recommends_a_rated_item (random : Q) this (u : intnum)
    (hist : list Interaction) (recsSimple recsDeep : list Candidate.t) final :
  test_recommend random this = (Ok (u, hist, recsSimple, recsDeep), final) ->
  JsMap.get u (userTopRated this) = Some hist
  /\ forall c i, c ∈ recsSimple ++ recsDeep -> i ∈ hist ->
       Candidate.itemId c <> Some (itemId i).
Proof.
  intros Hrec. apply test_recommend_Ok in Hrec as (_ & Hhist & [scores1 ->] & [scores2 ->]).
  split; [exact Hhist |]. intros c i Hc Hi Hid.
  assert (itemId i ∉ JsSet.from (map itemId hist)) as Hout.
  { apply elem_of_app in Hc as [Hc | Hc]; eapply rank_excludes; eauto. }
  apply Hout, from_elem_of, list_elem_of_fmap. eauto.
Qed.

(** X24.  For a number that [Math.random()] can return, at least 0 and
    below 1, the index that [test] computes is inside the array of
    qualified users, so a user is drawn. *)
Theorem test_draws_inside_the_array (random : Q) this :
  (0 <= random)%Q -> (random < 1)%Q -> qualifiedUsers this <> [] ->
  exists u,
    qualifiedUsers this !! random_index random (length (qualifiedUsers this)) = Some u
    /\ u ∈ qualifiedUsers this.
Proof.
  intros Hlow Hhigh Hne.
  assert (random_index random (length (qualifiedUsers this)) < length (qualifiedUsers this))
    as Hlt.
  { unfold random_index. destruct (qualifiedUsers this) as [| u l]; [done |].
    set (n := length (u :: l)). assert (0 < Z.of_nat n)%Z as Hn by (unfold n; simpl; lia).
    assert (0 < inject_Z (Z.of_nat n))%Q as Hq
      by (change 0%Q with (inject_Z 0); rewrite <- Zlt_Qlt; exact Hn).
    assert (0 <= Qfloor (random * inject_Z (Z.of_nat n)))%Z as Hfloor.
    { change 0%Z with (Qfloor 0). apply Qfloor_resp_le.
      apply Qmult_le_0_compat; [exact Hlow | now apply Qlt_le_weak]. }
    assert (Qfloor (random * inject_Z (Z.of_nat n)) < Z.of_nat n)%Z as Hbelow.
    { rewrite Zlt_Qlt. eapply Qle_lt_trans; [apply Qfloor_le |].
      rewrite <- (Qmult_1_l (inject_Z (Z.of_nat n))) at 2.
      now apply Qmult_lt_compat_r. }
    lia. }
  apply lookup_lt_is_Some_2 in Hlt as [u Hu]. exists u. split; [exact Hu |].
  eapply list_elem_of_lookup_2. exact Hu.
Qed.

End TestingFacts.

(** *** The sample of the embedding chart *)

Section ChartFacts.
Context `{Tf}.
Implicit Types this : App Simple.t Deep.t.

Lemma sample_index_eq (size i : nat) :
  2 <= size ->
  number_floor
    (number_div (Fin (inject_Z (Z.of_nat i * (Z.of_nat size - 1))))
                (Fin (inject_Z (Z.of_nat (Nat.min 500 size) - 1))))
  = Fin (inject_Z ((Z.of_nat i * (Z.of_nat size - 1))
                   / (Z.of_nat (Nat.min 500 size) - 1))).
Proof.
  intros Hsize. unfold number_div.
  destruct (Qzero (inject_Z (Z.of_nat (Nat.min 500 size) - 1))) eqn:Hzero.
  - apply Qeq_bool_eq in Hzero. unfold Qeq, inject_Z in Hzero.
    cbn [Qnum Qden] in Hzero. lia.
  - unfold number_floor. now rewrite <- Zdiv_Qdiv.
Qed.

Lemma get_number_of_nat {V : Type} (k : nat) (m : JsMap.t nat V) :
  get_number (of_nat k) m = JsMap.get k m.
Proof.
  unfold get_number, of_nat. rewrite Qfloor_Z.
  rewrite (proj2 (Qeq_bool_iff _ _) (Qeq_refl _)).
  replace (0 <=? Z.of_nat k)%Z with true by (symmetry; apply Z.leb_le; lia).
  simpl. now rewrite Nat2Z.id.
Qed.

(** X25.  For two or more indexed items the chart samples [min(500, size)]
    of them: every sampled index is a whole number below [size], so it is a
    key of the reverse map when the indices are dense; the first is 0 and
    the last is [size - 1]. *)
Theorem sample_indices_in_range (size : nat) :
  2 <= size ->
  length (sample_indices size) = Nat.min 500 size
  /\ (forall x, x ∈ sample_indices size ->
        exists k : nat,
          x = of_nat k /\ k < size
          /\ forall (V : Type) (m : JsMap.t nat V), get_number x m = JsMap.get k m)
  /\ sample_indices size !! 0%nat = Some (of_nat 0)
  /\ sample_indices size !! (Nat.min 500 size - 1)%nat = Some (of_nat (size - 1)).
Proof.
  intros Hsize. unfold sample_indices. cbv zeta. split; [| split; [| split]].
  - now rewrite length_map, length_seq.
  - intros x Hx. apply list_elem_of_fmap in Hx as (i & -> & Hi).
    apply elem_of_seq in Hi as [_ Hi]. rewrite sample_index_eq by done.
    set (z := (Z.of_nat i * (Z.of_nat size - 1) / (Z.of_nat (Nat.min 500 size) - 1))%Z).
    assert (0 <= z <= Z.of_nat size - 1)%Z as Hz.
    { unfold z. split.
      - apply Z.div_pos; [nia | lia].
      - apply Z.div_le_upper_bound; [lia | nia]. }
    exists (Z.to_nat z).
    assert (Fin (inject_Z z) = of_nat (Z.to_nat z)) as ->
      by (unfold of_nat; now rewrite Z2Nat.id by lia).
    split; [reflexivity |]. split; [lia |]. intros V m. apply get_number_of_nat.
  - rewrite list_lookup_fmap, lookup_seq_lt by lia.
    cbn [fmap option_fmap option_map Nat.add]. f_equal.
    now rewrite sample_index_eq by done.
  - rewrite list_lookup_fmap, lookup_seq_lt by lia.
    cbn [fmap option_fmap option_map Nat.add]. f_equal.
    rewrite sample_index_eq by done. unfold of_nat. do 2 f_equal.
    replace (Z.of_nat (Nat.min 500 size - 1)) with (Z.of_nat (Nat.min 500 size) - 1)%Z by lia.
    rewrite Z.mul_comm, Z.div_mul by lia. lia.
Qed.

(** X26.  With exactly one indexed item the sampling divides 0 by 0: the
    one sampled index is [NaN], no item is found for it, and the chart fails
    with the TypeError of reading [genres], whatever the items table holds.
    With no indexed item the sample is empty and nothing fails. *)
Theorem single_item_chart_fails this :
  (JsMap.size (itemMap this) = 1%nat ->
     visualization_sample this = Throw (cannot_read "genres"))
  /\ (JsMap.size (itemMap this) = 0%nat -> visualization_sample this = Ok ([], [])).
Proof.
  split; intros Hsize; unfold visualization_sample; rewrite Hsize; reflexivity.
Qed.

End ChartFacts.

(** ** Ranking and testing on small inputs *)

Section TestRuns.
Import Sample TestSample.

(** X18 on the sample model: item 10, at position 0 with score 1/2, is not
    excluded, and it is returned. *)
Lemma rank_returns_the_best_witness :
  candidate_of trained (0%nat, Fin (1 # 2))
    ∈ rank trained [Fin (1 # 2); Fin (9 # 10); Fin (1 # 10)] [Int 20]
  \/ (length (rank trained [Fin (1 # 2); Fin (9 # 10); Fin (1 # 10)] [Int 20]) = 10%nat
      /\ Forall (fun c => number_le (Fin (1 # 2)) (Candidate.score c))
                (rank trained [Fin (1 # 2); Fin (9 # 10); Fin (1 # 10)] [Int 20])).
Proof.
  apply (rank_returns_the_best trained [Fin (1 # 2); Fin (9 # 10); Fin (1 # 10)] [Int 20]
           0%nat (Fin (1 # 2))).
  - repeat constructor; discriminate.
  - reflexivity.
  - reflexivity.
Defined.

(** X22 on the object to test on: the report is for user 1. *)
Lemma test_shows_a_qualified_user_witness :
  Int 1 ∈ qualifiedUsers ready
  /\ exists shown hist,
       Report.results (default {| Report.status := ModelsNotTrained; Report.results := None |}
                         (match fst (test (1 # 2) ready) with
                          | Ok report => Some report
                          | Throw _ => None
                          end)) = Some shown
       /\ Results.userId shown = Int 1
       /\ JsMap.get (Int 1) (userTopRated ready) = Some hist
       /\ map TableRow.value (Results.topRated shown) = map rating (take 10 hist)
       /\ map TableRow.rank (Results.topRated shown) = seq 1 (Nat.min 10 (length hist))
       /\ map TableRow.rank (Results.recsSimple shown) = seq 1 (length (Results.recsSimple shown))
       /\ map TableRow.rank (Results.recsDeep shown) = seq 1 (length (Results.recsDeep shown))
       /\ length (Results.recsSimple shown) <= 10
       /\ length (Results.recsDeep shown) <= 10.
Proof.
  destruct (test (1 # 2) ready) as [r final] eqn:Hrun.
  assert (exists report, r = Ok report /\ Report.status report = RecommendationsGenerated (Int 1))
    as (report & -> & Hstatus).
  { assert (r = fst (test (1 # 2) ready)) as -> by now rewrite Hrun.
    vm_compute. eexists. split; reflexivity. }
  exact (test_shows_a_qualified_user (1 # 2) ready report final (Int 1) Hrun Hstatus).
Defined.

(** X23 on the same object: neither Alien nor Casablanca is Brazil. *)
Lemma test_never_recommends_a_rated_item_witness :
  exists hist recsSimple recsDeep,
    fst (test_recommend (1 # 2) ready) = Ok (Int 1, hist, recsSimple, recsDeep)
    /\ length recsSimple = 2%nat
    /\ JsMap.get (Int 1) (userTopRated ready) = Some hist
    /\ forall c i, c ∈ recsSimple ++ recsDeep -> i ∈ hist ->
         Candidate.itemId c <> Some (itemId i).
Proof.
  destruct (test_recommend (1 # 2) ready) as [r final] eqn:Hrun.
  assert (exists hist recsSimple recsDeep,
            r = Ok (Int 1, hist, recsSimple, recsDeep) /\ length recsSimple = 2%nat)
    as (hist & recsSimple & recsDeep & -> & Hlen).
  { assert (r = fst (test_recommend (1 # 2) ready)) as -> by now rewrite Hrun.
    vm_compute. do 3 eexists. split; reflexivity. }
  exists hist, recsSimple, recsDeep. split; [reflexivity |]. split; [exact Hlen |].
  exact (test_never_recommends_a_rated_item (1 # 2) ready (Int 1) hist recsSimple recsDeep
           final Hrun).
Defined.

(** X24 on the same object and the draw 1/2. *)
Lemma test_draws_inside_the_array_witness :
  exists u,
    qualifiedUsers ready !! random_index (1 # 2) (length (qualifiedUsers ready)) = Some u
    /\ u ∈ qualifiedUsers ready.
Proof.
  apply (test_draws_inside_the_array (1 # 2) ready); [discriminate | reflexivity | discriminate].
Defined.

(** X25 on a catalogue of 1682 items, of which 500 are sampled. *)
Lemma sample_indices_in_range_witness :
  length (sample_indices 1682) = 500%nat
  /\ sample_indices 1682 !! 0%nat = Some (of_nat 0)
  /\ sample_indices 1682 !! 499%nat = Some (of_nat 1681).
Proof.
  destruct (sample_indices_in_range 1682) as (Hlen & _ & Hfirst & Hlast).
  - lia.
  - repeat split; assumption.
Defined.

End TestRuns.
